(** * Isolation game: the backend engine, the move chooser, the position
      evaluator and the experience recorder, embedded from
      [backend/src/services/GameEngine.js] and the [ExperienceReplay]
      service.

    Conventions of the embedding.
    - Coordinates are [Z]: the engine computes [pos[0] + dx] and only then
      tests the bounds, so negative numbers do occur.  (A caller's number
      that is not an integer names no row and no cell, and fails a call at
      its first test, as an integer outside the grid does.)
    - The board is the JS array of arrays, a [list (list Cell)].  Reading
      [board[r][c]] where the row [r] is missing raises a TypeError, and so
      does writing there; both are kept ([read_cell], [write_cell]).
    - JS numbers are IEEE doubles.  Coordinates and counters are integers
      far inside the range in which doubles are exact; they are [Z].  The
      scores of the evaluator and of the selection are sums and quotients
      whose rounding can decide a comparison: the code that handles them is
      written once, over a class [Number] of arithmetics, and read with the
      rationals or with binary64.  Percentages and averages elsewhere are
      rationals.
    - [Date.now()], [Math.random()] and the learned model are the
      environment: they are taken as oracles (parameters).
    - Timestamps, identifiers of simulation clones, console output and the
      files written are left out. *)

From Stdlib Require Import ZArith QArith Qround Qabs Lia Lqa.
From Stdlib Require PrimFloat Uint63 FloatAxioms.
From stdpp Require Import base option list gmap strings pretty sorting.

Local Open Scope Z_scope.

(** Keep rational arithmetic folded during simplification. *)
#[local] Arguments Qfloor : simpl never.
#[local] Arguments Qmult : simpl never.
#[local] Arguments Qplus : simpl never.
#[local] Arguments Qdiv : simpl never.
#[local] Arguments inject_Z : simpl never.

(** ** Data model *)

Inductive Player := HUMAN | AI.

(** A cell holds one of the four characters ['.'], ['_'], ['H'], ['A']. *)
Inductive Cell := EMPTY | BLOCKED | Mark (p : Player).

#[global] Instance Player_eq_dec : EqDecision Player.
Proof. solve_decision. Defined.
#[global] Instance Cell_eq_dec : EqDecision Cell.
Proof. solve_decision. Defined.

Abbreviation Pos := (Z * Z)%type.
Abbreviation Board := (list (list Cell)).

Definition BOARD_SIZE : Z := 7.

Definition directions : list (Z * Z) :=
  [ (-1, 0); (1, 0); (0, -1); (0, 1);
    (-1, -1); (-1, 1); (1, -1); (1, 1) ].

(** [Array(7).fill().map(() => Array(7).fill('.'))] *)
Definition initializeBoard : Board :=
  replicate (Z.to_nat BOARD_SIZE) (replicate (Z.to_nat BOARD_SIZE) EMPTY).

(** ** Exceptions *)

Inductive Error :=
  | InvalidGameState     (* 'Invalid game state' *)
  | PositionOccupied     (* 'Position already occupied' *)
  | InvalidMove          (* 'Invalid move' *)
  | InvalidAIMove        (* 'Invalid AI move' *)
  | GameNotFound         (* 'Game not found' *)
  | CannotUndoEnded      (* 'Cannot undo moves in ended game' *)
  | NoMovesToUndo        (* 'No moves to undo' *)
  | NoHumanMovesToUndo   (* 'No human moves to undo' *)
  | TypeError            (* a property read or written on null or undefined *)
  | NetworkError         (* the learned model rejected *)
  | NetworkTimeout       (* 'Neural network timeout' *)
  | OutsideGrid.         (* not an exception of the source, see [write_cell] *)

Inductive Result (A : Type) :=
  | Ok (a : A)
  | Throw (e : Error).
Arguments Ok {A} a.
Arguments Throw {A} e.

#[global] Instance Result_ret : MRet Result := λ A a, Ok a.
#[global] Instance Result_bind : MBind Result := λ A B f m,
  match m with Ok a => f a | Throw e => Throw e end.

(** ** Reading and writing the board *)

(** [board[r]]: [None] is [undefined]. *)
Definition row_at (board : Board) (r : Z) : option (list Cell) :=
  if 0 <=? r then board !! Z.to_nat r else None.

(** [board[r][c]] as an expression: a TypeError when [board[r]] is
    [undefined], otherwise the element, [None] being [undefined]. *)
Definition read_cell (board : Board) (r c : Z) : Result (option Cell) :=
  match row_at board r with
  | None => Throw TypeError
  | Some row => Ok (if 0 <=? c then row !! Z.to_nat c else None)
  end.

(** [board[p[0]][p[1]] = v]: a TypeError when the row is [undefined]; the
    element is replaced when the column is one of the row.  Beside the row
    JS would grow the array (or add a property for a negative index); a list
    of cells cannot follow it there, and the embedding stops with
    [OutsideGrid].  No call made on a session of the engine gets there
    ([reachable_inv] and the lemmas on each method). *)
Definition write_cell (board : Board) (p : Pos) (v : Cell) : Result Board :=
  match row_at board p.1 with
  | None => Throw TypeError
  | Some row =>
    if (0 <=? p.2) && (p.2 <? Z.of_nat (length row))
    then Ok (<[Z.to_nat p.1 := <[Z.to_nat p.2 := v]> row]> board)
    else Throw OutsideGrid
  end.

(** The value found at a position, [None] where there is no cell, and the
    board with one cell replaced: the pure counterparts of [read_cell] and
    [write_cell], used to state what they do. *)
Definition cell_at (board : Board) (r c : Z) : option Cell :=
  if (0 <=? r) && (0 <=? c)
  then row ← board !! Z.to_nat r; row !! Z.to_nat c
  else None.

Definition set_cell (board : Board) (p : Pos) (v : Cell) : Board :=
  if (0 <=? p.1) && (0 <=? p.2)
  then alter (λ row, <[Z.to_nat p.2 := v]> row) (Z.to_nat p.1) board
  else board.

Definition wf_board (board : Board) : Prop :=
  length board = Z.to_nat BOARD_SIZE ∧
  Forall (λ row, length row = Z.to_nat BOARD_SIZE) board.

#[global] Instance wf_board_dec board : Decision (wf_board board).
Proof. unfold wf_board. apply _. Defined.

(** ** Move rules *)

Definition isValidPosition (row col : Z) : bool :=
  (0 <=? row) && (row <? BOARD_SIZE) && (0 <=? col) && (col <? BOARD_SIZE).

Definition valid (p : Pos) : Prop := isValidPosition p.1 p.2 = true.

(** [moves.push([newRow, newCol])] under
    [isValidPosition(newRow, newCol) && board[newRow][newCol] === EMPTY]; the
    cell is read only at a valid position. *)
Definition tryDirection (board : Board) (pos : Pos)
    (acc : Result (list Pos)) (d : Z * Z) : Result (list Pos) :=
  moves ← acc;
  let newRow := pos.1 + d.1 in
  let newCol := pos.2 + d.2 in
  if isValidPosition newRow newCol then
    c ← read_cell board newRow newCol;
    mret (if bool_decide (c = Some EMPTY)
          then moves ++ [(newRow, newCol)] else moves)
  else mret moves.

Definition getValidMoves (board : Board) (pos : Pos) : Result (list Pos) :=
  foldl (tryDirection board pos) (Ok []) directions.

(** The same list read off the board as a value: what [getValidMoves]
    returns whenever it returns ([getValidMoves_Ok]). *)
Definition emptyNeighbour (board : Board) (pos : Pos) (d : Z * Z)
  : list Pos :=
  let newRow := pos.1 + d.1 in
  let newCol := pos.2 + d.2 in
  if isValidPosition newRow newCol
     && bool_decide (cell_at board newRow newCol = Some EMPTY)
  then [(newRow, newCol)] else [].

Definition legalCells (board : Board) (pos : Pos) : list Pos :=
  flat_map (emptyNeighbour board pos) directions.

#[global] Arguments getValidMoves : simpl never.
#[global] Arguments legalCells : simpl never.
#[global] Arguments set_cell : simpl never.
#[global] Arguments cell_at : simpl never.
#[global] Arguments read_cell : simpl never.
#[global] Arguments write_cell : simpl never.
#[global] Arguments initializeBoard : simpl never.

(** Chebyshev distance between two cells. *)
Definition chebyshev (p q : Pos) : Z :=
  Z.max (Z.abs (q.1 - p.1)) (Z.abs (q.2 - p.2)).

(** ** Sessions *)

Inductive Phase := starting | playing | ended.

#[global] Instance Phase_eq_dec : EqDecision Phase.
Proof. solve_decision. Defined.

(** One entry of [moveHistory]: [{player, from, to, timestamp, board}]. *)
Record MoveRecord := {
  mr_player : Player;
  mr_from : option Pos;
  mr_to : Pos;
  mr_board : Board
}.

Record Game := {
  id : string;
  playerId : string;
  board : Board;
  humanPos : option Pos;
  aiPos : option Pos;
  currentPlayer : Player;
  gamePhase : Phase;
  moveHistory : list MoveRecord;
  winner : option Player;
  isSimulation : bool
}.

Definition set_board (b : Board) (g : Game) : Game :=
  {| id := id g; playerId := playerId g; board := b; humanPos := humanPos g;
     aiPos := aiPos g; currentPlayer := currentPlayer g;
     gamePhase := gamePhase g; moveHistory := moveHistory g;
     winner := winner g; isSimulation := isSimulation g |}.
Definition set_humanPos (p : option Pos) (g : Game) : Game :=
  {| id := id g; playerId := playerId g; board := board g; humanPos := p;
     aiPos := aiPos g; currentPlayer := currentPlayer g;
     gamePhase := gamePhase g; moveHistory := moveHistory g;
     winner := winner g; isSimulation := isSimulation g |}.
Definition set_aiPos (p : option Pos) (g : Game) : Game :=
  {| id := id g; playerId := playerId g; board := board g;
     humanPos := humanPos g; aiPos := p; currentPlayer := currentPlayer g;
     gamePhase := gamePhase g; moveHistory := moveHistory g;
     winner := winner g; isSimulation := isSimulation g |}.
Definition set_currentPlayer (p : Player) (g : Game) : Game :=
  {| id := id g; playerId := playerId g; board := board g;
     humanPos := humanPos g; aiPos := aiPos g; currentPlayer := p;
     gamePhase := gamePhase g; moveHistory := moveHistory g;
     winner := winner g; isSimulation := isSimulation g |}.
Definition set_gamePhase (ph : Phase) (g : Game) : Game :=
  {| id := id g; playerId := playerId g; board := board g;
     humanPos := humanPos g; aiPos := aiPos g;
     currentPlayer := currentPlayer g; gamePhase := ph;
     moveHistory := moveHistory g; winner := winner g;
     isSimulation := isSimulation g |}.
Definition set_moveHistory (h : list MoveRecord) (g : Game) : Game :=
  {| id := id g; playerId := playerId g; board := board g;
     humanPos := humanPos g; aiPos := aiPos g;
     currentPlayer := currentPlayer g; gamePhase := gamePhase g;
     moveHistory := h; winner := winner g;
     isSimulation := isSimulation g |}.
Definition set_winner (w : option Player) (g : Game) : Game :=
  {| id := id g; playerId := playerId g; board := board g;
     humanPos := humanPos g; aiPos := aiPos g;
     currentPlayer := currentPlayer g; gamePhase := gamePhase g;
     moveHistory := moveHistory g; winner := w;
     isSimulation := isSimulation g |}.

Record GameStats := {
  totalGames : Z;
  humanWins : Z;
  aiWins : Z;
  averageGameLength : Q
}.

(** ** The experience recorder ([ExperienceReplay]) *)

Record Experience := {
  x_gameId : string;
  x_player : Player;
  x_move : Pos;
  x_board : Board;
  x_phase : string
}.

Record HumanPatterns := {
  startingPositions : gmap string Z;
  movePreferences : gmap string Z;
  trapAttempts : gmap string Z;
  escapePatterns : gmap string Z
}.

Record ExperienceReplay := {
  experienceBuffer : list Experience;
  maxBufferSize : Z;
  humanPatterns : HumanPatterns
}.

Definition newExperienceReplay : ExperienceReplay :=
  {| experienceBuffer := []; maxBufferSize := 10000;
     humanPatterns := {| startingPositions := ∅; movePreferences := ∅;
                         trapAttempts := ∅; escapePatterns := ∅ |} |}.

(** Row-major scan of the 7x7 grid, as the nested [for] loops do it. *)
Definition allCells : list Pos :=
  r ← seqZ 0 7; c ← seqZ 0 7; [(r, c)].

Definition countCells (P : Cell → bool) (b : Board) : Z :=
  Z.of_nat (length (List.filter (λ p : Pos, match cell_at b p.1 p.2 with
                                            | Some x => P x
                                            | None => false
                                            end) allCells)).

(** The reads of one scan of the grid; it fails where the first missing
    row is met. *)
Definition scanBoard (b : Board) : Result unit :=
  foldl (λ (acc : Result unit) (p : Pos),
           _ ← acc; _ ← read_cell b p.1 p.2; mret tt)
        (Ok tt) allCells.

(** The phase computed by [determineGamePhase] when its scan goes through.
    The thresholds lie between two counts of blocked cells (9.8 and 29.4),
    so the percentage compares the same way rounded or not. *)
Definition gamePhaseOf (b : Board) : string :=
  let blockedCells := countCells (λ x, bool_decide (x = BLOCKED)) b in
  let totalCells := 49 in
  let blockedPercentage := (inject_Z blockedCells / inject_Z totalCells * 100)%Q in
  if Qle_bool 20 blockedPercentage
  then if Qle_bool 60 blockedPercentage then "endgame" else "midgame"
  else "opening".

Definition determineGamePhase (b : Board) : Result string :=
  _ ← scanBoard b; mret (gamePhaseOf b).

Definition isStartingMove (move : Pos) (b : Board) : bool :=
  let pieceCount :=
    countCells (λ x, match x with Mark _ => true | _ => false end) b in
  pieceCount <=? 2.

Definition encodeMovePattern (move : Pos) (b : Board) : string :=
  let centerDistance := Z.abs (move.1 - 3) + Z.abs (move.2 - 3) in
  let phase := gamePhaseOf b in
  phase +:+ "_" +:+ pretty centerDistance +:+ "_"
        +:+ pretty move.1 +:+ "," +:+ pretty move.2.

(** [row === 0 || row === 6 || col === 0 || col === 6] *)
Definition isEdgeCell (move : Pos) : bool :=
  bool_decide (move.1 = 0 ∨ move.1 = 6 ∨ move.2 = 0 ∨ move.2 = 6).

(** [isEdge] is computed by the source and then not used. *)
Definition isTrapAttempt (move : Pos) (b : Board) : bool :=
  let isEdge := isEdgeCell move in
  existsb (λ p : Pos,
             bool_decide (cell_at b p.1 p.2 = Some (Mark AI))
             && (Z.abs (move.1 - p.1) + Z.abs (move.2 - p.2) <=? 2))
          allCells.

Definition encodeTrapPattern (move : Pos) (b : Board) : string :=
  "trap_" +:+ pretty move.1 +:+ "," +:+ pretty move.2.

(** [map.set(key, (map.get(key) || 0) + 1)] *)
Definition bump (key : string) (m : gmap string Z) : gmap string Z :=
  <[key := default 0 (m !! key) + 1]> m.

Definition analyzeHumanPattern (x : Experience) (hp : HumanPatterns)
  : HumanPatterns :=
  match x_player x with
  | AI => hp
  | HUMAN =>
    let move := x_move x in
    let b := x_board x in
    let sp :=
      if bool_decide (x_phase x = "opening") && isStartingMove move b
      then bump (pretty move.1 +:+ "," +:+ pretty move.2) (startingPositions hp)
      else startingPositions hp in
    let mp := bump (encodeMovePattern move b) (movePreferences hp) in
    let ta :=
      if isTrapAttempt move b
      then bump (encodeTrapPattern move b) (trapAttempts hp)
      else trapAttempts hp in
    {| startingPositions := sp; movePreferences := mp; trapAttempts := ta;
       escapePatterns := escapePatterns hp |}
  end.

(** [recordMove(gameId, player, move, board)].  Its first step,
    [determineGamePhase(board)], reads every row of the grid and is where a
    board with a missing row makes the method throw, before the recorder is
    touched; the later scans read the same rows again and are written with
    [cell_at]. *)
Definition recordMove (gameId : string) (player : Player) (move : Pos)
    (b : Board) (er : ExperienceReplay) : Result ExperienceReplay :=
  phase ← determineGamePhase b;
  let experience :=
    {| x_gameId := gameId; x_player := player; x_move := move; x_board := b;
       x_phase := phase |} in
  let pushed := experienceBuffer er ++ [experience] in
  let buffer :=
    if maxBufferSize er <? Z.of_nat (length pushed)
    then tail pushed else pushed in
  let hp :=
    match player with
    | HUMAN => analyzeHumanPattern experience (humanPatterns er)
    | AI => humanPatterns er
    end in
  mret {| experienceBuffer := buffer; maxBufferSize := maxBufferSize er;
          humanPatterns := hp |}.

(** ** Mutable state

    The engine's methods mutate the session object they looked up in
    [activeGames] and may [throw] at any point; a throw keeps every
    mutation made before it.  [M S A] is the corresponding
    state-and-exception monad. *)

Definition M (S A : Type) : Type := S → Result A * S.

#[global] Instance M_ret {S} : MRet (M S) := λ A a s, (Ok a, s).
#[global] Instance M_bind {S} : MBind (M S) := λ A B f m s,
  match m s with
  | (Ok a, s') => f a s'
  | (Throw e, s') => (Throw e, s')
  end.

Definition throw {S A} (e : Error) : M S A := λ s, (Throw e, s).
Definition gets {S A} (f : S → A) : M S A := λ s, (Ok (f s), s).
Definition modify {S} (f : S → S) : M S unit := λ s, (Ok tt, f s).
Definition lift {S A} (r : Result A) : M S A := λ s, (r, s).

(** ** The engine *)

Record Engine := {
  activeGames : gmap string Game;
  gameStats : GameStats;
  experienceReplay : ExperienceReplay
}.

Definition set_activeGames (m : gmap string Game) (e : Engine) : Engine :=
  {| activeGames := m; gameStats := gameStats e;
     experienceReplay := experienceReplay e |}.
Definition set_experienceReplay (er : ExperienceReplay) (e : Engine) : Engine :=
  {| activeGames := activeGames e; gameStats := gameStats e;
     experienceReplay := er |}.

Definition newEngine : Engine :=
  {| activeGames := ∅;
     gameStats := {| totalGames := 0; humanWins := 0; aiWins := 0;
                     averageGameLength := 0 |};
     experienceReplay := newExperienceReplay |}.

(** A method working on one session object [game] sees that object and the
    engine's statistics.  For the canonical session the object is the one
    stored in [activeGames] (see [on_game]); for a simulation it is a clone
    that is dropped afterwards. *)
Record World := {
  w_game : Game;
  w_stats : GameStats
}.

Definition update_game (f : Game → Game) : M World unit :=
  modify (λ w, {| w_game := f (w_game w); w_stats := w_stats w |}).
Definition update_stats (f : GameStats → GameStats) : M World unit :=
  modify (λ w, {| w_game := w_game w; w_stats := f (w_stats w) |}).

(** [game.board[p[0]][p[1]] = v] *)
Definition write (p : Pos) (v : Cell) : M World unit :=
  g ← gets w_game;
  b ← lift (write_cell (board g) p v);
  update_game (set_board b).

(** Run a method on the session stored under [gameId].  The session is
    shared by reference, so whatever the method did to it is in the store
    afterwards, whether the method returned or threw. *)
Definition on_game {A} (gameId : string) (game : Game) (m : M World A)
  : M Engine A := λ e,
  let '(r, w) := m {| w_game := game; w_stats := gameStats e |} in
  (r, {| activeGames := <[gameId := w_game w]> (activeGames e);
         gameStats := w_stats w;
         experienceReplay := experienceReplay e |}).

(** [this.experienceReplay.recordMove(gameId, player, move, game.board)] *)
Definition notifyRecorder (gameId : string) (player : Player) (move : Pos)
    (b : Board) : M Engine unit :=
  er ← gets experienceReplay;
  er' ← lift (recordMove gameId player move b er);
  modify (set_experienceReplay er').

Definition newGame (gameId playerId : string) : Game :=
  {| id := gameId; playerId := playerId; board := initializeBoard;
     humanPos := None; aiPos := None; currentPlayer := HUMAN;
     gamePhase := starting; moveHistory := []; winner := None;
     isSimulation := false |}.

(** [createGame(playerId)]; the fresh uuid is an argument. *)
Definition createGame (gameId playerId : string) : M Engine Game :=
  let game := newGame gameId playerId in
  modify (λ e, set_activeGames (<[gameId := game]> (activeGames e)) e);;
  mret game.

(** [getValidMoves(board, pos)] with a nullable [pos]: reading [pos[0]] of
    [null] is a TypeError. *)
Definition validMovesOf {S} (b : Board) (pos : option Pos) : M S (list Pos) :=
  match pos with
  | Some p => lift (getValidMoves b p)
  | None => throw TypeError
  end.

(** [endGame(game, winner)].  The hand-over of the finished game to the
    recorder ([recordGame], not awaited) and the write of the statistics
    file are left out: they touch files and the pattern tables only. *)
Definition endGame (winner' : Player) : M World unit :=
  update_game (set_gamePhase ended);;
  update_game (set_winner (Some winner'));;
  g ← gets w_game;
  if isSimulation g then mret tt
  else
    update_stats (λ st,
      {| totalGames := totalGames st + 1; humanWins := humanWins st;
         aiWins := aiWins st; averageGameLength := averageGameLength st |});;
    update_stats (λ st,
      match winner' with
      | HUMAN =>
        {| totalGames := totalGames st; humanWins := humanWins st + 1;
           aiWins := aiWins st; averageGameLength := averageGameLength st |}
      | AI =>
        {| totalGames := totalGames st; humanWins := humanWins st;
           aiWins := aiWins st + 1; averageGameLength := averageGameLength st |}
      end);;
    let gameLength := Z.of_nat (length (moveHistory g)) in
    update_stats (λ st,
      {| totalGames := totalGames st; humanWins := humanWins st;
         aiWins := aiWins st;
         averageGameLength :=
           ((averageGameLength st * inject_Z (totalGames st - 1)
             + inject_Z gameLength) / inject_Z (totalGames st))%Q |}).

Definition checkGameEnd : M World unit :=
  g ← gets w_game;
  humanMoves ← validMovesOf (board g) (humanPos g);
  aiMoves ← validMovesOf (board g) (aiPos g);
  if bool_decide (length humanMoves = 0%nat) then endGame AI
  else if bool_decide (length aiMoves = 0%nat) then endGame HUMAN
  else mret tt.

Definition checkGameEndSimulation : M World unit :=
  g ← gets w_game;
  humanMoves ← validMovesOf (board g) (humanPos g);
  aiMoves ← validMovesOf (board g) (aiPos g);
  if bool_decide (length humanMoves = 0%nat) then
    update_game (set_gamePhase ended);; update_game (set_winner (Some AI))
  else if bool_decide (length aiMoves = 0%nat) then
    update_game (set_gamePhase ended);; update_game (set_winner (Some HUMAN))
  else mret tt.

Definition movePlayer (player : Player) (newPos : Pos) (isSim : bool)
  : M World unit :=
  g ← gets w_game;
  let oldPos := match player with HUMAN => humanPos g | AI => aiPos g end in
  match oldPos with
  | Some p => write p BLOCKED
  | None => mret tt
  end;;
  write newPos (Mark player);;
  update_game (match player with
               | HUMAN => set_humanPos (Some newPos)
               | AI => set_aiPos (Some newPos)
               end);;
  update_game (λ g,
    set_moveHistory
      (moveHistory g ++ [ {| mr_player := player; mr_from := oldPos;
                             mr_to := newPos; mr_board := board g |} ]) g);;
  if isSim then checkGameEndSimulation else checkGameEnd.

(** [{...game, id: 'sim_...', board: deep copy, ..., isSimulation: true}] *)
Definition cloneGame (game : Game) : Game :=
  {| id := "sim"; playerId := playerId game; board := board game;
     humanPos := humanPos game; aiPos := aiPos game;
     currentPlayer := currentPlayer game; gamePhase := gamePhase game;
     moveHistory := moveHistory game; winner := winner game;
     isSimulation := true |}.

(** ** Numbers *)

(** What the evaluator and the selection do with a score: they take it from
    an integer, add, divide and compare with [>]; [<=] is there to state
    ranges.  The two arithmetics to read the code with are the exact one
    and the one JavaScript has. *)
Class Number (T : Type) := {
  numOf : Z → T;             (* an integer literal or counter *)
  numAdd : T → T → T;        (* [a + b] *)
  numDiv : T → T → T;        (* [a / b] *)
  numGt : T → T → bool;      (* [a > b] *)
  numLe : T → T → bool       (* [a <= b] *)
}.

(** Exact rationals. *)
#[global] Instance rational : Number Q := {|
  numOf := inject_Z;
  numAdd := Qplus;
  numDiv := Qdiv;
  numGt a b := negb (Qle_bool a b);
  numLe := Qle_bool
|}.

Definition float_of_Z (z : Z) : PrimFloat.float :=
  if z <? 0 then PrimFloat.opp (PrimFloat.of_uint63 (Uint63.of_Z (- z)))
  else PrimFloat.of_uint63 (Uint63.of_Z z).

(** IEEE 754 binary64, round to nearest even: the numbers of JavaScript. *)
#[global] Instance binary64 : Number PrimFloat.float := {|
  numOf := float_of_Z;
  numAdd := PrimFloat.add;
  numDiv := PrimFloat.div;
  numGt a b := PrimFloat.ltb b a;
  numLe := PrimFloat.leb
|}.

(** A number in [0,1]. *)
Definition in_unit `{Number T} (a : T) : Prop :=
  numLe (numOf 0) a && numLe a (numOf 1) = true.

(** The greatest count of evaluations the statements about the selection
    go up to: 2^53, up to which a double holds every integer, so that the
    counters of the code, which are doubles, are the integers they are
    here. *)
Definition countLimit : Z := 2 ^ 53.

(** What the statements about the selection need of an arithmetic.
    [isScore] picks out the numbers a selection meets, sums and means of
    evaluations in [0,1]: every number of [0,1] is one, a sum of two is
    one, and so is the quotient of one by a count up to [countLimit].  On
    them [>] is a strict order in which incomparable numbers are equal, and
    none is below 0.  Exact rationals and binary64 both have these laws
    ([rational_laws], [binary64_laws]); in binary64 the scores are the
    numbers that are neither NaN nor negative. *)
Class NumberLaws (T : Type) `{Number T} := {
  isScore : T → Prop;
  isScore_0 : isScore (numOf 0);
  isScore_unit a : in_unit a → isScore a;
  isScore_add a b : isScore a → isScore b → isScore (numAdd a b);
  isScore_div a n :
    isScore a → 0 < n ≤ countLimit → isScore (numDiv a (numOf n));
  isScore_nonneg a : isScore a → numGt (numOf 0) a = false;
  numGt_irrefl a : numGt a a = false;
  numGt_trans a b c :
    isScore a → isScore b → isScore c →
    numGt a b = true → numGt b c = true → numGt a c = true;
  numGt_false_trans a b c :
    isScore a → isScore b → isScore c →
    numGt a b = false → numGt b c = false → numGt a c = false
}.

(** The numbers the heuristic evaluation can return are in [0,1]: a side
    has at most eight moves. *)
Class UnitQuotients (T : Type) `{Number T} : Prop := {
  in_unit_0 : in_unit (numOf 0);
  in_unit_1 : in_unit (numOf 1);
  in_unit_quotient a h :
    0 < a ≤ 8 → 0 < h ≤ 8 → in_unit (numDiv (numOf a) (numOf (h + a)))
}.

(** ** Position evaluator *)

(** The two scans of [heuristicEvaluation] for the markers; the last match
    in row-major order wins, as each match overwrites the variable. *)
Definition findMarkers (b : Board) : Result (option Pos * option Pos) :=
  foldl (λ (acc : Result (option Pos * option Pos)) (p : Pos),
           found ← acc;
           c ← read_cell b p.1 p.2;
           mret (if bool_decide (c = Some (Mark HUMAN)) then Some p else found.1,
                 if bool_decide (c = Some (Mark AI)) then Some p else found.2))
        (Ok (None, None)) allCells.

(** [if (pos) n = this.getValidMoves(board, pos).length], [n] being 0
    before. *)
Definition countMoves (b : Board) (pos : option Pos) : Result Z :=
  match pos with
  | Some p => moves ← getValidMoves b p; mret (Z.of_nat (length moves))
  | None => mret 0
  end.

Definition heuristicEvaluation `{Number T} (b : Board) : Result T :=
  found ← findMarkers b;
  humanMoves ← countMoves b found.1;
  aiMoves ← countMoves b found.2;
  if aiMoves =? 0 then mret (numOf 0)
  else if humanMoves =? 0 then mret (numOf 1)
  else
    let totalMoves := humanMoves + aiMoves in
    mret (numDiv (numOf aiMoves) (numOf totalMoves)).

Record NeuralNetwork := {
  isModelLoaded : bool;
  hasModel : bool            (* [this.model !== null] *)
}.

Definition isLoaded (nn : NeuralNetwork) : bool :=
  isModelLoaded nn && hasModel nn.

(** What the learned model does with one request, as seen through
    [Promise.race] against the 50 ms timer: it answers in time with a
    number, it rejects in time, or the timer fires first. *)
Inductive Learned (T : Type) :=
  | Answered (v : T)
  | Rejected
  | TimerFirst.

Arguments Answered {T} v.
Arguments Rejected {T}.
Arguments TimerFirst {T}.

Definition race {T} (l : Learned T) : Result T :=
  match l with
  | Answered v => Ok v
  | Rejected => Throw NetworkError
  | TimerFirst => Throw NetworkTimeout
  end.

Definition try_catch {A} (body : Result A) (handler : Error → Result A)
  : Result A :=
  match body with
  | Ok a => Ok a
  | Throw e => handler e
  end.

Definition evaluatePosition `{Number T} (nn : NeuralNetwork) (l : Learned T)
    (b : Board) : Result T :=
  if negb (isLoaded nn) then heuristicEvaluation b
  else try_catch (race l) (λ _, heuristicEvaluation b).

(** ** Move selection *)

(** [parseInt(process.env.X) || d]: an unset or unparsable variable gives
    [NaN], which like [0] is falsy. *)
Definition parseIntOr (v : option Z) (d : Z) : Z :=
  match v with
  | Some n => if n =? 0 then d else n
  | None => d
  end.

Record Config := {
  AI_THINKING_TIME : option Z;
  AI_SIMULATIONS : option Z
}.

Definition defaultConfig : Config :=
  {| AI_THINKING_TIME := None; AI_SIMULATIONS := None |}.

(** The local variables of [enhancedMCTS].  The tables are keyed by
    [JSON.stringify(move)], which is one-to-one on pairs of integers; the
    pair itself is the key here.  [reads] counts the readings of the clock
    taken so far for the deadline ([startTime] and the two tests; the
    [Date.now()] that names a clone is not one of them) and [calls] the
    evaluator invocations; they index the oracles. *)
Record Search (T : Type) := {
  scores : gmap Pos T;
  visits : gmap Pos Z;
  simulations : Z;
  reads : nat;
  calls : nat
}.

Arguments Build_Search {T} _ _ _ _ _.
Arguments scores {T} _.
Arguments visits {T} _.
Arguments simulations {T} _.
Arguments reads {T} _.
Arguments calls {T} _.

(** [visits[moveKey] > 0 ? scores[moveKey] / visits[moveKey] : 0] *)
Definition winRate `{Number T} (s : Search T) (move : Pos) : T :=
  let n := default 0 (visits s !! move) in
  if 0 <? n then numDiv (default (numOf 0) (scores s !! move)) (numOf n)
  else numOf 0.

(** One more call of [Date.now()]. *)
Definition tick {T} (s : Search T) : Search T :=
  {| scores := scores s; visits := visits s; simulations := simulations s;
     reads := S (reads s); calls := calls s |}.

(** The final loop: [bestMove = validMoves[0]], [bestScore = 0], replaced on
    a strictly greater win rate.  [None] is [undefined]. *)
Definition keepBetter `{Number T} (s : Search T) (best : option Pos * T)
    (move : Pos) : option Pos * T :=
  if numGt (winRate s move) best.2
  then (Some move, winRate s move) else best.

Definition selectBest `{Number T} (validMoves : list Pos) (s : Search T)
  : option Pos :=
  (foldl (keepBetter s) (head validMoves, numOf 0) validMoves).1.

Section Selection.
Context `{Number T}.
Variable cfg : Config.
(** [clock k] is the [k]-th reading of [Date.now()] taken for the deadline,
    [clock 0] being [startTime]. *)
Variable clock : nat → Z.
Variable nn : NeuralNetwork.
(** [learned k b]: the fate of the [k]-th request to the learned model. *)
Variable learned : nat → Board → Learned T.

Definition timeLimit : Z := parseIntOr (AI_THINKING_TIME cfg) 500.
Definition maxSimulations : Z := parseIntOr (AI_SIMULATIONS cfg) 200.

(** Clone, apply the candidate to the clone, hand back the clone's board. *)
Definition simulate (game : Game) (stats : GameStats) (move : Pos)
  : Result Board :=
  match movePlayer AI move true
          {| w_game := cloneGame game; w_stats := stats |} with
  | (Ok _, w) => Ok (board (w_game w))
  | (Throw e, _) => Throw e
  end.

(** One candidate of the inner [for] loop. *)
Definition visit (game : Game) (stats : GameStats) (move : Pos)
    (s : Search T) : Result (Search T) :=
  b ← simulate game stats move;
  evaluation ← evaluatePosition nn (learned (calls s) b) b;
  mret {| scores := <[move := numAdd (default (numOf 0) (scores s !! move))
                                     evaluation]> (scores s);
          visits := <[move := default 0 (visits s !! move) + 1]> (visits s);
          simulations := simulations s + 1;
          reads := S (reads s);
          calls := S (calls s) |}.

(** The inner [for (const move of validMoves)] with its [break]. *)
Fixpoint round (startTime : Z) (game : Game) (stats : GameStats)
    (moves : list Pos) (s : Search T) : Result (Search T) :=
  match moves with
  | [] => Ok s
  | move :: rest =>
    s1 ← visit game stats move s;
    if timeLimit <=? clock (reads s) - startTime then Ok s1
    else round startTime game stats rest s1
  end.

(** The outer [while]; [None] when [fuel] rounds were not enough. *)
Fixpoint rounds (fuel : nat) (startTime : Z) (game : Game)
    (stats : GameStats) (validMoves : list Pos) (s : Search T)
  : option (Result (Search T)) :=
  match fuel with
  | O => None
  | S fuel' =>
    let now := clock (reads s) in
    let s0 := tick s in
    if (now - startTime <? timeLimit) && (simulations s <? maxSimulations)
    then
      match round startTime game stats validMoves s0 with
      | Throw e => Some (Throw e)
      | Ok s1 =>
        if maxSimulations <=? simulations s1 then Some (Ok s1)
        else rounds fuel' startTime game stats validMoves s1
      end
    else Some (Ok s0)
  end.

Definition initSearch (validMoves : list Pos) : Search T :=
  {| scores := foldl (λ m move, <[move := numOf 0]> m) ∅ validMoves;
     visits := foldl (λ m move, <[move := 0]> m) ∅ validMoves;
     simulations := 0;
     reads := 1;
     calls := 0 |}.

(** The sampling part of [enhancedMCTS]: the state of the tables when the
    [while] loop is left. *)
Definition sample (fuel : nat) (game : Game) (stats : GameStats)
    (validMoves : list Pos) : option (Result (Search T)) :=
  rounds fuel (clock 0) game stats validMoves (initSearch validMoves).

Definition enhancedMCTS (fuel : nat) (game : Game) (stats : GameStats)
    (validMoves : list Pos) : option (Result (option Pos)) :=
  match sample fuel game stats validMoves with
  | None => None
  | Some (Throw e) => Some (Throw e)
  | Some (Ok s) => Some (Ok (selectBest validMoves s))
  end.
End Selection.

(** ** Session lifecycle *)

Definition center : Pos := (BOARD_SIZE / 2, BOARD_SIZE / 2).

(** [placeStartingPosition(gameId, row, col)].  [rnd] is the value of
    [Math.random()] should the centre be taken. *)
Definition placeStartingPosition (rnd : Q) (gameId : string) (row col : Z)
  : M Engine Game :=
  found ← gets (λ e, activeGames e !! gameId);
  match found with
  | None => throw InvalidGameState
  | Some game =>
    if negb (bool_decide (gamePhase game = starting)) then throw InvalidGameState
    else
      c ← lift (read_cell (board game) row col);
      if negb (bool_decide (c = Some EMPTY)) then throw PositionOccupied
      else
        on_game gameId game (
          write (row, col) (Mark HUMAN);;
          update_game (set_humanPos (Some (row, col)));;
          g ← gets w_game;
          atCenter ← lift (read_cell (board g) center.1 center.2);
          (if bool_decide (atCenter = Some EMPTY) then
             write center (Mark AI);;
             update_game (set_aiPos (Some center))
           else
             adjacentMoves ← lift (getValidMoves (board g) center);
             if bool_decide (0 < length adjacentMoves)%nat then
               let i := Qfloor (rnd * inject_Z (Z.of_nat (length adjacentMoves))) in
               match (if 0 <=? i then adjacentMoves !! Z.to_nat i else None) with
               | None => throw TypeError
               | Some randomMove =>
                 write randomMove (Mark AI);;
                 update_game (set_aiPos (Some randomMove))
               end
             else mret tt);;
          update_game (set_gamePhase playing);;
          update_game (set_currentPlayer HUMAN);;
          gets w_game)
  end.

Definition makeHumanMove (gameId : string) (row col : Z) : M Engine Game :=
  found ← gets (λ e, activeGames e !! gameId);
  match found with
  | None => throw InvalidMove
  | Some game =>
    if negb (bool_decide (gamePhase game = playing))
       || negb (bool_decide (currentPlayer game = HUMAN))
    then throw InvalidMove
    else
      validMoves ← validMovesOf (board game) (humanPos game);
      if negb (existsb (λ move : Pos, (move.1 =? row) && (move.2 =? col)) validMoves)
      then throw InvalidMove
      else
        g ← on_game gameId game (
               movePlayer HUMAN (row, col) false;;
               update_game (set_currentPlayer AI);;
               gets w_game);
        notifyRecorder gameId HUMAN (row, col) (board g);;
        mret g
  end.

Section SoftwareMove.
Context `{Number T}.
Variable cfg : Config.
Variable clock : nat → Z.
Variable nn : NeuralNetwork.
Variable learned : nat → Board → Learned T.

(** [makeAIMove(gameId)]; [None] when the search ran out of [fuel].  Were
    [enhancedMCTS] to hand back [undefined], [movePlayer] would block the old
    cell and then fail on [newPos[0]]; that needs an empty candidate list
    and so does not happen ([selectBest_is_Some]). *)
Definition makeAIMove (fuel : nat) (gameId : string) (e : Engine)
  : option (Result Game * Engine) :=
  match activeGames e !! gameId with
  | None => Some (Throw InvalidAIMove, e)
  | Some game =>
    if negb (bool_decide (gamePhase game = playing))
       || negb (bool_decide (currentPlayer game = AI))
    then Some (Throw InvalidAIMove, e)
    else
      match validMovesOf (board game) (aiPos game) e with
      | (Throw err, e1) => Some (Throw err, e1)
      | (Ok validMoves, e1) =>
        if bool_decide (length validMoves = 0%nat) then
          Some (on_game gameId game (endGame HUMAN;; gets w_game) e1)
        else
          match enhancedMCTS cfg clock nn learned fuel game (gameStats e1)
                             validMoves with
          | None => None
          | Some (Throw err) => Some (Throw err, e1)
          | Some (Ok None) =>
            Some (on_game gameId game (
                    g ← gets w_game;
                    match aiPos g with
                    | Some p => write p BLOCKED
                    | None => mret tt
                    end;;
                    throw TypeError) e1)
          | Some (Ok (Some bestMove)) =>
            Some ((g ← on_game gameId game (
                         movePlayer AI bestMove false;;
                         update_game (set_currentPlayer HUMAN);;
                         gets w_game);
                   notifyRecorder gameId AI bestMove (board g);;
                   mret g) e1)
          end
      end
  end.
End SoftwareMove.

(** The backward scan of [undoLastMove] for the last record whose player is
    the human: indices [i-1], [i-2], ..., [0]. *)
Fixpoint lastHumanMoveIndex (h : list MoveRecord) (i : nat) : option nat :=
  match i with
  | O => None
  | S j =>
    match h !! j with
    | Some r => if bool_decide (mr_player r = HUMAN) then Some j
                else lastHumanMoveIndex h j
    | None => lastHumanMoveIndex h j
    end
  end.

(** [Array.prototype.pop]: drops the last element, does nothing on []. *)
Definition pop {A} (l : list A) : list A := take (length l - 1) l.
#[global] Arguments pop : simpl never.

Definition undoLastMove (gameId : string) : M Engine Game :=
  found ← gets (λ e, activeGames e !! gameId);
  match found with
  | None => throw GameNotFound
  | Some game =>
    if bool_decide (gamePhase game = ended) then throw CannotUndoEnded
    else if bool_decide (length (moveHistory game) = 0%nat) then throw NoMovesToUndo
    else
      match lastHumanMoveIndex (moveHistory game) (length (moveHistory game)) with
      | None => throw NoHumanMovesToUndo
      | Some idx =>
        match moveHistory game !! idx with
        | None => throw TypeError
        | Some lastHumanMove =>
          let movesToRemove := (length (moveHistory game) - idx)%nat in
          on_game gameId game (
            update_game (λ g, set_moveHistory
                                (Nat.iter movesToRemove pop (moveHistory g)) g);;
            update_game (λ g, set_moveHistory (pop (moveHistory g)) g);;
            g ← gets w_game;
            (if bool_decide (length (moveHistory g) = 0%nat) then
               update_game (set_gamePhase starting);;
               update_game (set_currentPlayer HUMAN);;
               update_game (set_humanPos None);;
               update_game (set_aiPos None);;
               update_game (set_winner None);;
               update_game (set_board initializeBoard)
             else
               write (mr_to lastHumanMove) EMPTY;;
               match mr_from lastHumanMove with
               | Some from => write from (Mark (mr_player lastHumanMove))
               | None => mret tt
               end;;
               update_game (set_humanPos (mr_from lastHumanMove));;
               update_game (set_currentPlayer HUMAN));;
            gets w_game)
        end
      end
  end.

(** [resetStats()], without the file it writes. *)
Definition resetStats : M Engine GameStats :=
  let zero := {| totalGames := 0; humanWins := 0; aiWins := 0;
                 averageGameLength := 0 |} in
  modify (λ e, {| activeGames := activeGames e; gameStats := zero;
                  experienceReplay := experienceReplay e |});;
  mret zero.

(** ** Vocabulary of the statements *)

Definition opponent (p : Player) : Player :=
  match p with HUMAN => AI | AI => HUMAN end.

Definition positionOf (g : Game) (p : Player) : option Pos :=
  match p with HUMAN => humanPos g | AI => aiPos g end.

(** The legal moves of a side from where it stands. *)
Definition legalMovesOf (g : Game) (p : Player) : list Pos :=
  match positionOf g p with
  | Some pos => legalCells (board g) pos
  | None => []
  end.

(** What [movePlayer] has done to the session when it reaches its end-of-game
    check. *)
Definition applyMove (player : Player) (newPos : Pos) (g : Game) : Game :=
  let oldPos := positionOf g player in
  let b1 := match oldPos with
            | Some p => set_cell (board g) p BLOCKED
            | None => board g
            end in
  let b2 := set_cell b1 newPos (Mark player) in
  {| id := id g; playerId := playerId g; board := b2;
     humanPos := match player with HUMAN => Some newPos | AI => humanPos g end;
     aiPos := match player with HUMAN => aiPos g | AI => Some newPos end;
     currentPlayer := currentPlayer g; gamePhase := gamePhase g;
     moveHistory :=
       moveHistory g ++ [ {| mr_player := player; mr_from := oldPos;
                             mr_to := newPos; mr_board := b2 |} ];
     winner := winner g; isSimulation := isSimulation g |}.

(** The session after [checkGameEnd] or [checkGameEndSimulation]. *)
Definition afterCheck (g : Game) (hp ap : Pos) : Game :=
  if bool_decide (length (legalCells (board g) hp) = 0%nat)
  then set_winner (Some AI) (set_gamePhase ended g)
  else if bool_decide (length (legalCells (board g) ap) = 0%nat)
  then set_winner (Some HUMAN) (set_gamePhase ended g)
  else g.

(** The tables after one more evaluation [r] of [move]. *)
Definition credited `{Number T} (move : Pos) (r : T) (s : Search T)
  : Search T :=
  {| scores := <[move := numAdd (default (numOf 0) (scores s !! move)) r]>
                 (scores s);
     visits := <[move := default 0 (visits s !! move) + 1]> (visits s);
     simulations := simulations s + 1;
     reads := S (reads s);
     calls := S (calls s) |}.


(** The sum of [k] evaluations [c], as the loop accumulates it from 0. *)
Definition repeated `{Number T} (c : T) (k : nat) : T :=
  Nat.iter k (λ sum, numAdd sum c) (numOf 0).

(** With an evaluator that always answers [c], every sum is [c] added up
    as many times as the candidate was visited. *)
Definition tables_constant `{Number T} (c : T) (s : Search T) : Prop :=
  ∀ m : Pos,
    default (numOf 0) (scores s !! m)
    = repeated c (Z.to_nat (default 0 (visits s !! m)))
    ∧ 0 ≤ default 0 (visits s !! m).

(** Every candidate has been evaluated as often as [first], or not at
    all. *)
Definition evenly_visited {T} (first : Pos) (validMoves : list Pos)
    (s : Search T) : Prop :=
  Forall (λ m, default 0 (visits s !! m) = default 0 (visits s !! first)
               ∨ default 0 (visits s !! m) = 0) validMoves.

#[global] Instance evenly_visited_dec {T} first validMoves (s : Search T) :
  Decision (evenly_visited first validMoves s).
Proof. unfold evenly_visited. apply _. Defined.

(** The termination rule as the specification words it, for a session [g]
    reached by a move of [mover]. *)
Definition ends_iff_next_side_stuck (mover : Player) (g : Game) : Prop :=
  (gamePhase g = ended ↔ legalMovesOf g (opponent mover) = [])
  ∧ (gamePhase g = ended → winner g = Some mover).

(** The termination rule of [checkGameEnd], which looks at the human
    first. *)
Definition ends_iff_a_side_stuck (g : Game) : Prop :=
  (gamePhase g = ended ↔
     legalMovesOf g HUMAN = [] ∨ legalMovesOf g AI = [])
  ∧ (legalMovesOf g HUMAN = [] → winner g = Some AI)
  ∧ (legalMovesOf g AI = [] → legalMovesOf g HUMAN ≠ [] →
     winner g = Some HUMAN).

(** ** Concrete sessions

    Sessions obtained by running the engine, used to evaluate the code on
    explicit inputs. *)

(** The engine after a call, and the session it holds under an identifier. *)
Definition after {A} (m : M Engine A) (e : Engine) : Engine := (m e).2.

(** The learned model is not loaded: every evaluation is the heuristic. *)
Definition notLoaded : NeuralNetwork :=
  {| isModelLoaded := false; hasModel := false |}.

Definition noAnswer {T} : nat → Board → Learned T := λ _ _, TimerFirst.

(** A clock on which the deadline has passed at the first test of the
    [while] condition, and one that advances by a millisecond from one
    reading to the next. *)
Definition expiredClock : nat → Z := λ k, 1000 * Z.of_nat k.
Definition steadyClock : nat → Z := λ k, Z.of_nat k.

(** The software agent's move with the deadline already over: no round is
    run and [validMoves[0]] is taken. *)
Definition afterQuickAIMove (gameId : string) (e : Engine) : Engine :=
  match makeAIMove (T := PrimFloat.float) defaultConfig expiredClock
          notLoaded noAnswer 1 gameId e with
  | Some (_, e') => e'
  | None => e
  end.

(** Human starts in the corner (0,0); the software agent gets the centre. *)
Definition placedEngine : Engine :=
  after (placeStartingPosition 0 "g" 0 0)
        (after (createGame "g" "p") newEngine).

(** ... then the human moves to (1,1) ... *)
Definition humanMovedEngine : Engine :=
  after (makeHumanMove "g" 1 1) placedEngine.

(** ... and the software agent answers. *)
Definition bothMovedEngine : Engine := afterQuickAIMove "g" humanMovedEngine.

(** The human walks (1,0), (1,1), (0,1) and is about to step into the
    corner (0,0), all of whose neighbours it has blocked itself. *)
Definition beforeCornerEngine : Engine :=
  afterQuickAIMove "g"
    (after (makeHumanMove "g" 0 1)
       (afterQuickAIMove "g"
          (after (makeHumanMove "g" 1 1)
             (after (placeStartingPosition 0 "g" 1 0)
                (after (createGame "g" "p") newEngine))))).

(** Human starts at (2,2), next to the centre, and moves to (1,1): the
    software agent at the centre then has seven legal moves. *)
Definition sevenMovesEngine : Engine :=
  after (makeHumanMove "g" 1 1)
    (after (placeStartingPosition 0 "g" 2 2)
       (after (createGame "g" "p") newEngine)).

(** The session an engine holds under an identifier ([getGame]); a fresh
    session stands in where there is none. *)
Definition sessionOf (e : Engine) (gameId : string) : Game :=
  default (newGame gameId "") (activeGames e !! gameId).

Definition sevenMovesGame : Game := sessionOf sevenMovesEngine "g".

Definition sevenMoves : list Pos :=
  legalMovesOf sevenMovesGame AI.

(** Human (0,0) to (1,1), software agent (3,3) to (2,3), human to (1,2),
    software agent to (1,3). *)
Definition fourMovesEngine : Engine :=
  afterQuickAIMove "g" (after (makeHumanMove "g" 1 2) bothMovedEngine).

(** A loaded model that answers every request in time with the same
    number: seven tenths as the arithmetic has it. *)
Definition loadedModel : NeuralNetwork :=
  {| isModelLoaded := true; hasModel := true |}.
Definition always {T} (c : T) : nat → Board → Learned T := λ _ _, Answered c.
Definition sevenTenths `{Number T} : T := numDiv (numOf 7) (numOf 10).



(** Human starts at (2,2); the software agent stands at the centre (3,3). *)
Definition nextToCentreEngine : Engine :=
  after (placeStartingPosition 0 "g" 2 2)
    (after (createGame "g" "p") newEngine).

(** ** Sessions the engine can hold

    [reachable e]: the engine state [e] arises from an engine without
    sessions by calls of the lifecycle methods (failed calls included), by
    resets of the statistics and by evictions ([cleanupOldGames]).
    [Math.random()] yields a number in [0,1). *)

Inductive reachable : Engine → Prop :=
  | reach_init st er :
      reachable {| activeGames := ∅; gameStats := st; experienceReplay := er |}
  | reach_createGame e gameId playerId :
      reachable e → reachable (after (createGame gameId playerId) e)
  | reach_placeStartingPosition e rnd gameId row col :
      reachable e → (0 <= rnd)%Q → (rnd < 1)%Q →
      reachable (after (placeStartingPosition rnd gameId row col) e)
  | reach_makeHumanMove e gameId row col :
      reachable e → reachable (after (makeHumanMove gameId row col) e)
  | reach_makeAIMove e T (num : Number T) cfg clock nn
        (learned : nat → Board → Learned T) fuel gameId r e' :
      reachable e →
      makeAIMove cfg clock nn learned fuel gameId e = Some (r, e') →
      reachable e'
  | reach_undoLastMove e gameId :
      reachable e → reachable (after (undoLastMove gameId) e)
  | reach_resetStats e :
      reachable e → reachable (after resetStats e)
  | reach_evict e gameId :
      reachable e →
      reachable (set_activeGames (delete gameId (activeGames e)) e).

(** What holds of every session of a reachable engine. *)
Definition record_inv (r : MoveRecord) : Prop :=
  valid (mr_to r) ∧ ∃ from, mr_from r = Some from ∧ valid from.

Definition game_inv (g : Game) : Prop :=
  wf_board (board g)
  ∧ Forall record_inv (moveHistory g)
  ∧ match gamePhase g with
    | starting => board g = initializeBoard ∧ moveHistory g = []
    | _ => ∃ hp ap, humanPos g = Some hp ∧ aiPos g = Some ap
                    ∧ valid hp ∧ valid ap
    end.

Definition engine_inv (e : Engine) : Prop :=
  ∀ gameId g, activeGames e !! gameId = Some g → game_inv g.

(** What a lifecycle method leaves behind: the invariant holds again, and
    a call that threw has changed nothing (nor has it left the grid). *)
Definition settled (e : Engine) {A} (r : Result A) (e' : Engine) : Prop :=
  engine_inv e' ∧ ∀ err, r = Throw err → e' = e ∧ err ≠ OutsideGrid.

(** ** More of the engine *)

(** [getGame(gameId)]; [None] is [undefined]. *)
Definition getGame (gameId : string) (e : Engine) : option Game :=
  activeGames e !! gameId.

(** ** Vocabulary of the further statements *)

(** The statistics after [endGame] has counted a game of [gameLength]
    records won by [winner']. *)
Definition countGame (winner' : Player) (gameLength : Z) (st : GameStats)
  : GameStats :=
  {| totalGames := totalGames st + 1;
     humanWins := match winner' with
                  | HUMAN => humanWins st + 1 | AI => humanWins st
                  end;
     aiWins := match winner' with
               | HUMAN => aiWins st | AI => aiWins st + 1
               end;
     averageGameLength :=
       ((averageGameLength st * inject_Z (totalGames st + 1 - 1)
         + inject_Z gameLength) / inject_Z (totalGames st + 1))%Q |}.

(** The statistics after a committed move that has led to the session
    [g]: the game is counted when the move has ended it. *)
Definition statsAfter (g : Game) (st : GameStats) : GameStats :=
  match gamePhase g, winner g, isSimulation g with
  | ended, Some w, false => countGame w (Z.of_nat (length (moveHistory g))) st
  | _, _, _ => st
  end.

(** The session once the two sides stand on the empty board. *)
Definition placed (hp ap : Pos) (g : Game) : Game :=
  {| id := id g; playerId := playerId g;
     board := set_cell (set_cell initializeBoard hp (Mark HUMAN)) ap (Mark AI);
     humanPos := Some hp; aiPos := Some ap; currentPlayer := HUMAN;
     gamePhase := playing; moveHistory := moveHistory g; winner := winner g;
     isSimulation := isSimulation g |}.

(** The session after an undo that has emptied the history, and after one
    that has taken the record [m], found at index [idx], back to [from]. *)
Definition resetGame (g : Game) : Game :=
  {| id := id g; playerId := playerId g; board := initializeBoard;
     humanPos := None; aiPos := None; currentPlayer := HUMAN;
     gamePhase := starting; moveHistory := []; winner := None;
     isSimulation := isSimulation g |}.

Definition takenBack (idx : nat) (m : MoveRecord) (from : Pos) (g : Game)
  : Game :=
  {| id := id g; playerId := playerId g;
     board := set_cell (set_cell (board g) (mr_to m) EMPTY) from
                       (Mark (mr_player m));
     humanPos := Some from; aiPos := aiPos g; currentPlayer := HUMAN;
     gamePhase := gamePhase g; moveHistory := take (idx - 1) (moveHistory g);
     winner := winner g; isSimulation := isSimulation g |}.

(** The engine with the session [g] stored under [gameId]. *)
Definition withSession (gameId : string) (g : Game) (st : GameStats)
    (er : ExperienceReplay) (e : Engine) : Engine :=
  {| activeGames := <[gameId := g]> (activeGames e); gameStats := st;
     experienceReplay := er |}.

(** A record whose two cells are neighbours. *)
Definition step_record (r : MoveRecord) : Prop :=
  ∃ from, mr_from r = Some from ∧ chebyshev from (mr_to r) = 1.

(** What holds, beside [game_inv], of every session of a reachable engine:
    it is no simulation, its records are steps to a neighbouring cell, the
    first of them is the human's, the human is to act while there is none,
    and in the Playing phase the side to act has a legal move. *)
Definition play_inv (g : Game) : Prop :=
  isSimulation g = false
  ∧ Forall step_record (moveHistory g)
  ∧ (∀ r, head (moveHistory g) = Some r → mr_player r = HUMAN)
  ∧ (moveHistory g = [] → currentPlayer g = HUMAN)
  ∧ (gamePhase g = playing → legalMovesOf g (currentPlayer g) ≠ []).

Definition engine_play_inv (e : Engine) : Prop :=
  ∀ gameId g, activeGames e !! gameId = Some g → play_inv g.

(** A program on the engine that leaves the session stored under [other]
    as it is, whether it returns or throws. *)
Definition keeps (other : string) {A} (m : M Engine A) : Prop :=
  ∀ e, activeGames (m e).2 !! other = activeGames e !! other.

(** ** The learned model ([NeuralNetwork]) *)

(** The [switch] of [boardToTensor]: [value] stays 0 for whatever is none
    of the four characters, [undefined] included. *)
Definition cellValue (c : option Cell) : Z :=
  match c with
  | Some EMPTY => 0
  | Some BLOCKED => 1
  | Some (Mark HUMAN) => 2
  | Some (Mark AI) => 3
  | None => 0
  end.

(** The nested loops of [boardToTensor]: the array [flattened], cell by
    cell in row-major order; a TypeError where a row is missing. *)
Definition flatten (b : Board) : Result (list Z) :=
  foldl (λ (acc : Result (list Z)) (p : Pos),
           l ← acc;
           c ← read_cell b p.1 p.2;
           mret (l ++ [cellValue c]))
        (Ok []) allCells.

(** The array [flattened.map(x => x / 3)] that [boardToTensor] hands to
    [tf.tensor2d]. *)
Definition boardToTensor `{Number T} (b : Board) : Result (list T) :=
  flattened ← flatten b;
  Ok (fmap (M := list) (λ x, numDiv (numOf x) (numOf 3)) flattened).

Module Network.
(** [evaluatePosition(board)] of the network.  [rnd] is the value of
    [Math.random()]; [predict] stands for what the [try] block does with
    the input once it is built: [model.predict], the read of the first
    element of its data and the disposal of the tensors, any of which may
    throw. *)
Definition evaluatePosition `{Number T} (nn : NeuralNetwork) (rnd : T)
    (predict : list T → Result T) (b : Board) : Result T :=
  if negb (isModelLoaded nn) || negb (hasModel nn) then mret rnd
  else try_catch (input ← boardToTensor b; predict input)
                 (λ _, mret (numDiv (numOf 1) (numOf 2))).
End Network.

(** The request that [GameEngine.evaluatePosition] makes to the network, as
    [Promise.race] sees it: the 50 ms timer fires first, or the network's
    promise has settled with what [Network.evaluatePosition] returns. *)
Definition request `{Number T} (nn : NeuralNetwork) (rnd : T)
    (predict : list T → Result T) (timerFirst : bool) (b : Board)
  : Learned T :=
  if timerFirst then TimerFirst
  else match Network.evaluatePosition nn rnd predict b with
       | Ok v => Answered v
       | Throw _ => Rejected
       end.

(** ** More of the experience recorder *)

(** [Array.prototype.sort((a, b) => b[1] - a[1])]: the entries by
    descending count, entries of equal count in the order they had (the
    sort is stable).  Inserting from the right, each entry before the first
    one whose count is not greater, is such a sort. *)
Fixpoint insertByCount (x : string * Z) (l : list (string * Z))
  : list (string * Z) :=
  match l with
  | [] => [x]
  | y :: rest => if y.2 <=? x.2 then x :: y :: rest
                 else y :: insertByCount x rest
  end.

Definition sortByCount (entries : list (string * Z)) : list (string * Z) :=
  foldr insertByCount [] entries.

(** [array.slice(0, limit)]; a negative [limit] counts from the end. *)
Definition slice0 {A} (limit : Z) (l : list A) : list A :=
  if 0 <=? limit then take (Z.to_nat limit) l
  else take (length l - Z.to_nat (- limit)) l.

(** [getTopPatterns(patternMap, limit)], on the entries of the map in
    their insertion order ([Array.from(patternMap.entries())]). *)
Definition getTopPatterns (entries : list (string * Z)) (limit : Z)
  : list (string * Z) :=
  slice0 limit (sortByCount entries).

(** [Array.from(map.values()).reduce((a, b) => a + b, init)] *)
Definition sumValues (init : Z) (m : gmap string Z) : Z :=
  map_fold (λ _ b a, a + b) init m.

(** [calculateHumanMoveProbability(experience)]; [encodeMovePattern] scans
    the board of the experience for its phase. *)
Definition calculateHumanMoveProbability (x : Experience)
    (hp : HumanPatterns) : Result Q :=
  _ ← determineGamePhase (x_board x);
  let moveKey := encodeMovePattern (x_move x) (x_board x) in
  let frequency := match movePreferences hp !! moveKey with
                   | Some n => if n =? 0 then 1 else n
                   | None => 1
                   end in
  let totalMoves := sumValues 1 (movePreferences hp) in
  mret (inject_Z frequency / inject_Z totalMoves)%Q.

Record TrainingExample := {
  t_board : Board;
  humanMoveProbability : Q;
  t_context : string
}.

(** [generateTrainingData()] *)
Definition generateTrainingData (er : ExperienceReplay)
  : Result (list TrainingExample) :=
  foldl (λ (acc : Result (list TrainingExample)) (x : Experience),
           trainingData ← acc;
           match x_player x with
           | HUMAN =>
             p ← calculateHumanMoveProbability x (humanPatterns er);
             mret (trainingData
                     ++ [ {| t_board := x_board x; humanMoveProbability := p;
                             t_context := x_phase x |} ])
           | AI => mret trainingData
           end)
        (Ok []) (experienceBuffer er).

(** [`${p[0]},${p[1]}`] and [array.join('->')] *)
Definition cellKey (p : Pos) : string := pretty p.1 +:+ "," +:+ pretty p.2.

Definition joinArrow (l : list string) : string :=
  match l with
  | [] => ""
  | s :: rest => foldl (λ acc t, acc +:+ "->" +:+ t) s rest
  end.

Definition set_movePreferences (m : gmap string Z) (hp : HumanPatterns)
  : HumanPatterns :=
  {| startingPositions := startingPositions hp; movePreferences := m;
     trapAttempts := trapAttempts hp; escapePatterns := escapePatterns hp |}.

(** [moves.filter(move => move.player === 'H')] *)
Definition humanMovesOf (moves : list MoveRecord) : list MoveRecord :=
  List.filter (λ m, bool_decide (mr_player m = HUMAN)) moves.

(** [analyzeWinningHumanStrategy(moves)]: one entry for each window of
    three consecutive human moves. *)
Definition analyzeWinningHumanStrategy (moves : list MoveRecord)
    (hp : HumanPatterns) : HumanPatterns :=
  let humanMoves := humanMovesOf moves in
  foldl (λ hp (i : nat),
           let sequence := (λ m, cellKey (mr_to m))
                             <$> take 3 (drop i humanMoves) in
           let key := joinArrow sequence in
           set_movePreferences
             (bump ("winning_sequence_" +:+ key) (movePreferences hp)) hp)
        hp (seq 0 (length humanMoves - 2)).

(** [ledToTrap(move, nextMove)] is a placeholder that returns [true]. *)
Definition ledToTrap (move nextMove : MoveRecord) : bool := true.

(** [analyzeLosingHumanStrategy(moves)] *)
Definition analyzeLosingHumanStrategy (moves : list MoveRecord)
    (hp : HumanPatterns) : HumanPatterns :=
  let humanMoves := humanMovesOf moves in
  foldl (λ hp (i : nat),
           match humanMoves !! i, humanMoves !! S i with
           | Some move, Some nextMove =>
             if ledToTrap move nextMove then
               set_movePreferences
                 (bump ("mistake_" +:+ cellKey (mr_to move))
                       (movePreferences hp)) hp
             else hp
           | _, _ => hp
           end)
        hp (seq 0 (length humanMoves - 1)).

(** What [analyzeGamePatterns(gameData)] does to the pattern tables; the
    occasional write of the tables to a file is left out. *)
Definition analyzeGamePatterns (moves : list MoveRecord)
    (winner' : option Player) (hp : HumanPatterns) : HumanPatterns :=
  match winner' with
  | Some HUMAN => analyzeWinningHumanStrategy moves hp
  | Some AI => analyzeLosingHumanStrategy moves hp
  | None => hp
  end.

(** ** Markers and positions *)

(** A human's record against a board: it leads from a cell that is now
    Blocked to a cell that holds the human's marker or is Blocked. *)
Definition trail_cells (b : Board) (m : MoveRecord) : Prop :=
  mr_player m = HUMAN →
  (∃ from, mr_from m = Some from
           ∧ cell_at b from.1 from.2 = Some BLOCKED)
  ∧ (cell_at b (mr_to m).1 (mr_to m).2 = Some (Mark HUMAN)
     ∨ cell_at b (mr_to m).1 (mr_to m).2 = Some BLOCKED).

(** No record of the human's ends on a cell of an earlier one, or starts
    where an earlier one started. *)
Definition trail_apart (h : list MoveRecord) : Prop :=
  ∀ i j mi mj,
    (i < j)%nat → h !! i = Some mi → h !! j = Some mj →
    mr_player mi = HUMAN → mr_player mj = HUMAN →
    mr_to mj ≠ mr_to mi ∧ Some (mr_to mj) ≠ mr_from mi
    ∧ mr_from mj ≠ mr_from mi.

(** What holds of the markers of every session of a reachable engine once
    it has left the Starting phase: each side's cell holds its marker, and
    the human's records lie on cells that are taken. *)
Definition marks_inv (g : Game) : Prop :=
  gamePhase g ≠ starting →
  (∃ hp ap, humanPos g = Some hp ∧ aiPos g = Some ap
            ∧ cell_at (board g) hp.1 hp.2 = Some (Mark HUMAN)
            ∧ cell_at (board g) ap.1 ap.2 = Some (Mark AI))
  ∧ Forall (trail_cells (board g)) (moveHistory g)
  ∧ trail_apart (moveHistory g).

Definition engine_marks_inv (e : Engine) : Prop :=
  ∀ gameId g, activeGames e !! gameId = Some g → marks_inv g.

(** ** The HTTP handlers ([routes/game.js], [routes/ai.js])

    A handler is a function of the engine; it answers with the payload of
    [res.json] (status 200) or with a status and the reason sent as
    [error].  The session returned by the engine stands for the fields
    copied from it into the payload. *)

(** A field of a request body as the handlers test it: a number that is an
    integer, or something whose [typeof] is not ['number'].  Numbers that
    are not integers are left out. *)
Inductive Arg := Num (z : Z) | NotNumber.

(** [error]: a message of the handler's own, or [error.message] of what
    the engine threw. *)
Inductive Reason := Said (message : string) | Raised (err : Error).

Inductive Response (A : Type) :=
  | Json (payload : A)
  | Status (code : Z) (reason : Reason).
Arguments Json {A} payload.
Arguments Status {A} code reason.

(** [POST /:gameId/start] *)
Definition startRoute (rnd : Q) (gameId : string) (row col : Arg)
    (e : Engine) : Response Game * Engine :=
  match row, col with
  | Num row, Num col =>
    if (row <? 0) || (7 <=? row) || (col <? 0) || (7 <=? col)
    then (Status 400 (Said "Position must be within board bounds (0-6)"), e)
    else
      match placeStartingPosition rnd gameId row col e with
      | (Ok game, e') => (Json game, e')
      | (Throw err, e') => (Status 400 (Raised err), e')
      end
  | _, _ => (Status 400 (Said "Row and col must be numbers"), e)
  end.

(** [POST /:gameId/move]; the payload carries the session and [message]. *)
Definition moveRoute (gameId : string) (row col : Arg) (e : Engine)
  : Response (Game * string) * Engine :=
  match row, col with
  | Num row, Num col =>
    match makeHumanMove gameId row col e with
    | (Ok game, e') =>
      if bool_decide (gamePhase game = ended) then
        (Json (game,
               "Game ended! Winner: "
               +:+ (if bool_decide (winner game = Some HUMAN)
                    then "Human" else "AI")), e')
      else (Json (game, "Human move made. AI turn next."), e')
    | (Throw err, e') => (Status 400 (Raised err), e')
    end
  | _, _ => (Status 400 (Said "Row and col must be numbers"), e)
  end.

(** [POST /:gameId/ai-move]; the payload carries the session and [aiMove],
    the [from] and [to] of the last record of its history.  Reading them
    off an empty history is a TypeError, caught like any other. *)
Definition aiMoveRoute `{Number T} (cfg : Config) (clock : nat → Z)
    (nn : NeuralNetwork) (learned : nat → Board → Learned T) (fuel : nat)
    (gameId : string) (e : Engine)
  : option (Response (Game * (option Pos * Pos)) * Engine) :=
  match getGame gameId e with
  | None => Some (Status 404 (Said "Game not found"), e)
  | Some game =>
    if negb (bool_decide (currentPlayer game = AI))
    then Some (Status 400 (Said "Not AI turn"), e)
    else
      match makeAIMove cfg clock nn learned fuel gameId e with
      | None => None
      | Some (Throw err, e') => Some (Status 400 (Raised err), e')
      | Some (Ok updatedGame, e') =>
        match last (moveHistory updatedGame) with
        | None => Some (Status 400 (Raised TypeError), e')
        | Some m => Some (Json (updatedGame, (mr_from m, mr_to m)), e')
        end
      end
  end.

(** [GET /:gameId/valid-moves] *)
Definition validMovesRoute (gameId : string) (e : Engine)
  : Response (list Pos * Player * Phase) :=
  match getGame gameId e with
  | None => Status 404 (Said "Game not found")
  | Some game =>
    if bool_decide (gamePhase game = playing) then
      let currentPos := match currentPlayer game with
                        | HUMAN => humanPos game
                        | AI => aiPos game
                        end in
      match validMovesOf (board game) currentPos e with
      | (Ok validMoves, _) =>
        Json (validMoves, currentPlayer game, gamePhase game)
      | (Throw err, _) => Status 500 (Raised err)
      end
    else Json ([], currentPlayer game, gamePhase game)
  end.

(** [POST /:gameId/undo] *)
Definition undoRoute (gameId : string) (e : Engine)
  : Response Game * Engine :=
  match getGame gameId e with
  | None => (Status 404 (Said "Game not found"), e)
  | Some game =>
    if bool_decide (gamePhase game = ended)
    then (Status 400 (Said "Cannot undo moves in ended game"), e)
    else if bool_decide (length (moveHistory game) = 0%nat)
    then (Status 400 (Said "No moves to undo"), e)
    else
      match undoLastMove gameId e with
      | (Ok updatedGame, e') => (Json updatedGame, e')
      | (Throw err, e') => (Status 400 (Raised err), e')
      end
  end.

(** [POST /suggest-move] of [routes/ai.js]; [gameId] is [None] when the
    body has none.  The payload is the suggestion ([None] is [null]), the
    valid moves and the side to act.  The search works on clones, so the
    engine is as it was. *)
Definition suggestMoveRoute `{Number T} (cfg : Config) (clock : nat → Z)
    (nn : NeuralNetwork) (learned : nat → Board → Learned T) (fuel : nat)
    (gameId : option string) (e : Engine)
  : option (Response (option Pos * list Pos * Player)) :=
  match gameId with
  | None => Some (Status 400 (Said "Game ID is required"))
  | Some gameId =>
    if bool_decide (gameId = "")
    then Some (Status 400 (Said "Game ID is required"))
    else
      match getGame gameId e with
      | None => Some (Status 404 (Said "Game not found"))
      | Some game =>
        if negb (bool_decide (gamePhase game = playing))
        then Some (Status 400 (Said "Game is not in playing phase"))
        else
          let currentPos := match currentPlayer game with
                            | HUMAN => humanPos game
                            | AI => aiPos game
                            end in
          match validMovesOf (board game) currentPos e with
          | (Throw err, _) => Some (Status 500 (Raised err))
          | (Ok validMoves, _) =>
            if bool_decide (length validMoves = 0%nat)
            then Some (Json (None, [], currentPlayer game))
            else
              match enhancedMCTS cfg clock nn learned fuel game (gameStats e)
                                 validMoves with
              | None => None
              | Some (Throw err) => Some (Status 500 (Raised err))
              | Some (Ok None) => Some (Status 500 (Raised TypeError))
              | Some (Ok (Some bestMove)) =>
                Some (Json (Some bestMove, validMoves, currentPlayer game))
              end
          end
      end
  end.

(** [POST /evaluate] of [routes/ai.js], in exact arithmetic; [board] is
    [None] when the body has no array under that name.  The payload is
    [aiWinProbability], [humanWinProbability] and [confidence]. *)
Definition evaluateRoute (nn : NeuralNetwork) (rnd : Q)
    (predict : list Q → Result Q) (board : option Board)
  : Response (Q * Q * Q) :=
  match board with
  | None => Status 400 (Said "Invalid board format. Expected 7x7 array.")
  | Some b =>
    if negb (bool_decide (length b = 7%nat))
    then Status 400 (Said "Invalid board format. Expected 7x7 array.")
    else
      match Network.evaluatePosition nn rnd predict b with
      | Ok evaluation =>
        Json (evaluation, (1 - evaluation)%Q,
              (Qabs (evaluation - (1 # 2)) * 2)%Q)
      | Throw err => Status 500 (Raised err)
      end
  end.


(** ** The recorder's tables and buffer *)

(** What [generateTrainingData] needs of the recorder: the boards in its
    buffer have the grid's shape, and no count of a move preference is
    negative. *)
Definition recorder_ok (er : ExperienceReplay) : Prop :=
  Forall (λ x, wf_board (x_board x)) (experienceBuffer er)
  ∧ map_Forall (λ _ n, 0 ≤ n) (movePreferences (humanPatterns er)).

(** ** Simulations *)

(** A program on a session and the statistics that, run on a session
    marked as a simulation, leaves the statistics as they are and the mark
    in place, whether it returns or throws. *)
Definition sim_safe {A} (m : M World A) : Prop :=
  ∀ w, isSimulation (w_game w) = true →
       w_stats (m w).2 = w_stats w
       ∧ isSimulation (w_game (m w).2) = true.

(** ** The scores of binary64 *)



(** The scores of exact arithmetic ([isScore] of [rational_laws]): the
    rationals that are not negative. *)
Definition scoreQ (a : Q) : Prop := (0 <= a)%Q.



(** ** Move rules: facts *)

Ltac run_result :=
  unfold mbind, Result_bind, mret, Result_ret in *.

Lemma directions_NoDup : NoDup directions.
Proof. compute_done. Qed.

Lemma elem_of_directions (d : Z * Z) :
  d ∈ directions ↔ Z.max (Z.abs d.1) (Z.abs d.2) = 1.
Proof.
  destruct d as [dx dy]; unfold directions; cbn [fst snd].
  rewrite !elem_of_cons, elem_of_nil. split.
  - intros H. repeat (destruct H as [H|H]; [injection H as -> ->; reflexivity|]).
    destruct H.
  - intros H.
    assert (Hx : dx = -1 ∨ dx = 0 ∨ dx = 1) by lia.
    assert (Hy : dy = -1 ∨ dy = 0 ∨ dy = 1) by lia.
    destruct Hx as [-> | [-> | ->]], Hy as [-> | [-> | ->]];
      try (cbn in H; discriminate H); tauto.
Qed.

Lemma elem_of_legalCells board pos cell :
  cell ∈ legalCells board pos ↔
  chebyshev pos cell = 1 ∧ valid cell
  ∧ cell_at board cell.1 cell.2 = Some EMPTY.
Proof.
  unfold legalCells, valid. rewrite list_elem_of_In, in_flat_map. split.
  - intros (d & Hd & Hin). apply list_elem_of_In, elem_of_directions in Hd.
    unfold emptyNeighbour in Hin. cbn zeta in Hin.
    destruct (isValidPosition _ _) eqn:Hv; cbn [andb] in Hin; [|destruct Hin].
    case_bool_decide as Hc; [|destruct Hin].
    destruct Hin as [<-|[]]. cbn [fst snd]. unfold chebyshev; cbn [fst snd].
    split_and!; [|done..].
    replace (pos.1 + d.1 - pos.1) with d.1 by lia.
    replace (pos.2 + d.2 - pos.2) with d.2 by lia. done.
  - intros (Hd & Hv & Hc). exists (cell.1 - pos.1, cell.2 - pos.2). split.
    + apply list_elem_of_In, elem_of_directions. exact Hd.
    + unfold emptyNeighbour. cbn [fst snd].
      replace (pos.1 + (cell.1 - pos.1)) with cell.1 by lia.
      replace (pos.2 + (cell.2 - pos.2)) with cell.2 by lia.
      rewrite Hv, bool_decide_true by done. destruct cell; left; done.
Qed.

Lemma legalCells_valid board pos :
  Forall valid (legalCells board pos).
Proof. apply Forall_forall. by intros cell (_ & ? & _)%elem_of_legalCells. Qed.

Lemma legalCells_NoDup board pos : NoDup (legalCells board pos).
Proof.
  unfold legalCells.
  assert (H : ∀ ds, NoDup ds →
    NoDup (flat_map (emptyNeighbour board pos) ds)).
  { induction 1 as [|d ds Hd Hnd IH]; cbn [flat_map]; [constructor|].
    unfold emptyNeighbour at 1. cbn zeta. destruct (_ && _); cbn [app]; [|done].
    constructor; [|done].
    rewrite list_elem_of_In, in_flat_map. intros (d' & Hd' & Hin).
    unfold emptyNeighbour in Hin. cbn zeta in Hin.
    destruct (_ && _); [|destruct Hin].
    destruct Hin as [Heq|[]]. apply Hd.
    assert (d = d') as ->; [|by apply list_elem_of_In].
    destruct d, d'; cbn [fst snd] in Heq. injection Heq as ??. f_equal; lia. }
  apply H, directions_NoDup.
Qed.

(** ** Reads and writes against their pure counterparts *)

Lemma isValidPosition_spec r c :
  isValidPosition r c = true ↔ 0 ≤ r < BOARD_SIZE ∧ 0 ≤ c < BOARD_SIZE.
Proof. unfold isValidPosition, BOARD_SIZE. lia. Qed.

(** A read that does not raise yields what [cell_at] finds. *)
Lemma read_cell_Ok b r c x :
  read_cell b r c = Ok x → x = cell_at b r c.
Proof.
  unfold read_cell, row_at, cell_at.
  destruct (0 <=? r); cbn; [|discriminate].
  destruct (b !! Z.to_nat r); cbn; [|discriminate].
  intros [= <-]. by destruct (0 <=? c).
Qed.

(** A write that goes through replaces one cell. *)
Lemma write_cell_Ok b p v b' :
  write_cell b p v = Ok b' →
  b' = set_cell b p v ∧ is_Some (cell_at b p.1 p.2).
Proof.
  unfold write_cell, row_at, set_cell, cell_at. destruct p as [r c]; cbn [fst snd].
  destruct (0 <=? r); cbn; [|discriminate].
  destruct (b !! Z.to_nat r) as [row|] eqn:Hrow; cbn; [|discriminate].
  destruct ((0 <=? c) && (c <? Z.of_nat (length row))) eqn:Hc; [|discriminate].
  intros [= <-]. replace (0 <=? c) with true by lia. split.
  - apply list_eq. intros i. rewrite list_lookup_insert, list_lookup_alter.
    apply lookup_lt_Some in Hrow as Hlt.
    destruct (decide (Z.to_nat r = i)) as [<-|Hne].
    + rewrite decide_True by done. by rewrite Hrow.
    + by rewrite decide_False by tauto.
  - apply lookup_lt_is_Some_2. lia.
Qed.

(** On a board with all its rows a read at an in-bounds position neither
    raises nor yields [undefined], and a write goes through. *)
Lemma cell_at_wf b r c :
  wf_board b → isValidPosition r c = true → is_Some (cell_at b r c).
Proof.
  intros [Hlen Hrows] [Hr Hc]%isValidPosition_spec. unfold cell_at, BOARD_SIZE in *.
  replace ((0 <=? r) && (0 <=? c)) with true by lia.
  destruct (lookup_lt_is_Some_2 b (Z.to_nat r)) as [row Hrow]; [lia|].
  rewrite Hrow; cbn.
  apply lookup_lt_is_Some_2.
  rewrite Forall_forall in Hrows. rewrite (Hrows row); [lia|].
  eapply list_elem_of_lookup_2, Hrow.
Qed.

Lemma read_cell_wf b r c :
  wf_board b → isValidPosition r c = true → read_cell b r c = Ok (cell_at b r c).
Proof.
  intros Hwf Hv. destruct (cell_at_wf b r c Hwf Hv) as [x Hx].
  apply isValidPosition_spec in Hv as [Hr Hc].
  unfold read_cell, row_at, cell_at in *.
  replace (0 <=? r) with true in * by lia.
  replace (0 <=? c) with true in * by lia. cbn in *.
  destruct (b !! Z.to_nat r); [done | discriminate Hx].
Qed.

Lemma write_cell_wf b p v :
  wf_board b → valid p → write_cell b p v = Ok (set_cell b p v).
Proof.
  intros Hwf Hv. pose proof Hwf as [Hlen Hrows]. destruct p as [r c].
  apply isValidPosition_spec in Hv as [Hr Hc]. unfold BOARD_SIZE in *.
  cbn [fst snd] in *.
  destruct (write_cell b (r, c) v) as [b'|err] eqn:Hw.
  - by apply write_cell_Ok in Hw as [-> _].
  - exfalso. revert Hw. unfold write_cell, row_at.
    cbn [fst snd]. replace (0 <=? r) with true by lia.
    destruct (lookup_lt_is_Some_2 b (Z.to_nat r)) as [row Hrow]; [lia|].
    rewrite Hrow. rewrite Forall_forall in Hrows.
    rewrite (Hrows row) by (eapply list_elem_of_lookup_2, Hrow).
    change (Z.of_nat (Z.to_nat 7)) with 7.
    by replace ((0 <=? c) && (c <? 7)) with true by lia.
Qed.

Lemma wf_board_initializeBoard : wf_board initializeBoard.
Proof. compute_done. Qed.

Lemma wf_board_set_cell b p v : wf_board b → wf_board (set_cell b p v).
Proof.
  intros [Hlen Hrows]. unfold set_cell. destruct (_ && _); [|done]. split.
  - by rewrite length_alter.
  - rewrite Forall_forall in *. intros row [i Hi]%list_elem_of_lookup_1.
    destruct (decide (i = Z.to_nat p.1)) as [->|Hne].
    + rewrite list_lookup_alter_eq in Hi.
      destruct (b !! Z.to_nat p.1) as [row0|] eqn:Hrow0; [|discriminate Hi].
      injection Hi as <-. rewrite length_insert. apply Hrows.
      eapply list_elem_of_lookup_2, Hrow0.
    + rewrite list_lookup_alter_ne in Hi by done. apply Hrows.
      eapply list_elem_of_lookup_2, Hi.
Qed.

Lemma cell_at_set_cell_ne b p v r c :
  p ≠ (r, c) → cell_at (set_cell b p v) r c = cell_at b r c.
Proof.
  intros Hne. unfold cell_at, set_cell. destruct p as [pr pc]; cbn [fst snd].
  destruct ((0 <=? r) && (0 <=? c)) eqn:Hrc; [|done].
  destruct ((0 <=? pr) && (0 <=? pc)) eqn:Hp; [|done].
  destruct (decide (Z.to_nat pr = Z.to_nat r)) as [Heq|Hneq].
  - rewrite Heq, list_lookup_alter_eq.
    destruct (b !! Z.to_nat r) as [row|]; cbn; [|done].
    apply list_lookup_insert_ne. intros Hc. apply Hne. f_equal; lia.
  - by rewrite list_lookup_alter_ne.
Qed.

Lemma cell_at_set_cell_eq b p v :
  is_Some (cell_at b p.1 p.2) → cell_at (set_cell b p v) p.1 p.2 = Some v.
Proof.
  unfold cell_at, set_cell. destruct p as [pr pc]; cbn [fst snd].
  destruct ((0 <=? pr) && (0 <=? pc)) eqn:Hp; [|by intros [? [=]]].
  rewrite list_lookup_alter_eq.
  destruct (b !! Z.to_nat pr) as [row|]; cbn; [|by intros [? [=]]].
  intros Hsome. apply list_lookup_insert_eq. by apply lookup_lt_is_Some_1.
Qed.

Lemma cell_at_Some_valid b r c x :
  wf_board b → cell_at b r c = Some x → isValidPosition r c = true.
Proof.
  intros [Hlen Hrows]. unfold cell_at.
  destruct ((0 <=? r) && (0 <=? c)) eqn:Hrc; [|done].
  destruct (b !! Z.to_nat r) as [row|] eqn:Hrow; cbn; [|done].
  intros Hc. apply isValidPosition_spec. unfold BOARD_SIZE in *.
  apply lookup_lt_Some in Hrow as Hr, Hc as Hc'.
  rewrite Forall_forall in Hrows.
  rewrite (Hrows row) in Hc' by (eapply list_elem_of_lookup_2, Hrow). lia.
Qed.

(** ** [getValidMoves] and [legalCells] *)

Section ValidMoves.
Variable board : Board.
Variable pos : Pos.

Lemma scan_Throw ds e : foldl (tryDirection board pos) (Throw e) ds = Throw e.
Proof. induction ds as [|d ds IH]; [done|]. cbn. apply IH. Qed.

Lemma scan_Ok ds acc l :
  foldl (tryDirection board pos) (Ok acc) ds = Ok l →
  l = acc ++ flat_map (emptyNeighbour board pos) ds.
Proof.
  revert acc. induction ds as [|d ds IH]; intros acc; cbn [foldl flat_map].
  - intros [= <-]. by rewrite app_nil_r.
  - unfold tryDirection at 2, emptyNeighbour at 1. run_result. cbn zeta.
    destruct (isValidPosition _ _) eqn:Hv; cbn [andb].
    + destruct (read_cell _ _ _) as [c|err] eqn:Hread;
        [|by rewrite scan_Throw].
      apply read_cell_Ok in Hread as ->.
      case_bool_decide; intros ->%IH; by rewrite <- ?app_assoc.
    + intros ->%IH. done.
Qed.

Lemma scan_wf ds acc :
  wf_board board →
  foldl (tryDirection board pos) (Ok acc) ds
  = Ok (acc ++ flat_map (emptyNeighbour board pos) ds).
Proof.
  intros Hwf. revert acc.
  induction ds as [|d ds IH]; intros acc; cbn [foldl flat_map].
  - by rewrite app_nil_r.
  - unfold tryDirection at 2, emptyNeighbour at 1. run_result. cbn zeta.
    destruct (isValidPosition _ _) eqn:Hv; cbn [andb].
    + rewrite read_cell_wf by done.
      case_bool_decide; rewrite IH; by rewrite <- ?app_assoc.
    + by rewrite IH.
Qed.

(** Whenever [getValidMoves] returns, it returns [legalCells]; on a board
    with all its rows it does return. *)
Lemma getValidMoves_Ok l :
  getValidMoves board pos = Ok l → l = legalCells board pos.
Proof. apply scan_Ok. Qed.

Lemma getValidMoves_wf :
  wf_board board → getValidMoves board pos = Ok (legalCells board pos).
Proof. apply scan_wf. Qed.
End ValidMoves.

(** ** Claim C9 *)

(** Within the grid, [cell_at] is the element of the list of rows. *)
Lemma cell_at_lookup (b : Board) (r c : Z) :
  0 ≤ r → 0 ≤ c →
  cell_at b r c = (b !! Z.to_nat r) ≫= (λ row, row !! Z.to_nat c).
Proof.
  intros Hr Hc. unfold cell_at. by replace ((0 <=? r) && (0 <=? c)) with true by lia.
Qed.

(** C9.  On every 7x7 board and for every position, [getValidMoves] returns
    a list that holds, without repetition, exactly the cells at Chebyshev
    distance 1 from the position that are in bounds and Empty.  Distance,
    bounds and content are stated on the data, not through the code's own
    tests: a cell (r, c) is listed if and only if max(|r - row|, |c - col|)
    is 1, 0 <= r < 7 and 0 <= c < 7, and the element c of row r of the board
    is Empty; and an in-bounds neighbour that is not listed holds something
    other than Empty. *)
Theorem getValidMoves_exact (b : Board) (pos : Pos) (Hwf : wf_board b) :
  ∃ moves,
    getValidMoves b pos = Ok moves
    ∧ NoDup moves
    ∧ (∀ r c : Z,
         (r, c) ∈ moves ↔
         Z.max (Z.abs (r - pos.1)) (Z.abs (c - pos.2)) = 1
         ∧ (0 ≤ r < 7 ∧ 0 ≤ c < 7)
         ∧ (b !! Z.to_nat r) ≫= (λ row, row !! Z.to_nat c) = Some EMPTY)
    ∧ (∀ r c : Z,
         Z.max (Z.abs (r - pos.1)) (Z.abs (c - pos.2)) = 1 →
         0 ≤ r < 7 → 0 ≤ c < 7 →
         (r, c) ∉ moves →
         ∃ x, (b !! Z.to_nat r) ≫= (λ row, row !! Z.to_nat c) = Some x
              ∧ x ≠ EMPTY).
Proof.
  exists (legalCells b pos). split_and!.
  - by apply getValidMoves_wf.
  - apply legalCells_NoDup.
  - intros r c. rewrite elem_of_legalCells. unfold valid, chebyshev.
    cbn [fst snd]. rewrite isValidPosition_spec. unfold BOARD_SIZE. split.
    + intros (Hd & Hv & Hc). rewrite <- cell_at_lookup by lia. done.
    + intros (Hd & Hv & Hc). rewrite <- cell_at_lookup in Hc by lia. done.
  - intros r c Hd Hr Hc Hnot. rewrite <- cell_at_lookup by lia.
    assert (Hv : isValidPosition r c = true).
    { apply isValidPosition_spec. unfold BOARD_SIZE. lia. }
    destruct (cell_at_wf b r c Hwf Hv) as [x Hx]. exists x.
    split; [done|]. intros ->. apply Hnot.
    by apply elem_of_legalCells.
Qed.

(** ** Position evaluator: facts *)

Lemma allCells_valid p : p ∈ allCells → isValidPosition p.1 p.2 = true.
Proof.
  revert p. apply Forall_forall. compute_done.
Qed.

Lemma findMarkers_wf b :
  wf_board b → ∃ found, findMarkers b = Ok found.
Proof.
  intros Hwf. unfold findMarkers.
  assert (H : ∀ cells acc, Forall (λ p : Pos, isValidPosition p.1 p.2 = true) cells →
    ∃ found,
      foldl (λ (acc : Result (option Pos * option Pos)) (p : Pos),
           found ← acc;
           c ← read_cell b p.1 p.2;
           mret (if bool_decide (c = Some (Mark HUMAN)) then Some p else found.1,
                 if bool_decide (c = Some (Mark AI)) then Some p else found.2))
        (Ok acc) cells = Ok found).
  { induction cells as [|p cells IH]; intros acc Hall; [by eexists|].
    apply Forall_cons in Hall as [Hp Hall]. cbn [foldl].
    rewrite (read_cell_wf b p.1 p.2 Hwf Hp). cbn. by apply IH. }
  apply H, Forall_forall, allCells_valid.
Qed.

Lemma scanBoard_wf b : wf_board b → scanBoard b = Ok tt.
Proof.
  intros Hwf. unfold scanBoard.
  assert (H : ∀ cells, Forall (λ p : Pos, isValidPosition p.1 p.2 = true) cells →
    foldl (λ (acc : Result unit) (p : Pos),
             _ ← acc; _ ← read_cell b p.1 p.2; mret tt)
          (Ok tt) cells = Ok tt).
  { induction cells as [|p cells IH]; intros Hall; [done|].
    apply Forall_cons in Hall as [Hp Hall]. cbn [foldl].
    rewrite (read_cell_wf b p.1 p.2 Hwf Hp). cbn. by apply IH. }
  apply H, Forall_forall, allCells_valid.
Qed.

Lemma length_legalCells b pos : (length (legalCells b pos) ≤ 8)%nat.
Proof.
  unfold legalCells.
  assert (H : ∀ ds,
    (length (flat_map (emptyNeighbour b pos) ds) ≤ length ds)%nat).
  { induction ds as [|d ds IH]; [done|]. cbn [flat_map].
    rewrite length_app. unfold emptyNeighbour at 1. cbn zeta.
    destruct (_ && _); cbn; lia. }
  apply (H directions).
Qed.

Lemma countMoves_wf b pos :
  wf_board b → ∃ n, countMoves b pos = Ok n ∧ 0 ≤ n ≤ 8.
Proof.
  intros Hwf. destruct pos as [p|]; cbn.
  - rewrite getValidMoves_wf by done. cbn. eexists; split; [done|].
    pose proof (length_legalCells b p). lia.
  - exists 0. split; [done|lia].
Qed.

(** Whatever the arithmetic, the heuristic and the evaluator return on a
    board with all its cells, and the evaluator returns the heuristic's
    number unless the model answered. *)
Lemma heuristicEvaluation_Ok `{Number T} b :
  wf_board b →
  ∃ humanMoves aiMoves,
    0 ≤ humanMoves ≤ 8 ∧ 0 ≤ aiMoves ≤ 8
    ∧ heuristicEvaluation (T := T) b
      = Ok (if aiMoves =? 0 then numOf 0
            else if humanMoves =? 0 then numOf 1
            else numDiv (numOf aiMoves) (numOf (humanMoves + aiMoves))).
Proof.
  intros Hwf. destruct (findMarkers_wf b Hwf) as [found Hfound].
  unfold heuristicEvaluation. rewrite Hfound. cbn.
  destruct (countMoves_wf b found.1 Hwf) as (humanMoves & -> & ?).
  destruct (countMoves_wf b found.2 Hwf) as (aiMoves & -> & ?). cbn.
  exists humanMoves, aiMoves. split_and!; [lia..|].
  by repeat destruct (_ =? 0).
Qed.

Lemma evaluatePosition_Ok `{Number T} (nn : NeuralNetwork) (l : Learned T)
    (b : Board) :
  wf_board b →
  ∃ r, evaluatePosition nn l b = Ok r
       ∧ ((isLoaded nn = true ∧ l = Answered r)
          ∨ heuristicEvaluation b = Ok r).
Proof.
  intros Hwf.
  destruct (heuristicEvaluation_Ok (T := T) b Hwf) as (hm & am & _ & _ & Hh).
  unfold evaluatePosition. rewrite Hh.
  destruct (isLoaded nn); cbn; [|eexists; split; [done|by right]].
  destruct l as [v| |]; cbn; eexists; (split; [done|]); auto.
Qed.

Lemma ratio_in_unit_interval (a h : Z) :
  0 < a → 0 < h → (0 <= inject_Z a / inject_Z (h + a) <= 1)%Q.
Proof.
  intros Ha Hh.
  assert (Ht : (0 < inject_Z (h + a))%Q).
  { replace 0%Q with (inject_Z 0) by reflexivity. rewrite <- Zlt_Qlt. lia. }
  split.
  - apply Qle_shift_div_l; [done|]. rewrite Qmult_0_l.
    replace 0%Q with (inject_Z 0) by reflexivity. rewrite <- Zle_Qle. lia.
  - apply Qle_shift_div_r; [done|]. rewrite Qmult_1_l.
    rewrite <- Zle_Qle. lia.
Qed.

(** In exact arithmetic [in_unit] is the interval of the rationals. *)
Lemma in_unit_rational (a : Q) : in_unit a ↔ (0 <= a <= 1)%Q.
Proof.
  unfold in_unit. cbn. rewrite andb_true_iff, !Qle_bool_iff. done.
Qed.

#[global] Instance rational_unit : UnitQuotients Q.
Proof.
  split.
  - by apply in_unit_rational.
  - by apply in_unit_rational.
  - intros a h Ha Hh. apply in_unit_rational, ratio_in_unit_interval; lia.
Qed.

(** In binary64 the sixty-four quotients are computed one by one. *)
#[global] Instance binary64_unit : UnitQuotients PrimFloat.float.
Proof.
  split; [done..|]. intros a h Ha Hh.
  assert (Hall : forallb (λ a, forallb (λ h,
            numLe (numOf 0) (numDiv (numOf a) (numOf (h + a)))
            && numLe (numDiv (numOf a) (numOf (h + a)))
                     (numOf 1 : PrimFloat.float))
          (seqZ 1 8)) (seqZ 1 8) = true) by by vm_compute.
  rewrite forallb_forall in Hall.
  assert (Ha' : In a (seqZ 1 8)) by (apply list_elem_of_In, elem_of_seqZ; lia).
  specialize (Hall a Ha'). cbn beta in Hall. rewrite forallb_forall in Hall.
  apply Hall, list_elem_of_In, elem_of_seqZ. lia.
Qed.

Section Evaluator.
Context `{UnitQuotients T}.

Lemma heuristicEvaluation_wf b :
  wf_board b → ∃ r : T, heuristicEvaluation b = Ok r ∧ in_unit r.
Proof.
  intros Hwf.
  destruct (heuristicEvaluation_Ok (T := T) b Hwf) as (hm & am & ? & ? & ->).
  eexists; split; [done|].
  destruct (am =? 0) eqn:Ha; [apply in_unit_0|].
  destruct (hm =? 0) eqn:Hh; [apply in_unit_1|].
  apply in_unit_quotient; lia.
Qed.

End Evaluator.

(** ** Moves and the end-of-game check *)

(** Expose the state threading of a monadic program. *)
Ltac run_monad :=
  repeat progress
    (unfold mbind, M_bind, mret, M_ret, gets, modify, throw, lift,
       update_game, update_stats, validMovesOf, write, notifyRecorder in *;
     cbn in *).

(** [movePlayer] up to its end-of-game check: where its writes go through,
    the session is [applyMove]. *)
Lemma movePlayer_Ok player newPos isSim w w' :
  movePlayer player newPos isSim w = (Ok tt, w') →
  (if isSim then checkGameEndSimulation else checkGameEnd)
    {| w_game := applyMove player newPos (w_game w); w_stats := w_stats w |}
  = (Ok tt, w').
Proof.
  destruct w as [g st]. unfold movePlayer, applyMove, positionOf. run_monad.
  destruct player; cbn;
    destruct g as [i pi b [hp|] [ap|] cp ph h wn sim]; cbn;
    repeat match goal with
    | |- context [write_cell ?b ?p ?v] =>
      let Hw := fresh "Hw" in
      destruct (write_cell b p v) as [?|?] eqn:Hw; cbn;
      [apply write_cell_Ok in Hw as [-> _]|discriminate]
    end; done.
Qed.

Lemma movePlayer_wf player newPos isSim w :
  wf_board (board (w_game w)) →
  (∀ p, positionOf (w_game w) player = Some p → valid p) →
  valid newPos →
  movePlayer player newPos isSim w =
  (if isSim then checkGameEndSimulation else checkGameEnd)
    {| w_game := applyMove player newPos (w_game w); w_stats := w_stats w |}.
Proof.
  destruct w as [g st]. unfold movePlayer, applyMove, positionOf. run_monad.
  intros Hwf Hold Hnew.
  destruct player; cbn;
    destruct g as [i pi b [hp|] [ap|] cp ph h wn sim]; cbn in *;
    rewrite ?(write_cell_wf b) by eauto; cbn;
    rewrite ?write_cell_wf by eauto using wf_board_set_cell; cbn; done.
Qed.

Lemma checkGameEnd_Ok w w' :
  checkGameEnd w = (Ok tt, w') →
  ∃ hp ap, humanPos (w_game w) = Some hp ∧ aiPos (w_game w) = Some ap
           ∧ w_game w' = afterCheck (w_game w) hp ap.
Proof.
  destruct w as [g st]. unfold checkGameEnd, afterCheck, endGame. run_monad.
  destruct (humanPos g) as [hp|]; cbn; [|discriminate].
  destruct (getValidMoves (board g) hp) as [hm|] eqn:Hhm; cbn; [|discriminate].
  apply getValidMoves_Ok in Hhm as ->.
  destruct (aiPos g) as [ap|]; cbn; [|discriminate].
  destruct (getValidMoves (board g) ap) as [am|] eqn:Ham; cbn; [|discriminate].
  apply getValidMoves_Ok in Ham as ->.
  intros Hrun. exists hp, ap. split_and!; [done..|]. revert Hrun.
  repeat case_bool_decide; cbn.
  - destruct (isSimulation g); cbn; by intros [= <-].
  - destruct (isSimulation g); cbn; by intros [= <-].
  - by intros [= <-].
Qed.

Lemma checkGameEnd_wf w hp ap :
  wf_board (board (w_game w)) →
  humanPos (w_game w) = Some hp → aiPos (w_game w) = Some ap →
  ∃ w', checkGameEnd w = (Ok tt, w')
        ∧ w_game w' = afterCheck (w_game w) hp ap.
Proof.
  destruct w as [g st]. unfold checkGameEnd, afterCheck, endGame. run_monad.
  intros Hwf -> ->. cbn. rewrite !getValidMoves_wf by done. cbn.
  repeat case_bool_decide; cbn; try destruct (isSimulation g); cbn;
    by eexists.
Qed.

Lemma checkGameEndSimulation_wf w hp ap :
  wf_board (board (w_game w)) →
  humanPos (w_game w) = Some hp → aiPos (w_game w) = Some ap →
  ∃ w', checkGameEndSimulation w = (Ok tt, w')
        ∧ w_game w' = afterCheck (w_game w) hp ap.
Proof.
  destruct w as [g st]. unfold checkGameEndSimulation, afterCheck. run_monad.
  intros Hwf -> ->. cbn. rewrite !getValidMoves_wf by done. cbn.
  repeat case_bool_decide; cbn; by eexists.
Qed.

Lemma afterCheck_ends g hp ap :
  humanPos g = Some hp → aiPos g = Some ap → gamePhase g = playing →
  ends_iff_a_side_stuck (afterCheck g hp ap).
Proof.
  intros Hhp Hap Hph. unfold ends_iff_a_side_stuck, afterCheck, legalMovesOf.
  rewrite <- !length_zero_iff_nil.
  repeat case_bool_decide; cbn; rewrite ?Hhp, ?Hap, ?Hph.
  - split_and!; [|done|]; [by split; [left|] | intros; exfalso; eauto].
  - split_and!; [by split; [right|] | done..].
  - split_and!; [|done..]. split; [done | by intros [?|?]].
Qed.

Lemma ends_iff_a_side_stuck_set_currentPlayer p g :
  ends_iff_a_side_stuck g → ends_iff_a_side_stuck (set_currentPlayer p g).
Proof. done. Qed.

Lemma movePlayer_commit player newPos w w' :
  gamePhase (w_game w) = playing →
  movePlayer player newPos false w = (Ok tt, w') →
  ends_iff_a_side_stuck (w_game w').
Proof.
  intros Hph Hrun%movePlayer_Ok.
  apply checkGameEnd_Ok in Hrun as (hp & ap & Hhp & Hap & ->).
  by apply afterCheck_ends.
Qed.

(** ** Claim C1 *)

(** C1 (as amended).  After a committed move in the Playing phase -- a human
    move accepted by [makeHumanMove], or a software move chosen and applied
    by [makeAIMove] -- the session is Ended if and only if at least one of
    the two sides, the one now to act or the one that just moved, has no
    legal move from its position.  When the human has none, the software
    agent is the winner, whoever moved and whether or not the software agent
    has a move itself; when the software agent has none and the human has
    one, the human is the winner. *)
Theorem committed_move_ends_iff_a_side_stuck :
  (∀ (e e' : Engine) (gameId : string) (row col : Z) (g' : Game),
     makeHumanMove gameId row col e = (Ok g', e') →
     ends_iff_a_side_stuck g')
  ∧ (∀ T (num : Number T) cfg clock nn (learned : nat → Board → Learned T)
       fuel (e e' : Engine) (gameId : string) (game g' : Game),
       activeGames e !! gameId = Some game →
       legalMovesOf game AI ≠ [] →
       makeAIMove cfg clock nn learned fuel gameId e = Some (Ok g', e') →
       ends_iff_a_side_stuck g').
Proof.
  split.
  - intros e e' gameId row col g'. unfold makeHumanMove, on_game. run_monad.
    destruct (activeGames e !! gameId) as [game|]; [|discriminate].
    case_bool_decide as Hph; cbn; [|discriminate].
    case_bool_decide as Hcp; cbn; [|discriminate].
    destruct (humanPos game) as [hp|]; cbn; [|discriminate].
    destruct (getValidMoves _ _) as [validMoves|]; cbn; [|discriminate].
    destruct (existsb _ _); cbn; [|discriminate].
    destruct (movePlayer _ _ _ _) as [[[]|err] w'] eqn:Hmove; cbn;
      [|discriminate].
    destruct (recordMove _ _ _ _ _); cbn; [|discriminate].
    intros [= <- _]. apply ends_iff_a_side_stuck_set_currentPlayer.
    eapply movePlayer_commit, Hmove. done.
  - intros T num cfg clock nn learned fuel e e' gameId game g' Hgame Hmoves.
    unfold makeAIMove, on_game. rewrite Hgame.
    case_bool_decide as Hph; cbn; [|discriminate].
    case_bool_decide as Hcp; cbn; [|discriminate].
    unfold legalMovesOf, positionOf in Hmoves. run_monad.
    destruct (aiPos game) as [pos|]; cbn; [|discriminate].
    destruct (getValidMoves _ _) as [validMoves|] eqn:Hvalid; cbn;
      [|discriminate].
    apply getValidMoves_Ok in Hvalid as ->.
    rewrite bool_decide_false by by rewrite length_zero_iff_nil.
    destruct (enhancedMCTS _ _ _ _ _ _ _ _) as [[[bestMove|]|err]|];
      [| |discriminate..].
    2:{ destruct (write_cell _ _ _); cbn; discriminate. }
    destruct (movePlayer _ _ _ _) as [[[]|err] w'] eqn:Hmove; cbn;
      [|discriminate].
    destruct (recordMove _ _ _ _ _); cbn; [|discriminate].
    intros [= <- _]. apply ends_iff_a_side_stuck_set_currentPlayer.
    eapply movePlayer_commit, Hmove. done.
Qed.

(** C1, counterexample to the rule as worded.  The human, at (0,1) with
    (1,0) and (1,1) already blocked, steps into the corner (0,0).  The move
    is accepted and the session is Ended right away, although the side now
    to act, the software agent at (1,3), has seven legal moves; the winner
    recorded is the software agent, not the side that just moved. *)
Lemma corner_move_refutes_next_side_rule :
  match (makeHumanMove "g" 0 0 beforeCornerEngine).1 with
  | Ok g' =>
    gamePhase g' = ended
    ∧ length (legalMovesOf g' (opponent HUMAN)) = 7%nat
    ∧ winner g' = Some AI
    ∧ ¬ ends_iff_next_side_stuck HUMAN g'
  | Throw _ => False
  end.
Proof.
  vm_compute. split_and!; [reflexivity..|].
  intros [[Hstuck _] _]. discriminate (Hstuck eq_refl).
Qed.

(** ** Claims C2 and C3: the code at the failing inputs *)

(** C2.  What the code does on the scenario: after the initial placement
    (human at (0,0), software agent at the centre), a human move to (1,1)
    and the software agent's answer, [undoLastMove] succeeds and hands back
    a session in the Starting phase with an empty board and no positions,
    which is not the session as it stood after the placement. *)
Theorem undo_after_both_moves_resets :
  match activeGames placedEngine !! "g",
        (undoLastMove "g" bothMovedEngine).1 with
  | Some placed, Ok g' =>
    (gamePhase placed = playing ∧ currentPlayer placed = HUMAN
     ∧ humanPos placed = Some (0, 0) ∧ aiPos placed = Some (3, 3)
     ∧ moveHistory placed = [])
    ∧ (gamePhase g' = starting ∧ currentPlayer g' = HUMAN
       ∧ board g' = initializeBoard
       ∧ humanPos g' = None ∧ aiPos g' = None ∧ moveHistory g' = [])
    ∧ board g' ≠ board placed
  | _, _ => False
  end.
Proof. vm_compute. split_and!; (reflexivity || discriminate). Qed.

(** C3.  What the code does on a single move: after the initial placement
    (session in the Playing phase), the human move to (1,1) followed by
    [undoLastMove] does not give back the pre-move session; the session is
    reset to the Starting phase with an empty board and no positions, though
    the move undone was not the initial placement. *)
Theorem undo_after_first_move_resets :
  match activeGames placedEngine !! "g",
        (undoLastMove "g" humanMovedEngine).1 with
  | Some before, Ok g' =>
    (gamePhase before = playing
     ∧ humanPos before = Some (0, 0) ∧ aiPos before = Some (3, 3))
    ∧ (gamePhase g' = starting ∧ board g' = initializeBoard
       ∧ humanPos g' = None ∧ aiPos g' = None)
    ∧ board g' ≠ board before
  | _, _ => False
  end.
Proof. vm_compute. split_and!; (reflexivity || discriminate). Qed.

(** ** Claim C5: the code at the failing input *)

(** C5.  What the code does: with the software agent at the centre (3,3),
    the human moves from (2,2) to (2,3).  The destination is not an edge
    cell, yet [isTrapAttempt] answers [true] and [recordMove] adds the entry
    ["trap_2,3"] to the trap-attempt table. *)
Theorem trap_recorded_off_the_edge :
  let e' := after (makeHumanMove "g" 2 3) nextToCentreEngine in
  aiPos (sessionOf nextToCentreEngine "g") = Some (3, 3)
  ∧ isEdgeCell (2, 3) = false
  ∧ isTrapAttempt (2, 3) (board (sessionOf e' "g")) = true
  ∧ trapAttempts (humanPatterns (experienceReplay nextToCentreEngine))
      !! "trap_2,3" = None
  ∧ trapAttempts (humanPatterns (experienceReplay e')) !! "trap_2,3" = Some 1.
Proof. cbv zeta. split_and!; by vm_compute. Qed.

(** ** The final choice of [enhancedMCTS] *)

(** Whatever the arithmetic, the loop ends on its initial choice or on one
    of the candidates. *)
Lemma selection_among `{Number T} (s : Search T) (l : list Pos)
    (init : option Pos) (score : T) :
  (foldl (keepBetter s) (init, score) l).1 = init
  ∨ ∃ b, b ∈ l ∧ (foldl (keepBetter s) (init, score) l).1 = Some b.
Proof.
  induction l as [|x l IH] using rev_ind; [by left|].
  rewrite foldl_app. cbn [foldl].
  set (acc := foldl (keepBetter s) (init, score) l) in *.
  unfold keepBetter. destruct (numGt (winRate s x) acc.2); cbn [fst].
  - right. exists x. split; [|done]. apply elem_of_app. right. by left.
  - destruct IH as [IH|(b & Hb & IH)]; [by left|].
    right. exists b. split; [|done]. apply elem_of_app. by left.
Qed.

Lemma selectBest_is_Some `{Number T} (s : Search T) (validMoves : list Pos) :
  validMoves ≠ [] → is_Some (selectBest validMoves s).
Proof.
  intros Hne. unfold selectBest.
  destruct (selection_among s validMoves (head validMoves) (numOf 0))
    as [-> |(b & _ & ->)]; [|done].
  by destruct validMoves.
Qed.

Lemma selectBest_elem `{Number T} (s : Search T) (validMoves : list Pos)
    (best : Pos) :
  selectBest validMoves s = Some best → best ∈ validMoves.
Proof.
  unfold selectBest.
  destruct (selection_among s validMoves (head validMoves) (numOf 0))
    as [-> |(b & Hb & ->)].
  - destruct validMoves; [done|]. intros [= <-]. by left.
  - by intros [= <-].
Qed.

Section Choice.
Context `{NumberLaws T}.
Variable s : Search T.
(** The win rates are scores. *)
Hypothesis Hscores : ∀ m, isScore (winRate s m).






End Choice.

(** ** The session invariant *)

Lemma engine_inv_insert e gameId g st er :
  engine_inv e → game_inv g →
  engine_inv {| activeGames := <[gameId := g]> (activeGames e);
                gameStats := st; experienceReplay := er |}.
Proof.
  intros He Hg gameId' g'. cbn. rewrite lookup_insert.
  case_decide; [by intros [= <-] | apply He].
Qed.

Lemma game_inv_positions g :
  game_inv g → gamePhase g ≠ starting →
  ∃ hp ap, humanPos g = Some hp ∧ aiPos g = Some ap ∧ valid hp ∧ valid ap.
Proof. intros (_ & _ & Hph) Hns. by destruct (gamePhase g). Qed.

Lemma game_inv_applyMove player newPos g :
  game_inv g → gamePhase g ≠ starting → valid newPos →
  game_inv (applyMove player newPos g).
Proof.
  intros Hinv Hns Hnew.
  destruct (game_inv_positions g Hinv Hns) as (hp & ap & Hhp & Hap & Hvh & Hva).
  destruct Hinv as (Hwf & Hhist & Hph).
  unfold game_inv, applyMove, positionOf. cbn. split_and!.
  - apply wf_board_set_cell.
    destruct player; rewrite ?Hhp, ?Hap; by apply wf_board_set_cell.
  - apply Forall_app. split; [done|]. constructor; [|constructor].
    split; [done|]. destruct player; eauto.
  - destruct (gamePhase g); [done|..]; destruct player; eauto 10.
Qed.

Lemma game_inv_afterCheck g hp ap :
  game_inv g → gamePhase g ≠ starting →
  game_inv (afterCheck g hp ap) ∧ gamePhase (afterCheck g hp ap) ≠ starting.
Proof.
  intros (Hwf & Hhist & Hph) Hns. unfold afterCheck, game_inv.
  destruct (gamePhase g) eqn:Hg; [by destruct Hns|..];
    repeat case_bool_decide; cbn; rewrite ?Hg; done.
Qed.

(** On a session that has left the Starting phase a move to a cell of the
    grid goes through, and it keeps the invariant. *)
Lemma movePlayer_inv player newPos isSim w :
  game_inv (w_game w) → gamePhase (w_game w) ≠ starting → valid newPos →
  ∃ w', movePlayer player newPos isSim w = (Ok tt, w')
        ∧ game_inv (w_game w') ∧ gamePhase (w_game w') ≠ starting
        ∧ (isSim = true → w_stats w' = w_stats w).
Proof.
  intros Hinv Hns Hnew.
  destruct (game_inv_positions _ Hinv Hns) as (hp & ap & Hhp & Hap & Hvh & Hva).
  rewrite movePlayer_wf; [|apply Hinv| |done].
  2:{ unfold positionOf. destruct player; congruence. }
  pose proof (game_inv_applyMove player newPos _ Hinv Hns Hnew) as Hinv'.
  assert (Hns' : gamePhase (applyMove player newPos (w_game w)) ≠ starting)
    by done.
  destruct (game_inv_positions _ Hinv' Hns')
    as (hp' & ap' & Hhp' & Hap' & _).
  set (w1 := {| w_game := applyMove player newPos (w_game w);
                w_stats := w_stats w |}).
  destruct isSim.
  - destruct (checkGameEndSimulation_wf w1 hp' ap') as (w' & Hrun & Hgame);
      [apply Hinv'|done..|].
    exists w'. rewrite Hgame. split; [done|].
    split; [by apply game_inv_afterCheck|].
    split; [by apply game_inv_afterCheck|]. intros _.
    revert Hrun. unfold checkGameEndSimulation, w1. run_monad.
    rewrite Hhp', Hap'. cbn.
    rewrite !getValidMoves_wf by apply Hinv'. cbn.
    repeat case_bool_decide; cbn; by intros [= <-].
  - destruct (checkGameEnd_wf w1 hp' ap') as (w' & Hrun & Hgame);
      [apply Hinv'|done..|].
    exists w'. rewrite Hgame. split; [done|].
    split; [by apply game_inv_afterCheck|].
    split; [by apply game_inv_afterCheck|done].
Qed.

Lemma recordMove_wf gameId player move b er :
  wf_board b → ∃ er', recordMove gameId player move b er = Ok er'.
Proof.
  intros Hwf. unfold recordMove, determineGamePhase.
  rewrite scanBoard_wf by done. cbn. by eexists.
Qed.

(** [Math.floor(Math.random() * n)] is an index below [n]. *)
Lemma random_index (rnd : Q) (n : Z) :
  (0 <= rnd)%Q → (rnd < 1)%Q → 0 < n →
  0 ≤ Qfloor (rnd * inject_Z n) < n.
Proof.
  intros H0 H1 Hn.
  assert (Hn' : (0 < inject_Z n)%Q).
  { replace 0%Q with (inject_Z 0) by reflexivity. by rewrite <- Zlt_Qlt. }
  split.
  - change 0 with (Qfloor 0). apply Qfloor_resp_le.
    apply Qmult_le_0_compat; [done|]. by apply Qlt_le_weak.
  - rewrite Zlt_Qlt. eapply Qle_lt_trans; [apply Qfloor_le|].
    rewrite <- (Qmult_1_l (inject_Z n)) at 2.
    by apply Qmult_lt_r.
Qed.

Lemma center_taken row col :
  cell_at (set_cell initializeBoard (row, col) (Mark HUMAN)) center.1 center.2
    ≠ Some EMPTY →
  (row, col) = center.
Proof.
  intros Hne. destruct (decide ((row, col) = center)) as [|Hc]; [done|].
  exfalso. apply Hne. rewrite cell_at_set_cell_ne by done. reflexivity.
Qed.

Lemma valid_center : valid center.
Proof. reflexivity. Qed.

Lemma createGame_run gameId playerId e :
  engine_inv e → engine_inv (after (createGame gameId playerId) e).
Proof.
  intros Hinv. unfold after, createGame. run_monad.
  destruct e as [games st er]. apply (engine_inv_insert _ _ _ st er Hinv).
  unfold game_inv; cbn. split_and!; [apply wf_board_initializeBoard|done..].
Qed.

Lemma engine_inv_set_experienceReplay er e :
  engine_inv e → engine_inv (set_experienceReplay er e).
Proof. done. Qed.

Lemma settled_throw e {A} err :
  engine_inv e → err ≠ OutsideGrid → @settled e A (Throw err) e.
Proof. intros He Herr. split; [done|]. by intros ? [= <-]. Qed.

Lemma placeStartingPosition_run rnd gameId row col e r e' :
  (0 <= rnd)%Q → (rnd < 1)%Q → engine_inv e →
  placeStartingPosition rnd gameId row col e = (r, e') →
  settled e r e'.
Proof.
  intros H0 H1 Hinv. unfold placeStartingPosition, on_game. run_monad.
  destruct (activeGames e !! gameId) as [game|] eqn:Hgame;
    [|intros [= <- <-]; by apply settled_throw].
  case_bool_decide as Hph; cbn; [|intros [= <- <-]; by apply settled_throw].
  destruct (Hinv _ _ Hgame) as (Hwf & Hhist & Hstart).
  rewrite Hph in Hstart. destruct Hstart as [Hboard Hnil].
  rewrite Hboard in *.
  destruct (read_cell initializeBoard row col) as [c|err] eqn:Hread; cbn.
  2:{ intros [= <- <-]. apply settled_throw; [done|].
      revert Hread. unfold read_cell. destruct (row_at _ _); [done|].
      by intros [= <-]. }
  case_bool_decide as Hc; cbn; [|intros [= <- <-]; by apply settled_throw].
  subst c. apply read_cell_Ok in Hread. symmetry in Hread.
  assert (Hrc : valid (row, col)) by (by eapply cell_at_Some_valid).
  rewrite (write_cell_wf initializeBoard) by done. cbn.
  set (b1 := set_cell initializeBoard (row, col) (Mark HUMAN)).
  assert (Hwf1 : wf_board b1) by by apply wf_board_set_cell.
  rewrite (read_cell_wf b1) by done. cbn.
  case_bool_decide as Hcenter; cbn.
  - rewrite (write_cell_wf b1) by (done || apply valid_center). cbn.
    intros [= <- <-]. split; [|done].
    apply engine_inv_insert; [done|]. unfold game_inv; cbn.
    rewrite Hnil. split_and!; [by apply wf_board_set_cell|done|].
    exists (row, col), center. split_and!; done || apply valid_center.
  - apply center_taken in Hcenter as Hrow. injection Hrow as -> ->.
    rewrite getValidMoves_wf by done. cbn.
    change (legalCells b1 center) with
      [(2, 3); (4, 3); (3, 2); (3, 4); (2, 2); (2, 4); (4, 2); (4, 4)].
    cbn [length bool_decide decide_rel]. rewrite bool_decide_true by lia.
    destruct (random_index rnd 8 H0 H1) as [Hi0 Hi8]; [lia|].
    change (Z.of_nat 8) with 8.
    replace (0 <=? Qfloor (rnd * inject_Z 8)) with true by lia.
    destruct (lookup_lt_is_Some_2
                [(2, 3); (4, 3); (3, 2); (3, 4); (2, 2); (2, 4); (4, 2); (4, 4)]
                (Z.to_nat (Qfloor (rnd * inject_Z 8)))) as [randomMove Hrm];
      [cbn [length]; lia|].
    rewrite Hrm. cbn.
    assert (Hvr : valid randomMove).
    { apply list_elem_of_lookup_2 in Hrm. revert randomMove Hrm.
      apply Forall_forall. compute_done. }
    rewrite (write_cell_wf b1) by done. cbn.
    intros [= <- <-]. split; [|done].
    apply engine_inv_insert; [done|]. unfold game_inv; cbn.
    rewrite Hnil. split_and!; [by apply wf_board_set_cell|done|].
    exists center, randomMove. split_and!; done.
Qed.

Lemma existsb_move_valid b pos row col :
  existsb (λ move : Pos, (move.1 =? row) && (move.2 =? col))
          (legalCells b pos) = true →
  valid (row, col).
Proof.
  intros ([r c] & Hin & Heq)%existsb_exists. cbn in Heq.
  assert (r = row ∧ c = col) as [-> ->] by lia.
  by apply list_elem_of_In, elem_of_legalCells in Hin as (_ & ? & _).
Qed.

Lemma makeHumanMove_run gameId row col e r e' :
  engine_inv e →
  makeHumanMove gameId row col e = (r, e') →
  settled e r e'.
Proof.
  intros Hinv. unfold makeHumanMove, on_game. run_monad.
  destruct (activeGames e !! gameId) as [game|] eqn:Hgame;
    [|intros [= <- <-]; by apply settled_throw].
  case_bool_decide as Hph; cbn; [|intros [= <- <-]; by apply settled_throw].
  case_bool_decide as Hcp; cbn; [|intros [= <- <-]; by apply settled_throw].
  pose proof (Hinv _ _ Hgame) as Hgame_inv.
  assert (Hns : gamePhase game ≠ starting) by (by rewrite Hph).
  destruct (game_inv_positions game Hgame_inv Hns)
    as (hp & ap & -> & Hap & Hvh & Hva). cbn.
  rewrite getValidMoves_wf by apply Hgame_inv. cbn.
  destruct (existsb _ _) eqn:Hmove; cbn;
    [|intros [= <- <-]; by apply settled_throw].
  apply existsb_move_valid in Hmove.
  destruct (movePlayer_inv HUMAN (row, col) false
              {| w_game := game; w_stats := gameStats e |}
              Hgame_inv Hns Hmove) as (w' & -> & Hinv' & _). cbn.
  destruct (recordMove_wf gameId HUMAN (row, col) (board (w_game w'))
              (experienceReplay e)) as [er' ->]; [apply Hinv'|]. cbn.
  intros [= <- <-]. split; [|done].
  by apply engine_inv_insert.
Qed.

(** ** The sampling loop of [enhancedMCTS] *)

Section Sampling.
Context `{Number T}.
Variable cfg : Config.
Variable clock : nat → Z.
Variable nn : NeuralNetwork.
Variable learned : nat → Board → Learned T.
Variable game : Game.
Variable stats : GameStats.
Variable startTime : Z.

Hypothesis Hinv : game_inv game.
Hypothesis Hplaying : gamePhase game = playing.

(** The simulation of a candidate of the grid does not throw, and a
    simulation that returns leaves a board with all its cells. *)
Lemma simulate_Ok move :
  valid move → ∃ b, simulate game stats move = Ok b.
Proof.
  intros Hmove. unfold simulate.
  destruct (movePlayer_inv AI move true
              {| w_game := cloneGame game; w_stats := stats |})
    as (w' & -> & _); [done|by cbn; rewrite Hplaying|done|].
  by eexists.
Qed.

Lemma simulate_wf move b :
  simulate game stats move = Ok b → wf_board b.
Proof.
  unfold simulate.
  destruct (movePlayer AI move true _) as [[[]|err] w'] eqn:Hmove;
    [|discriminate].
  intros [= <-]. apply movePlayer_Ok in Hmove. revert Hmove.
  unfold checkGameEndSimulation. run_monad.
  set (b := set_cell _ move (Mark AI)).
  assert (Hb : wf_board b).
  { apply wf_board_set_cell. destruct (aiPos game); [|apply Hinv].
    apply wf_board_set_cell, Hinv. }
  destruct (humanPos game); cbn; [|discriminate].
  destruct (getValidMoves b _); cbn; [|discriminate].
  destruct (getValidMoves b _); cbn; [|discriminate].
  repeat case_bool_decide; cbn; by intros [= <-].
Qed.

Lemma visit_Ok move s :
  valid move →
  ∃ r, visit nn learned game stats move s = Ok (credited move r s).
Proof.
  intros Hmove. destruct (simulate_Ok move Hmove) as (b & Hb).
  pose proof (simulate_wf move b Hb) as Hwf. unfold visit. rewrite Hb.
  run_result.
  destruct (evaluatePosition_Ok nn (learned (calls s) b) b Hwf)
    as (r & Hr & _).
  exists r. by rewrite Hr.
Qed.

Lemma visit_inv move s s1 :
  visit nn learned game stats move s = Ok s1 →
  ∃ b r, wf_board b
         ∧ evaluatePosition nn (learned (calls s) b) b = Ok r
         ∧ s1 = credited move r s.
Proof.
  unfold visit. run_result.
  destruct (simulate game stats move) as [b|] eqn:Hb; [|discriminate].
  destruct (evaluatePosition _ _ _) as [r|] eqn:Hr; [|discriminate].
  intros [= <-]. exists b, r. split; [by eapply simulate_wf|done].
Qed.

(** Induction over the candidates of one round, and over the rounds. *)
Lemma round_ind (P : Search T → Prop) :
  (∀ move s s1, P s → visit nn learned game stats move s = Ok s1 → P s1) →
  ∀ moves s s1,
    P s → round cfg clock nn learned startTime game stats moves s = Ok s1 →
    P s1.
Proof.
  intros Hvisit. induction moves as [|move rest IH]; intros s s1 Hs; cbn.
  - by intros [= <-].
  - run_result.
    destruct (visit nn learned game stats move s) as [s0|] eqn:Hv;
      [|discriminate].
    destruct (timeLimit cfg <=? _).
    + intros [= <-]. eauto.
    + apply IH. eauto.
Qed.

Lemma rounds_ind (P : Search T → Prop) (validMoves : list Pos) :
  (∀ s, P s → P (tick s)) →
  (∀ s s1, P s → simulations s < maxSimulations cfg →
           round cfg clock nn learned startTime game stats validMoves s = Ok s1 →
           P s1) →
  ∀ fuel s s1,
    P s →
    rounds cfg clock nn learned fuel startTime game stats validMoves s
      = Some (Ok s1) →
    P s1.
Proof.
  intros Htick Hround. induction fuel as [|fuel IH]; intros s s1 Hs; cbn;
    [done|].
  destruct (_ && _) eqn:Hguard.
  - apply andb_prop in Hguard as [_ Hcap%Z.ltb_lt].
    destruct (round _ _ _ _ _ _ _ _ _) as [s0|] eqn:Hr; [|discriminate].
    destruct (maxSimulations cfg <=? simulations s0).
    + intros [= <-]. eauto.
    + apply IH. eauto.
  - intros [= <-]. eauto.
Qed.

(** A round over candidates of the grid never throws. *)
Lemma round_Ok moves s :
  Forall valid moves →
  ∃ s1, round cfg clock nn learned startTime game stats moves s = Ok s1.
Proof.
  intros Hmoves. revert s.
  induction Hmoves as [|move rest Hmove _ IH]; intros s; cbn; [by eexists|].
  destruct (visit_Ok move s Hmove) as (r & ->). run_result.
  destruct (timeLimit cfg <=? _); [by eexists|apply IH].
Qed.

(** Evaluations made and the counter [simulations] move together, and a
    round over [moves] makes at most [length moves] evaluations, at least
    one if there is a candidate. *)
Lemma round_count moves s s1 :
  round cfg clock nn learned startTime game stats moves s = Ok s1 →
  simulations s1 - simulations s = Z.of_nat (calls s1) - Z.of_nat (calls s)
  ∧ simulations s ≤ simulations s1 ≤ simulations s + Z.of_nat (length moves)
  ∧ (moves ≠ [] → simulations s < simulations s1).
Proof.
  revert s. induction moves as [|move rest IH]; intros s; cbn.
  - intros [= <-]. split_and!; [lia..|done].
  - run_result.
    destruct (visit nn learned game stats move s) as [s0|] eqn:Hvisit;
      [|discriminate].
    apply visit_inv in Hvisit as (b & r & _ & _ & ->).
    destruct (timeLimit cfg <=? _).
    + intros [= <-]. cbn. split_and!; lia.
    + intros (Hc & Hs & _)%IH. cbn in *. split_and!; lia.
Qed.
Variable validMoves : list Pos.
Hypothesis Hcandidates : validMoves ≠ [].
Hypothesis Hvalid : Forall valid validMoves.

(** The loop never throws. *)
Lemma rounds_no_throw fuel s r :
  rounds cfg clock nn learned fuel startTime game stats validMoves s = Some r →
  ∃ s1, r = Ok s1.
Proof.
  revert s. induction fuel as [|fuel IH]; intros s; cbn; [done|].
  destruct (_ && _); [|intros [= <-]; by eexists].
  destruct (round_Ok validMoves (tick s) Hvalid) as [s0 ->].
  destruct (maxSimulations cfg <=? simulations s0);
    [intros [= <-]; by eexists|apply IH].
Qed.

(** With a candidate to evaluate, the [while] loop is left after at most
    [maxSimulations] rounds. *)
Lemma rounds_total fuel s :
  (Z.to_nat (maxSimulations cfg - simulations s) < fuel)%nat →
  ∃ s1, rounds cfg clock nn learned fuel startTime game stats validMoves s
        = Some (Ok s1).
Proof.
  revert s. induction fuel as [|fuel IH]; intros s Hfuel; [lia|]. cbn.
  destruct (_ && _) eqn:Hguard; [|by eexists].
  apply andb_prop in Hguard as [_ Hcap%Z.ltb_lt].
  destruct (round_Ok validMoves (tick s) Hvalid) as [s0 Hs0]. rewrite Hs0.
  apply round_count in Hs0 as (_ & _ & Hgrow). specialize (Hgrow Hcandidates).
  cbn in Hgrow.
  destruct (maxSimulations cfg <=? simulations s0) eqn:Hstop; [by eexists|].
  apply IH. lia.
Qed.

(** The counter never passes [maxSimulations - 1 + length validMoves]. *)
Lemma rounds_bound fuel s s1 :
  rounds cfg clock nn learned fuel startTime game stats validMoves s
    = Some (Ok s1) →
  Z.of_nat (calls s) = simulations s →
  Z.of_nat (calls s1) = simulations s1
  ∧ (simulations s = 0 → maxSimulations cfg ≤ 0 → simulations s1 = 0)
  ∧ (simulations s ≤ maxSimulations cfg - 1 + Z.of_nat (length validMoves) →
     simulations s1 ≤ maxSimulations cfg - 1 + Z.of_nat (length validMoves)).
Proof.
  intros Hrun Hcount.
  apply (rounds_ind
    (λ s', Z.of_nat (calls s') = simulations s'
           ∧ (simulations s = 0 → maxSimulations cfg ≤ 0 → simulations s' = 0)
           ∧ (simulations s ≤ maxSimulations cfg - 1 + Z.of_nat (length validMoves) →
              simulations s' ≤ maxSimulations cfg - 1 + Z.of_nat (length validMoves)))
    validMoves) with (fuel := fuel) (s := s); [done| |done..].
  intros s' s1' (Hc & Hzero & Hle) Hcap (Hcalls & Hsims & _)%round_count.
  split_and!; lia.
Qed.
(** *** Invariants of the tables *)

Lemma lookup_credited_scores move (r : T) s m :
  default (numOf 0) (scores (credited move r s) !! m) =
  if decide (move = m) then numAdd (default (numOf 0) (scores s !! m)) r
  else default (numOf 0) (scores s !! m).
Proof.
  cbn. rewrite lookup_insert. case_decide as Hm; [by subst|done].
Qed.

Lemma lookup_credited_visits move (r : T) s m :
  default 0 (visits (credited move r s) !! m) =
  if decide (move = m) then default 0 (visits s !! m) + 1
  else default 0 (visits s !! m).
Proof.
  cbn. rewrite lookup_insert. case_decide as Hm; [by subst|done].
Qed.

(** The mean of [v] evaluations [c]. *)
Lemma winRate_constant (c : T) s m :
  tables_constant c s →
  winRate s m =
  if 0 <? default 0 (visits s !! m)
  then numDiv (repeated c (Z.to_nat (default 0 (visits s !! m))))
              (numOf (default 0 (visits s !! m)))
  else numOf 0.
Proof. intros Hs. unfold winRate. cbn zeta. by rewrite (proj1 (Hs m)). Qed.

Lemma visit_constant (c : T) move s s1 :
  (∀ k b, wf_board b → evaluatePosition nn (learned k b) b = Ok c) →
  tables_constant c s → visit nn learned game stats move s = Ok s1 →
  tables_constant c s1.
Proof.
  intros Hc Hs (b & r & Hwf & Hr & ->)%visit_inv m.
  rewrite Hc in Hr by done. injection Hr as <-.
  rewrite lookup_credited_scores, lookup_credited_visits.
  destruct (Hs m) as [Hsum Hv]. case_decide; [|done]. split; [|lia].
  rewrite Hsum. replace (Z.to_nat (default 0 (visits s !! m) + 1))
    with (S (Z.to_nat (default 0 (visits s !! m)))) by lia.
  done.
Qed.

Context {laws : NumberLaws T} {units : UnitQuotients T}.
Hypothesis Hlearned : ∀ k b v, learned k b = Answered v → in_unit v.




End Sampling.

(** ** The whole selection *)

Lemma initSearch_tables `{Number T} (validMoves : list Pos) (m : Pos) :
  default (numOf 0) (scores (initSearch (T := T) validMoves) !! m) = numOf 0
  ∧ default 0 (visits (initSearch (T := T) validMoves) !! m) = 0.
Proof.
  unfold initSearch; cbn [scores visits]. split.
  - assert (Hacc : ∀ acc : gmap Pos T,
               default (numOf 0) (acc !! m) = numOf 0 →
               default (numOf 0)
                 (foldl (λ acc move, <[move := numOf 0]> acc) acc validMoves
                  !! m) = numOf 0).
    { induction validMoves as [|x l IH]; intros acc Hacc; cbn; [done|].
      apply IH. rewrite lookup_insert. by case_decide. }
    by apply Hacc.
  - assert (Hacc : ∀ acc : gmap Pos Z,
               default 0 (acc !! m) = 0 →
               default 0 (foldl (λ acc move, <[move := 0]> acc) acc validMoves
                          !! m) = 0).
    { induction validMoves as [|x l IH]; intros acc Hacc; cbn; [done|].
      apply IH. rewrite lookup_insert. by case_decide. }
    by apply Hacc.
Qed.


Lemma initSearch_constant `{Number T} (c : T) validMoves :
  tables_constant c (initSearch validMoves).
Proof.
  intros m. destruct (initSearch_tables (T := T) validMoves m) as [-> ->].
  done.
Qed.

Section Selected.
Context `{Number T}.
Variable cfg : Config.
Variable clock : nat → Z.
Variable nn : NeuralNetwork.
Variable learned : nat → Board → Learned T.
Variable game : Game.
Variable stats : GameStats.
Variable validMoves : list Pos.

Hypothesis Hinv : game_inv game.
Hypothesis Hplaying : gamePhase game = playing.
Hypothesis Hcandidates : validMoves ≠ [].
Hypothesis Hvalid : Forall valid validMoves.

(** The sampling loop ends, and the number of evaluations it has made is
    below [maxSimulations + length validMoves]. *)
Lemma sample_budget fuel :
  (Z.to_nat (maxSimulations cfg) < fuel)%nat →
  ∃ s, sample cfg clock nn learned fuel game stats validMoves = Some (Ok s)
       ∧ Z.of_nat (calls s) = simulations s
       ∧ (maxSimulations cfg ≤ 0 → calls s = 0%nat)
       ∧ (0 < maxSimulations cfg →
          Z.of_nat (calls s)
          < maxSimulations cfg + Z.of_nat (length validMoves)).
Proof.
  intros Hfuel. unfold sample.
  destruct (rounds_total cfg clock nn learned game stats (clock 0) Hinv
              Hplaying validMoves Hcandidates Hvalid fuel
              (initSearch validMoves)) as [s Hs].
  { unfold initSearch; cbn [simulations]. lia. }
  exists s. split; [exact Hs|].
  apply rounds_bound in Hs as (Hcount & Hzero & Hle); [|done..].
  cbn in Hzero, Hle. split_and!; [done|lia|].
  intros Hcap. assert (0 < length validMoves)%nat
    by (destruct validMoves; [done|cbn; lia]).
  lia.
Qed.

(** Under an evaluator that always answers [c], the sums are [c] added up
    as often as the candidate was visited when the loop is left. *)
Lemma sample_constant (c : T) fuel s :
  (∀ k b, wf_board b → evaluatePosition nn (learned k b) b = Ok c) →
  sample cfg clock nn learned fuel game stats validMoves = Some (Ok s) →
  tables_constant c s.
Proof.
  intros Hc. unfold sample.
  apply (rounds_ind cfg clock nn learned game stats (clock 0)
           (tables_constant c)); [done| |apply initSearch_constant].
  intros s0 s1 Hs0 _.
  apply (round_ind cfg clock nn learned game stats (clock 0)
           (tables_constant c)); [|done].
  intros move s2 s3. by apply visit_constant.
Qed.

Context {laws : NumberLaws T} {units : UnitQuotients T}.
Hypothesis Hlearned : ∀ k b v, learned k b = Answered v → in_unit v.


End Selected.

(** ** Sampling that the deadline does not interrupt *)

Section Undisturbed.
Context `{Number T}.
Variable cfg : Config.
Variable clock : nat → Z.
Variable nn : NeuralNetwork.
Variable learned : nat → Board → Learned T.
Variable game : Game.
Variable stats : GameStats.

Hypothesis Hinv : game_inv game.
(** No reading of the clock reaches the deadline. *)
Hypothesis Hclock : ∀ k, clock k - clock 0 < timeLimit cfg.

(** A round runs through its candidates and counts one visit for each. *)
Lemma round_visits moves s s1 m :
  NoDup moves →
  round cfg clock nn learned (clock 0) game stats moves s = Ok s1 →
  default 0 (visits s1 !! m) =
  default 0 (visits s !! m) + (if bool_decide (m ∈ moves) then 1 else 0).
Proof.
  intros Hnodup. revert s.
  induction Hnodup as [|move rest Hnotin _ IH]; intros s; cbn [round].
  - intros [= <-]. rewrite bool_decide_false by apply not_elem_of_nil. lia.
  - run_result.
    destruct (visit nn learned game stats move s) as [s0|] eqn:Hvisit;
      [|discriminate].
    apply visit_inv in Hvisit as (b & r & _ & _ & ->); [|done].
    replace (timeLimit cfg <=? _) with false
      by (specialize (Hclock (reads s)); lia).
    intros ->%IH. rewrite lookup_credited_visits.
    destruct (decide (move = m)) as [<-|Hm].
    + rewrite (bool_decide_false _ Hnotin).
      rewrite bool_decide_true by by left. lia.
    + destruct (decide (m ∈ rest)) as [Hin|Hout].
      * rewrite (bool_decide_true _ Hin).
        rewrite bool_decide_true by by right. done.
      * rewrite (bool_decide_false _ Hout).
        rewrite bool_decide_false; [done|].
        by intros [->|?]%elem_of_cons.
Qed.

(** So the candidates, listed once each, all have the same count when the
    loop is left: the sampling ends between two rounds. *)
Lemma undisturbed_sample_evenly_visited validMoves first fuel s :
  NoDup validMoves → first ∈ validMoves →
  sample cfg clock nn learned fuel game stats validMoves = Some (Ok s) →
  evenly_visited first validMoves s.
Proof.
  intros Hnodup Hfirst Hrun. apply Forall_forall. intros m Hm. left.
  revert Hrun m Hm. unfold sample.
  apply (rounds_ind cfg clock nn learned game stats (clock 0)
           (λ s', ∀ m, m ∈ validMoves →
                    default 0 (visits s' !! m)
                    = default 0 (visits s' !! first))); [done| |].
  - intros s0 s2 Hs0 _ Hround m Hm.
    rewrite !(round_visits validMoves s0 s2) by done.
    rewrite !bool_decide_true by done. by rewrite Hs0.
  - intros m _.
    by rewrite !(proj2 (initSearch_tables (T := T) validMoves _)).
Qed.
End Undisturbed.

(** ** The lifecycle methods on reachable engines *)

Lemma enhancedMCTS_no_throw `{Number T} cfg clock nn
    (learned : nat → Board → Learned T) fuel game stats validMoves err :
  game_inv game → gamePhase game = playing → Forall valid validMoves →
  enhancedMCTS cfg clock nn learned fuel game stats validMoves
  ≠ Some (Throw err).
Proof.
  intros Hinv Hplaying Hvalid. unfold enhancedMCTS, sample.
  destruct (rounds _ _ _ _ _ _ _ _ _ _) as [r|] eqn:Hrun; [|done].
  eapply rounds_no_throw in Hrun as [s ->]; done.
Qed.

Lemma makeAIMove_run `{Number T} cfg clock nn
    (learned : nat → Board → Learned T) fuel gameId e r e' :
  engine_inv e →
  makeAIMove cfg clock nn learned fuel gameId e = Some (r, e') →
  settled e r e'.
Proof.
  intros Hinv. unfold makeAIMove, on_game.
  destruct (activeGames e !! gameId) as [game|] eqn:Hgame;
    [|intros [= <- <-]; by apply settled_throw].
  case_bool_decide as Hph; cbn; [|intros [= <- <-]; by apply settled_throw].
  case_bool_decide as Hcp; cbn; [|intros [= <- <-]; by apply settled_throw].
  pose proof (Hinv _ _ Hgame) as Hgame_inv.
  assert (Hns : gamePhase game ≠ starting) by (by rewrite Hph).
  destruct (game_inv_positions game Hgame_inv Hns)
    as (hp & ap & Hhp & -> & Hvh & Hva). run_monad.
  rewrite getValidMoves_wf by apply Hgame_inv. cbn.
  case_bool_decide as Hnone.
  - unfold endGame. run_monad.
    destruct (isSimulation game); cbn; intros [= <- <-]; (split; [|done]);
      apply engine_inv_insert; try done;
      destruct Hgame_inv as (? & ? & Hpos); rewrite Hph in Hpos; done.
  - destruct (enhancedMCTS _ _ _ _ _ _ _ _) as [[[bestMove|]|err]|] eqn:Hbest;
      [| | |discriminate].
    + assert (Hvb : valid bestMove).
      { revert Hbest. unfold enhancedMCTS.
        destruct (sample _ _ _ _ _ _ _ _) as [[s|]|]; [|discriminate..].
        intros [= Hsel%selectBest_elem]. revert bestMove Hsel.
        apply Forall_forall, legalCells_valid. }
      destruct (movePlayer_inv AI bestMove false
                  {| w_game := game; w_stats := gameStats e |}
                  Hgame_inv Hns Hvb) as (w' & -> & Hinv' & _). cbn.
      destruct (recordMove_wf gameId AI bestMove (board (w_game w'))
                  (experienceReplay e)) as [er' ->]; [apply Hinv'|]. cbn.
      intros [= <- <-]. split; [|done].
      by apply engine_inv_insert.
    + exfalso. revert Hbest. unfold enhancedMCTS.
      destruct (sample _ _ _ _ _ _ _ _) as [[s|]|]; [|discriminate..].
      intros [= Hsel].
      destruct (selectBest_is_Some s (legalCells (board game) ap)) as [b Hb];
        [intros Hnil; by rewrite Hnil in Hnone|congruence].
    + exfalso. revert Hbest.
      apply enhancedMCTS_no_throw; [done..|apply legalCells_valid].
Qed.

Lemma Forall_pop {A} (P : A → Prop) (l : list A) :
  Forall P l → Forall P (pop l).
Proof. apply Forall_take. Qed.

Lemma Forall_iter_pop {A} (P : A → Prop) (n : nat) (l : list A) :
  Forall P l → Forall P (Nat.iter n pop l).
Proof. intros Hl. induction n as [|n IH]; [done|]. by apply Forall_pop. Qed.

Lemma undoLastMove_run gameId e r e' :
  engine_inv e →
  undoLastMove gameId e = (r, e') →
  settled e r e'.
Proof.
  intros Hinv. unfold undoLastMove, on_game. run_monad.
  destruct (activeGames e !! gameId) as [game|] eqn:Hgame;
    [|intros [= <- <-]; by apply settled_throw].
  case_bool_decide as Hph; cbn; [intros [= <- <-]; by apply settled_throw|].
  case_bool_decide as Hlen; cbn; [intros [= <- <-]; by apply settled_throw|].
  destruct (lastHumanMoveIndex _ _) as [idx|]; cbn;
    [|intros [= <- <-]; by apply settled_throw].
  destruct (moveHistory game !! idx) as [lastHumanMove|] eqn:Hlast; cbn;
    [|intros [= <- <-]; by apply settled_throw].
  pose proof (Hinv _ _ Hgame) as Hgame_inv.
  assert (Hns : gamePhase game ≠ starting).
  { intros Hst. destruct Hgame_inv as (_ & _ & Hpos). rewrite Hst in Hpos.
    destruct Hpos as [_ Hnil]. by rewrite Hnil in Hlen. }
  destruct (game_inv_positions game Hgame_inv Hns)
    as (hp & ap & Hhp & Hap & Hvh & Hva).
  destruct Hgame_inv as (Hwf & Hhist & Hpos).
  assert (Hrec : record_inv lastHumanMove).
  { rewrite Forall_forall in Hhist. apply Hhist.
    eapply list_elem_of_lookup_2, Hlast. }
  destruct Hrec as (Hto & from & Hfrom & Hvfrom).
  set (h' := pop (Nat.iter _ _ _)).
  assert (Hh' : Forall record_inv h') by by apply Forall_pop, Forall_iter_pop.
  case_bool_decide as Hempty; cbn.
  - intros [= <- <-]. split; [|done]. apply engine_inv_insert; [done|].
    unfold game_inv; cbn. split_and!; [apply wf_board_initializeBoard|done..|].
    by apply length_zero_iff_nil.
  - rewrite (write_cell_wf (board game)) by done. cbn.
    rewrite Hfrom. cbn.
    rewrite write_cell_wf by (done || by apply wf_board_set_cell). cbn.
    intros [= <- <-]. split; [|done]. apply engine_inv_insert; [done|].
    unfold game_inv; cbn. split_and!; [by do 2 apply wf_board_set_cell|done|].
    destruct (gamePhase game); [done|..]; eauto 10.
Qed.

(** Every session of a reachable engine satisfies the invariant. *)
Lemma reachable_inv e : reachable e → engine_inv e.
Proof.
  induction 1 as [st er|e gameId playerId _ IH|e rnd gameId row col _ IH H0 H1
                 |e gameId row col _ IH
                 |e T num cfg clock nn learned fuel gameId r e' _ IH Hrun
                 |e gameId _ IH|e _ IH|e gameId _ IH].
  - intros gameId g. cbn. by rewrite lookup_empty.
  - by apply createGame_run.
  - unfold after.
    destruct (placeStartingPosition rnd gameId row col e) as [r e'] eqn:Hrun.
    by apply placeStartingPosition_run in Hrun as [? _].
  - unfold after. destruct (makeHumanMove gameId row col e) as [r e'] eqn:Hrun.
    by apply makeHumanMove_run in Hrun as [? _].
  - by apply makeAIMove_run in Hrun as [? _].
  - unfold after. destruct (undoLastMove gameId e) as [r e'] eqn:Hrun.
    by apply undoLastMove_run in Hrun as [? _].
  - exact IH.
  - intros gameId' g. cbn. rewrite lookup_delete.
    case_decide; [done|apply IH].
Qed.

(** ** Claim C6 *)

(** C6.  In every engine state that the lifecycle methods can produce, a
    call of [placeStartingPosition], [makeHumanMove], [makeAIMove] or
    [undoLastMove] that ends in an exception -- whichever it is: wrong phase
    or turn, occupied or illegal position, unknown session, nothing to
    undo -- leaves the engine exactly as it was: no session, and so no
    board, position, phase, current player, history or winner, has been
    touched. *)
Theorem failed_call_leaves_engine_unchanged (e : Engine)
    (Hreach : reachable e) :
  (∀ rnd gameId row col err e',
     (0 <= rnd)%Q → (rnd < 1)%Q →
     placeStartingPosition rnd gameId row col e = (Throw err, e') → e' = e)
  ∧ (∀ gameId row col err e',
       makeHumanMove gameId row col e = (Throw err, e') → e' = e)
  ∧ (∀ T (num : Number T) cfg clock nn (learned : nat → Board → Learned T)
       fuel gameId err e',
       makeAIMove cfg clock nn learned fuel gameId e = Some (Throw err, e') →
       e' = e)
  ∧ (∀ gameId err e',
       undoLastMove gameId e = (Throw err, e') → e' = e).
Proof.
  apply reachable_inv in Hreach. split_and!.
  - intros rnd gameId row col err e' H0 H1 Hrun.
    apply placeStartingPosition_run in Hrun as [_ Hsame]; [|done..].
    by destruct (Hsame err).
  - intros gameId row col err e' Hrun.
    apply makeHumanMove_run in Hrun as [_ Hsame]; [|done].
    by destruct (Hsame err).
  - intros T num cfg clock nn learned fuel gameId err e' Hrun.
    apply makeAIMove_run in Hrun as [_ Hsame]; [|done].
    by destruct (Hsame err).
  - intros gameId err e' Hrun.
    apply undoLastMove_run in Hrun as [_ Hsame]; [|done].
    by destruct (Hsame err).
Qed.

(** On reachable engines no call of a lifecycle method leaves the grid: the
    outcome [OutsideGrid], where the embedding stops short of the source,
    does not occur. *)
Lemma reachable_inside_grid (e : Engine) :
  reachable e →
  (∀ rnd gameId row col,
     (0 <= rnd)%Q → (rnd < 1)%Q →
     (placeStartingPosition rnd gameId row col e).1 ≠ Throw OutsideGrid)
  ∧ (∀ gameId row col,
       (makeHumanMove gameId row col e).1 ≠ Throw OutsideGrid)
  ∧ (∀ T (num : Number T) cfg clock nn (learned : nat → Board → Learned T)
       fuel gameId e',
       makeAIMove cfg clock nn learned fuel gameId e
       ≠ Some (Throw OutsideGrid, e'))
  ∧ (∀ gameId, (undoLastMove gameId e).1 ≠ Throw OutsideGrid).
Proof.
  intros Hinv%reachable_inv. split_and!.
  - intros rnd gameId row col H0 H1.
    destruct (placeStartingPosition rnd gameId row col e) as [r e'] eqn:Hrun.
    apply placeStartingPosition_run in Hrun as [_ Hsame]; [|done..].
    cbn. intros ->. by destruct (Hsame _ eq_refl).
  - intros gameId row col.
    destruct (makeHumanMove gameId row col e) as [r e'] eqn:Hrun.
    apply makeHumanMove_run in Hrun as [_ Hsame]; [|done].
    cbn. intros ->. by destruct (Hsame _ eq_refl).
  - intros T num cfg clock nn learned fuel gameId e' Hrun.
    apply makeAIMove_run in Hrun as [_ Hsame]; [|done].
    by destruct (Hsame _ eq_refl).
  - intros gameId.
    destruct (undoLastMove gameId e) as [r e'] eqn:Hrun.
    apply undoLastMove_run in Hrun as [_ Hsame]; [|done].
    cbn. intros ->. by destruct (Hsame _ eq_refl).
Qed.

(** ** Undo: the frame *)

Lemma lastHumanMoveIndex_Some h i j :
  lastHumanMoveIndex h i = Some j →
  (j < i)%nat ∧ ∃ r, h !! j = Some r ∧ mr_player r = HUMAN.
Proof.
  induction i as [|i IH]; cbn; [done|].
  destruct (h !! i) as [r|] eqn:Hr.
  - case_bool_decide as Hp.
    + intros [= <-]. split; [lia|]. by exists r.
    + intros [Hlt Hex]%IH. split; [lia|done].
  - intros [Hlt Hex]%IH. split; [lia|done].
Qed.

(** ** Claim C10 *)

(** C10.  When [undoLastMove] succeeds and history remains afterwards, the
    undo was that of the last human record [m] of the history, and: the
    software agent's position is unchanged, and every board cell other than
    the source and the destination of [m] reads as before.  In particular
    (the destination holding the human's marker and the source being
    Blocked, as a move leaves them) every other Blocked cell -- such as the
    cell vacated by the software agent's discarded move -- is still Blocked,
    and the cell with the software agent's marker still holds it. *)
Theorem undo_frame (e e' : Engine) (gameId : string) (game g' : Game)
    (Hgame : activeGames e !! gameId = Some game)
    (Hundo : undoLastMove gameId e = (Ok g', e'))
    (Hkeep : moveHistory g' ≠ []) :
  ∃ idx m,
    lastHumanMoveIndex (moveHistory game) (length (moveHistory game)) = Some idx
    ∧ moveHistory game !! idx = Some m
    ∧ mr_player m = HUMAN
    ∧ activeGames e' !! gameId = Some g'
    ∧ aiPos g' = aiPos game
    ∧ (∀ r c, (r, c) ≠ mr_to m → Some (r, c) ≠ mr_from m →
              cell_at (board g') r c = cell_at (board game) r c)
    ∧ (cell_at (board game) (mr_to m).1 (mr_to m).2 = Some (Mark HUMAN) →
       ∀ r c, Some (r, c) ≠ mr_from m →
              cell_at (board game) r c = Some BLOCKED →
              cell_at (board g') r c = Some BLOCKED)
    ∧ (cell_at (board game) (mr_to m).1 (mr_to m).2 = Some (Mark HUMAN) →
       (∀ p, mr_from m = Some p →
             cell_at (board game) p.1 p.2 = Some BLOCKED) →
       ∀ r c, cell_at (board game) r c = Some (Mark AI) →
              cell_at (board g') r c = Some (Mark AI)).
Proof.
  revert Hundo. unfold undoLastMove, on_game. run_monad. rewrite Hgame.
  case_bool_decide as Hph; cbn; [discriminate|].
  case_bool_decide as Hlen; cbn; [discriminate|].
  destruct (lastHumanMoveIndex _ _) as [idx|] eqn:Hidx; cbn; [|discriminate].
  destruct (moveHistory game !! idx) as [m|] eqn:Hm; cbn; [|discriminate].
  apply lastHumanMoveIndex_Some in Hidx as Hfound.
  destruct Hfound as (_ & m' & Hm' & Hplayer).
  assert (m' = m) as -> by congruence.
  case_bool_decide as Hempty; cbn.
  { intros [= <- <-]. cbn in Hkeep. by apply length_zero_iff_nil in Hempty. }
  assert (Hframe : ∀ b',
    b' = match mr_from m with
         | Some from => set_cell (set_cell (board game) (mr_to m) EMPTY) from
                                 (Mark (mr_player m))
         | None => set_cell (board game) (mr_to m) EMPTY
         end →
    ∀ r c, (r, c) ≠ mr_to m → Some (r, c) ≠ mr_from m →
           cell_at b' r c = cell_at (board game) r c).
  { intros b' -> r c Hto Hfrom. destruct (mr_from m) as [from|].
    - rewrite !cell_at_set_cell_ne; [done|congruence..].
    - rewrite cell_at_set_cell_ne; [done|congruence]. }
  destruct (write_cell (board game) (mr_to m) EMPTY) as [b1|] eqn:Hw1; cbn;
    [|discriminate].
  apply write_cell_Ok in Hw1 as [-> _].
  destruct (mr_from m) as [from|] eqn:Hfrom; cbn.
  - destruct (write_cell _ from _) as [b2|] eqn:Hw2; cbn; [|discriminate].
    apply write_cell_Ok in Hw2 as [-> _].
    intros [= <- <-]; exists idx, m; cbn; rewrite lookup_insert_eq, Hfrom;
      (split_and!; [done..| | |]).
    + by apply Hframe.
    + intros Hto r c Hne Hblocked. rewrite Hframe; [done..| |done].
      intros Heq. rewrite <- Heq in Hto. cbn in Hto. congruence.
    + intros Hto Hsrc r c Hai. rewrite Hframe; [done..| |].
      * intros Heq. rewrite <- Heq in Hto. cbn in Hto. congruence.
      * intros [= <-]. specialize (Hsrc _ eq_refl). cbn in Hsrc. congruence.
  - intros [= <- <-]; exists idx, m; cbn; rewrite lookup_insert_eq, Hfrom;
      (split_and!; [done..| | |]).
    + by apply Hframe.
    + intros Hto r c Hne Hblocked. rewrite Hframe; [done..| |done].
      intros Heq. rewrite <- Heq in Hto. cbn in Hto. congruence.
    + intros Hto Hsrc r c Hai. rewrite Hframe; [done..| |done].
      intros Heq. rewrite <- Heq in Hto. cbn in Hto. congruence.
Qed.

(** ** Claim C4 *)

(** C4, counterexample to the bound as worded.  The human has started at
    (2,2) and moved to (1,1); the software agent, at the centre, has seven
    legal moves.  With the default limits (500 ms, 200 evaluations), the
    heuristic evaluator and a clock that advances one millisecond per
    reading, the deadline is never reached; the 29th round starts at 196
    evaluations and runs through all seven candidates: the evaluator is
    invoked 203 times. *)
Lemma seven_candidates_exceed_cap :
  getValidMoves (board sevenMovesGame) (3, 3) = Ok sevenMoves
  ∧ aiPos sevenMovesGame = Some (3, 3)
  ∧ length sevenMoves = 7%nat
  ∧ maxSimulations defaultConfig = 200
  ∧ match sample (T := PrimFloat.float) defaultConfig steadyClock notLoaded
                 noAnswer 300 sevenMovesGame (gameStats sevenMovesEngine)
                 sevenMoves with
    | Some (Ok s) =>
      calls s = 203%nat
      ∧ ¬ Z.of_nat (calls s) ≤ maxSimulations defaultConfig
    | _ => False
    end.
Proof.
  split_and!; [by vm_compute..|].
  vm_compute. split; [reflexivity|]. intros Hle. by apply Hle.
Qed.

(** C4 (as amended).  In one selection over a non-empty list of candidates
    (cells of the grid), on a session in the Playing phase:
    - no round is started once the deadline or the evaluation cap is
      reached: the loop is left without a further evaluation;
    - once the deadline is reached inside a round, only the candidate under
      evaluation is finished;
    - the count of evaluations is tested between rounds only, so a round
      under way runs through its candidates; the selection ends, and the
      evaluator has been invoked fewer than cap + number of candidates
      times (not at all when the cap is not positive). *)
Theorem sampling_budget (T : Type) (num : Number T) (cfg : Config)
    (clock : nat → Z) (nn : NeuralNetwork)
    (learned : nat → Board → Learned T) (game : Game) (stats : GameStats)
    (validMoves : list Pos)
    (Hinv : game_inv game) (Hplaying : gamePhase game = playing)
    (Hcandidates : validMoves ≠ [])
    (Hvalid : Forall valid validMoves) :
  (∀ fuel startTime s,
     timeLimit cfg ≤ clock (reads s) - startTime
     ∨ maxSimulations cfg ≤ simulations s →
     rounds cfg clock nn learned (S fuel) startTime game stats validMoves s
     = Some (Ok (tick s))
     ∧ calls (tick s) = calls s)
  ∧ (∀ startTime move rest s,
       timeLimit cfg ≤ clock (reads s) - startTime →
       round cfg clock nn learned startTime game stats (move :: rest) s
       = visit nn learned game stats move s)
  ∧ (∀ fuel, (Z.to_nat (maxSimulations cfg) < fuel)%nat →
       ∃ s, sample cfg clock nn learned fuel game stats validMoves
            = Some (Ok s)
            ∧ Z.of_nat (calls s) = simulations s
            ∧ (maxSimulations cfg ≤ 0 → calls s = 0%nat)
            ∧ (0 < maxSimulations cfg →
               Z.of_nat (calls s)
               < maxSimulations cfg + Z.of_nat (length validMoves))).
Proof.
  split_and!.
  - intros fuel startTime s Hlimit. split; [|done]. cbn [rounds].
    replace ((_ <? _) && (_ <? _)) with false; [done|].
    symmetry. apply andb_false_iff. lia.
  - intros startTime move rest s Hlimit. cbn [round]. run_result.
    destruct (visit nn learned game stats move s); [|done].
    by replace (timeLimit cfg <=? _) with true by lia.
  - intros fuel Hfuel. by apply sample_budget.
Qed.

(** ** Claim C8 *)



(** ** Exact arithmetic *)

Lemma rational_gt (a b : Q) : numGt a b = true ↔ (b < a)%Q.
Proof.
  cbn. rewrite negb_true_iff. split.
  - intros Hle. apply Qnot_le_lt. intros Hab%Qle_bool_iff. congruence.
  - intros Hlt. destruct (Qle_bool a b) eqn:Hab; [|done].
    apply Qle_bool_iff in Hab. by apply Qlt_not_le in Hlt.
Qed.

Lemma rational_le (a b : Q) : numGt a b = false ↔ (a <= b)%Q.
Proof. cbn. by rewrite negb_false_iff, Qle_bool_iff. Qed.

Lemma scoreQ_add (a b : Q) : scoreQ a → scoreQ b → scoreQ (numAdd a b).
Proof.
  unfold scoreQ. intros Ha Hb. cbn. change 0%Q with (0 + 0)%Q.
  by apply Qplus_le_compat.
Qed.

Lemma scoreQ_div (a : Q) (n : Z) :
  scoreQ a → 0 < n ≤ countLimit → scoreQ (numDiv a (numOf n)).
Proof.
  unfold scoreQ. intros Ha Hn. cbn. apply Qle_shift_div_l.
  - change 0%Q with (inject_Z 0). rewrite <- Zlt_Qlt. lia.
  - by rewrite Qmult_0_l.
Qed.

Lemma rational_gt_trans (a b c : Q) :
  scoreQ a → scoreQ b → scoreQ c →
  numGt a b = true → numGt b c = true → numGt a c = true.
Proof.
  intros _ _ _ Hab%rational_gt Hbc%rational_gt. apply rational_gt.
  by eapply Qlt_trans.
Qed.

Lemma rational_gt_false_trans (a b c : Q) :
  scoreQ a → scoreQ b → scoreQ c →
  numGt a b = false → numGt b c = false → numGt a c = false.
Proof.
  intros _ _ _ Hab%rational_le Hbc%rational_le. apply rational_le.
  by eapply Qle_trans.
Qed.

(** Exact rationals have the laws. *)
#[global] Instance rational_laws : NumberLaws Q := {|
  isScore := scoreQ;
  isScore_0 := Qle_refl 0;
  isScore_unit a Ha := proj1 (proj1 (in_unit_rational a) Ha);
  isScore_add := scoreQ_add;
  isScore_div := scoreQ_div;
  isScore_nonneg a Ha := proj2 (rational_le (numOf 0) a) Ha;
  numGt_irrefl a := proj2 (rational_le a a) (Qle_refl a);
  numGt_trans := rational_gt_trans;
  numGt_false_trans := rational_gt_false_trans
|}.

(** ** binary64 *)

Module Binary64.
Import SpecFloat.










(** *** Counts as doubles *)

Abbreviation digits p := (Z.pos (digits2_pos p)).










(** In binary64 no number is greater than itself, NaN included. *)
Lemma binary64_gt_irrefl (a : PrimFloat.float) : numGt a a = false.
Proof.
  cbn. rewrite FloatAxioms.ltb_spec. unfold SFltb.
  destruct (FloatOps.Prim2SF a) as [[]|[]| |[] m e]; cbn; try done.
  - change (PosDef.Pos.compare_cont Eq m m) with (m ?= m)%positive.
    by rewrite Z.compare_refl, Pos.compare_refl.
  - change (PosDef.Pos.compare_cont Eq m m) with (m ?= m)%positive.
    by rewrite Z.compare_refl, Pos.compare_refl.
Qed.


End Binary64.








(** ** What [undoLastMove] discards *)

Lemma length_pop {A} (l : list A) : length (pop l) = (length l - 1)%nat.
Proof. unfold pop. rewrite length_take. lia. Qed.

Lemma iter_pop {A} (n : nat) (l : list A) :
  Nat.iter n pop l = take (length l - n) l.
Proof.
  induction n as [|n IH].
  - cbn. by rewrite Nat.sub_0_r, firstn_all.
  - change (Nat.iter (S n) pop l) with (pop (Nat.iter n pop l)).
    rewrite IH. unfold pop. rewrite take_take, length_take. f_equal. lia.
Qed.

(** The history after the removal loop and the pop that follows it: the
    records before the last human record, less one. *)
Lemma undo_discards {A} (h : list A) (idx : nat) :
  (idx < length h)%nat →
  pop (Nat.iter (length h - idx) pop h) = take (idx - 1) h.
Proof.
  intros Hidx. rewrite iter_pop. unfold pop.
  rewrite take_take, length_take. f_equal. lia.
Qed.

Lemma lastHumanMoveIndex_last h r :
  mr_player r = HUMAN →
  lastHumanMoveIndex (h ++ [r]) (length (h ++ [r])) = Some (length h).
Proof.
  intros Hr. rewrite length_app, Nat.add_1_r. cbn.
  rewrite lookup_app_r, Nat.sub_diag by done. cbn.
  by rewrite bool_decide_true.
Qed.

Lemma lastHumanMoveIndex_skip h r :
  mr_player r = AI →
  lastHumanMoveIndex (h ++ [r]) (length (h ++ [r]))
  = lastHumanMoveIndex (h ++ [r]) (length h).
Proof.
  intros Hr. rewrite length_app, Nat.add_1_r. cbn.
  rewrite lookup_app_r, Nat.sub_diag by done. cbn.
  rewrite bool_decide_false; [done|]. by rewrite Hr.
Qed.

(** ** The session after an accepted move *)

Lemma moveHistory_afterCheck g hp ap :
  moveHistory (afterCheck g hp ap) = moveHistory g.
Proof. unfold afterCheck. by repeat case_bool_decide. Qed.

Lemma makeHumanMove_Ok gameId row col e g1 e1 :
  makeHumanMove gameId row col e = (Ok g1, e1) →
  ∃ game hp ap,
    activeGames e !! gameId = Some game
    ∧ gamePhase game = playing ∧ currentPlayer game = HUMAN
    ∧ humanPos game = Some hp ∧ aiPos game = Some ap
    ∧ (row, col) ∈ legalCells (board game) hp
    ∧ g1 = set_currentPlayer AI
             (afterCheck (applyMove HUMAN (row, col) game) (row, col) ap)
    ∧ activeGames e1 !! gameId = Some g1.
Proof.
  unfold makeHumanMove, on_game. run_monad.
  destruct (activeGames e !! gameId) as [game|]; [|discriminate].
  case_bool_decide as Hph; cbn; [|discriminate].
  case_bool_decide as Hcp; cbn; [|discriminate].
  destruct (humanPos game) as [hp|] eqn:Hhp; cbn; [|discriminate].
  destruct (getValidMoves _ _) as [validMoves|] eqn:Hvalid; cbn;
    [|discriminate].
  apply getValidMoves_Ok in Hvalid as ->.
  destruct (existsb _ _) eqn:Hmove; cbn; [|discriminate].
  destruct (movePlayer _ _ _ _) as [[[]|err] w'] eqn:Hrun; cbn;
    [|discriminate].
  destruct (recordMove _ _ _ _ _); cbn; [|discriminate].
  intros [= <- <-].
  apply movePlayer_Ok, checkGameEnd_Ok in Hrun
    as (hp' & ap & [= <-] & Hap & ->). cbn in Hap.
  exists game, hp, ap. cbn. rewrite lookup_insert_eq. split_and!; try done.
  apply existsb_exists in Hmove as ([r c] & Hin & Heq). cbn in Heq.
  assert (r = row ∧ c = col) as [-> ->] by lia. by apply list_elem_of_In.
Qed.

Lemma makeAIMove_Ok `{Number T} cfg clock nn
    (learned : nat → Board → Learned T) fuel gameId e game g1 e1 :
  activeGames e !! gameId = Some game →
  legalMovesOf game AI ≠ [] →
  makeAIMove cfg clock nn learned fuel gameId e = Some (Ok g1, e1) →
  ∃ hp ap bestMove,
    gamePhase game = playing ∧ currentPlayer game = AI
    ∧ humanPos game = Some hp ∧ aiPos game = Some ap
    ∧ bestMove ∈ legalCells (board game) ap
    ∧ g1 = set_currentPlayer HUMAN
             (afterCheck (applyMove AI bestMove game) hp bestMove)
    ∧ activeGames e1 !! gameId = Some g1.
Proof.
  intros Hgame Hmoves. unfold makeAIMove, on_game. rewrite Hgame.
  case_bool_decide as Hph; cbn; [|discriminate].
  case_bool_decide as Hcp; cbn; [|discriminate].
  unfold legalMovesOf, positionOf in Hmoves. run_monad.
  destruct (aiPos game) as [ap|] eqn:Hap; cbn; [|discriminate].
  destruct (getValidMoves _ _) as [validMoves|] eqn:Hvalid; cbn;
    [|discriminate].
  apply getValidMoves_Ok in Hvalid as ->.
  rewrite bool_decide_false by by rewrite length_zero_iff_nil.
  destruct (enhancedMCTS _ _ _ _ _ _ _ _) as [[[bestMove|]|err]|] eqn:Hbest;
    [| |discriminate..].
  2:{ destruct (write_cell _ _ _); cbn; discriminate. }
  destruct (movePlayer _ _ _ _) as [[[]|err] w'] eqn:Hrun; cbn;
    [|discriminate].
  destruct (recordMove _ _ _ _ _); cbn; [|discriminate].
  intros [= <- <-].
  apply movePlayer_Ok, checkGameEnd_Ok in Hrun
    as (hp & ap' & Hhp & [= <-] & ->). cbn in Hhp.
  exists hp, ap, bestMove. cbn. rewrite lookup_insert_eq.
  split_and!; try done.
  revert Hbest. unfold enhancedMCTS.
  destruct (sample _ _ _ _ _ _ _ _) as [[s|]|]; [|discriminate..].
  by intros [= Hsel%selectBest_elem].
Qed.

(** ** Claims C2 and C3: how far the defect reaches *)

(** Whatever the first human move after the initial placement is, undoing
    it resets the session. *)
Lemma undo_of_first_move_resets gameId row col e game g1 e1 g2 e2 :
  activeGames e !! gameId = Some game →
  moveHistory game = [] →
  makeHumanMove gameId row col e = (Ok g1, e1) →
  undoLastMove gameId e1 = (Ok g2, e2) →
  gamePhase g2 = starting ∧ board g2 = initializeBoard
  ∧ humanPos g2 = None ∧ aiPos g2 = None.
Proof.
  intros Hgame Hnil (game' & hp & ap & Hgame' & _ & _ & Hhp & _ & _ & -> & Hg1)
    %makeHumanMove_Ok.
  assert (game' = game) as -> by congruence.
  unfold undoLastMove, on_game. run_monad. rewrite Hg1. cbn.
  rewrite moveHistory_afterCheck. cbn. rewrite Hnil. cbn.
  case_bool_decide; cbn; [discriminate|].
  unfold positionOf. rewrite Hhp. cbn.
  by intros [= <- <-].
Qed.

(** Whatever the first human move and the software agent's answer are,
    undoing resets the session as well. *)
Lemma undo_of_first_exchange_resets `{Number T} cfg clock nn
    (learned : nat → Board → Learned T) fuel gameId row col
    e game g1 e1 g2 e2 g3 e3 :
  activeGames e !! gameId = Some game →
  moveHistory game = [] →
  makeHumanMove gameId row col e = (Ok g1, e1) →
  legalMovesOf g1 AI ≠ [] →
  makeAIMove cfg clock nn learned fuel gameId e1 = Some (Ok g2, e2) →
  undoLastMove gameId e2 = (Ok g3, e3) →
  gamePhase g3 = starting ∧ board g3 = initializeBoard
  ∧ humanPos g3 = None ∧ aiPos g3 = None.
Proof.
  intros Hgame Hnil Hhuman Hmoves Hai.
  apply makeHumanMove_Ok in Hhuman
    as (game' & hp & ap & Hgame' & _ & _ & Hhp & _ & _ & Hg1eq & Hg1).
  assert (game' = game) as -> by congruence.
  eapply makeAIMove_Ok in Hai
    as (hp1 & ap1 & bestMove & _ & _ & _ & Hap1 & _ & -> & Hg2); [|done..].
  assert (Hhist : moveHistory g1 =
            [ {| mr_player := HUMAN; mr_from := Some hp; mr_to := (row, col);
                 mr_board := board (applyMove HUMAN (row, col) game) |} ]).
  { rewrite Hg1eq. cbn. rewrite moveHistory_afterCheck. cbn.
    unfold positionOf. by rewrite Hnil, Hhp. }
  unfold undoLastMove, on_game. run_monad. rewrite Hg2. cbn.
  rewrite moveHistory_afterCheck. cbn. rewrite Hhist. cbn.
  case_bool_decide; cbn; [discriminate|].
  by intros [= <- <-].
Qed.

(** Two boards of the grid's shape with the same cells are the same board. *)
Lemma board_ext b1 b2 :
  wf_board b1 → wf_board b2 →
  (∀ r c, isValidPosition r c = true → cell_at b1 r c = cell_at b2 r c) →
  b1 = b2.
Proof.
  intros [Hlen1 Hrows1] [Hlen2 Hrows2] Hcells. unfold BOARD_SIZE in *.
  apply list_eq_same_length with (Z.to_nat 7); [done..|].
  intros i row1 row2 Hi Hrow1 Hrow2.
  rewrite Forall_forall in Hrows1, Hrows2.
  pose proof (Hrows1 row1 (list_elem_of_lookup_2 _ _ _ Hrow1)) as Hl1.
  pose proof (Hrows2 row2 (list_elem_of_lookup_2 _ _ _ Hrow2)) as Hl2.
  apply list_eq_same_length with (Z.to_nat 7); [done..|].
  intros j x y Hj Hx Hy.
  assert (Hv : isValidPosition (Z.of_nat i) (Z.of_nat j) = true).
  { apply isValidPosition_spec. unfold BOARD_SIZE. lia. }
  specialize (Hcells _ _ Hv). unfold cell_at in Hcells.
  replace ((0 <=? Z.of_nat i) && (0 <=? Z.of_nat j)) with true in Hcells by lia.
  rewrite !Nat2Z.id, Hrow1, Hrow2 in Hcells. cbn in Hcells. congruence.
Qed.

Lemma pop_snoc {A} (l : list A) x : pop (l ++ [x]) = l.
Proof.
  unfold pop. rewrite length_app, Nat.add_1_r. cbn.
  rewrite Nat.sub_0_r. by rewrite take_app_length.
Qed.

(** Where the history held at least two records before the move, and the
    human's marker stands on the human's cell, move then undo does restore
    the board, both positions, the phase and the side to act; the history
    comes back one record shorter than it was. *)
Lemma move_undo_round_trip gameId row col e game hp g1 e1 g2 e2 :
  activeGames e !! gameId = Some game →
  wf_board (board game) →
  humanPos game = Some hp → valid hp →
  cell_at (board game) hp.1 hp.2 = Some (Mark HUMAN) →
  (2 ≤ length (moveHistory game))%nat →
  makeHumanMove gameId row col e = (Ok g1, e1) →
  undoLastMove gameId e1 = (Ok g2, e2) →
  board g2 = board game ∧ humanPos g2 = humanPos game
  ∧ aiPos g2 = aiPos game ∧ gamePhase g2 = gamePhase game
  ∧ currentPlayer g2 = currentPlayer game
  ∧ moveHistory g2 = pop (moveHistory game).
Proof.
  intros Hgame Hwf Hhp Hvhp Hcell Hlen
    (game' & hp' & ap & Hgame' & Hph & Hcp & Hhp' & Hap & Hlegal & Hg1eq & Hg1)
    %makeHumanMove_Ok.
  assert (game' = game) as -> by congruence.
  assert (hp' = hp) as -> by congruence.
  apply elem_of_legalCells in Hlegal as (_ & Hvto & Hempty). cbn in Hempty.
  set (b1 := set_cell (set_cell (board game) hp BLOCKED) (row, col) (Mark HUMAN)).
  set (r := {| mr_player := HUMAN; mr_from := Some hp; mr_to := (row, col);
               mr_board := b1 |}).
  assert (Hhist : moveHistory g1 = moveHistory game ++ [r]).
  { rewrite Hg1eq. cbn. rewrite moveHistory_afterCheck. cbn.
    unfold positionOf. by rewrite Hhp. }
  assert (Hboard : board g1 = b1).
  { rewrite Hg1eq. unfold afterCheck. cbn.
    repeat case_bool_decide; cbn; unfold positionOf; by rewrite Hhp. }
  assert (Hai : aiPos g1 = aiPos game).
  { rewrite Hg1eq. unfold afterCheck. cbn. by repeat case_bool_decide. }
  assert (Hwf1 : wf_board b1) by by do 2 apply wf_board_set_cell.
  assert (Hphase : gamePhase g1 = ended ∨ gamePhase g1 = playing).
  { rewrite Hg1eq. unfold afterCheck. cbn.
    repeat case_bool_decide; cbn; auto. }
  clear Hg1eq. unfold undoLastMove, on_game. run_monad. rewrite Hg1. cbn.
  case_bool_decide as Hended; cbn; [discriminate|].
  destruct Hphase as [?| Hphase]; [done|].
  rewrite Hhist, lastHumanMoveIndex_last by done.
  rewrite bool_decide_false by (rewrite length_app; cbn; lia).
  rewrite lookup_app_r, Nat.sub_diag by done. cbn [lookup list_lookup].
  replace (length (moveHistory game ++ [r]) - length (moveHistory game))%nat
    with 1%nat by (rewrite length_app; cbn; lia).
  cbn. rewrite pop_snoc.
  rewrite bool_decide_false by (rewrite length_pop; lia). cbn.
  rewrite Hboard.
  rewrite (write_cell_wf b1) by done. cbn.
  rewrite write_cell_wf by (done || by apply wf_board_set_cell). cbn.
  intros [= <- <-]. cbn. rewrite Hai, Hphase, Hph, Hcp, Hhp.
  split_and!; try done.
  apply board_ext; [by do 2 apply wf_board_set_cell|done|].
  intros r0 c0 Hv0.
  assert (Hne : (row, col) ≠ hp).
  { intros <-. cbn in Hcell. congruence. }
  destruct (decide (hp = (r0, c0))) as [->|Hnhp].
  { rewrite (cell_at_set_cell_eq _ (r0, c0)); [done|].
    by apply cell_at_wf; [apply wf_board_set_cell|]. }
  rewrite cell_at_set_cell_ne by done.
  destruct (decide ((row, col) = (r0, c0))) as [[= <- <-]|Hnto].
  { rewrite (cell_at_set_cell_eq _ (row, col)); [done|].
    by apply cell_at_wf. }
  rewrite cell_at_set_cell_ne by done.
  unfold b1. by rewrite !cell_at_set_cell_ne by done.
Qed.

(** ** Claim C5: what [isTrapAttempt] tests *)

Lemma elem_of_allCells p : p ∈ allCells ↔ isValidPosition p.1 p.2 = true.
Proof.
  destruct p as [r c]. rewrite isValidPosition_spec. unfold allCells, BOARD_SIZE.
  cbn [fst snd]. rewrite list_elem_of_bind. split.
  - intros (r' & (c' & Hin & Hc)%list_elem_of_bind & Hr).
    apply list_elem_of_singleton in Hin as [= -> ->].
    rewrite elem_of_seqZ in Hc, Hr. lia.
  - intros [Hr Hc]. exists r. split; [|rewrite elem_of_seqZ; lia].
    apply list_elem_of_bind. exists c. split; [by apply list_elem_of_singleton|].
    rewrite elem_of_seqZ. lia.
Qed.

(** [isTrapAttempt] answers [true] exactly when some cell of the grid holds
    the software agent's marker within Manhattan distance 2 of the move;
    whether the move is an edge cell plays no part. *)
Lemma isTrapAttempt_spec move b :
  isTrapAttempt move b = true ↔
  ∃ p : Pos, valid p ∧ cell_at b p.1 p.2 = Some (Mark AI)
             ∧ Z.abs (move.1 - p.1) + Z.abs (move.2 - p.2) <= 2.
Proof.
  unfold isTrapAttempt, valid. cbn zeta. rewrite existsb_exists. split.
  - intros (p & Hin%list_elem_of_In%elem_of_allCells & Hp).
    apply andb_true_iff in Hp as [Hcell%bool_decide_eq_true Hd].
    exists p. split_and!; [done..|lia].
  - intros (p & Hv & Hcell & Hd). exists p. split.
    + by apply list_elem_of_In, elem_of_allCells.
    + rewrite bool_decide_true by done. cbn. lia.
Qed.

(** The trap-attempt table after a human move is recorded: one more under
    the destination's key when [isTrapAttempt] holds, untouched otherwise. *)
Lemma recordMove_trapAttempts gameId move b er er' :
  recordMove gameId HUMAN move b er = Ok er' →
  trapAttempts (humanPatterns er') =
  if isTrapAttempt move b
  then bump (encodeTrapPattern move b) (trapAttempts (humanPatterns er))
  else trapAttempts (humanPatterns er).
Proof.
  unfold recordMove. destruct (determineGamePhase b); cbn; [|discriminate].
  by intros [= <-].
Qed.

(** ** The statements at concrete sessions *)

Lemma sevenMovesGame_inv :
  game_inv sevenMovesGame ∧ gamePhase sevenMovesGame = playing
  ∧ sevenMoves ≠ [] ∧ Forall valid sevenMoves.
Proof.
  split_and!; [|reflexivity|by vm_compute|apply legalCells_valid].
  unfold game_inv. split_and!.
  - vm_compute. split; [reflexivity|repeat constructor].
  - vm_compute. repeat constructor. by eexists.
  - vm_compute. by exists (1, 1), (3, 3).
Qed.


Lemma placedEngine_reachable : reachable placedEngine.
Proof.
  apply reach_placeStartingPosition; [|by vm_compute..].
  apply reach_createGame, reach_init.
Qed.

(** C9 at the empty board and its centre. *)
Lemma getValidMoves_exact_witness :
  ∃ moves,
    getValidMoves initializeBoard (3, 3) = Ok moves
    ∧ NoDup moves
    ∧ (∀ r c : Z,
         (r, c) ∈ moves ↔
         Z.max (Z.abs (r - 3)) (Z.abs (c - 3)) = 1
         ∧ (0 ≤ r < 7 ∧ 0 ≤ c < 7)
         ∧ (initializeBoard !! Z.to_nat r) ≫= (λ row, row !! Z.to_nat c)
           = Some EMPTY)
    ∧ (∀ r c : Z,
         Z.max (Z.abs (r - 3)) (Z.abs (c - 3)) = 1 →
         0 ≤ r < 7 → 0 ≤ c < 7 →
         (r, c) ∉ moves →
         ∃ x, (initializeBoard !! Z.to_nat r) ≫= (λ row, row !! Z.to_nat c)
              = Some x
              ∧ x ≠ EMPTY).
Proof.
  apply (getValidMoves_exact initializeBoard (3, 3)).
  vm_compute. split; [reflexivity|repeat constructor].
Defined.

(** C1 at the first human move of a game. *)
Lemma committed_move_witness :
  match makeHumanMove "g" 1 1 placedEngine with
  | (Ok g', _) => ends_iff_a_side_stuck g'
  | (Throw _, _) => False
  end.
Proof.
  destruct (makeHumanMove "g" 1 1 placedEngine) as [[g'|err] e'] eqn:Hrun.
  - exact (proj1 committed_move_ends_iff_a_side_stuck _ _ _ _ _ _ Hrun).
  - vm_compute in Hrun. discriminate Hrun.
Defined.

(** C6 at a human move to a cell that is not adjacent. *)
Lemma failed_call_witness :
  reachable placedEngine
  ∧ (makeHumanMove "g" 5 5 placedEngine).1 = Throw InvalidMove
  ∧ (makeHumanMove "g" 5 5 placedEngine).2 = placedEngine.
Proof.
  split; [exact placedEngine_reachable|]. split; [by vm_compute|].
  apply (proj1 (proj2 (failed_call_leaves_engine_unchanged placedEngine
                         placedEngine_reachable)) "g" 5 5 InvalidMove).
  vm_compute. reflexivity.
Defined.

(** C4 at the session with seven candidates, default limits, in
    binary64. *)
Lemma sampling_budget_witness :
  ∃ s, sample (T := PrimFloat.float) defaultConfig steadyClock notLoaded
              noAnswer 201 sevenMovesGame (gameStats sevenMovesEngine)
              sevenMoves = Some (Ok s)
       ∧ Z.of_nat (calls s) < 200 + 7.
Proof.
  destruct sevenMovesGame_inv as (Hinv & Hplaying & Hcandidates & Hvalid).
  destruct (proj2 (proj2 (sampling_budget PrimFloat.float binary64
              defaultConfig steadyClock notLoaded
              noAnswer sevenMovesGame (gameStats sevenMovesEngine) sevenMoves
              Hinv Hplaying Hcandidates Hvalid)) 201%nat)
    as (s & Hs & _ & _ & Hlt); [vm_compute; lia|].
  exists s. split; [exact Hs|]. apply Hlt. reflexivity.
Defined.


(** C10 after four moves: the undo takes the human back from (1,2) to
    (1,1); the cell (2,3) vacated by the software agent's discarded move is
    still Blocked and its marker is still at (1,3). *)
Lemma undo_frame_witness :
  match undoLastMove "g" fourMovesEngine with
  | (Ok g', _) =>
    moveHistory g' ≠ []
    ∧ humanPos g' = Some (1, 1)
    ∧ aiPos g' = Some (1, 3)
    ∧ cell_at (board g') 2 3 = Some BLOCKED
    ∧ cell_at (board g') 1 3 = Some (Mark AI)
  | (Throw _, _) => False
  end.
Proof.
  destruct (activeGames fourMovesEngine !! "g") as [game|] eqn:Hgame;
    [|vm_compute in Hgame; discriminate Hgame].
  destruct (undoLastMove "g" fourMovesEngine) as [[g'|err] e'] eqn:Hundo;
    [|vm_compute in Hundo; discriminate Hundo].
  assert (Hkeep : moveHistory g' ≠ [] ∧ humanPos g' = Some (1, 1)).
  { vm_compute in Hundo. injection Hundo as <- _. by split. }
  destruct Hkeep as [Hkeep Hhuman].
  destruct (undo_frame _ _ _ _ _ Hgame Hundo Hkeep)
    as (idx & m & Hidx & Hm & _ & _ & Hai & Hframe & _).
  vm_compute in Hgame. injection Hgame as <-.
  vm_compute in Hidx. injection Hidx as <-.
  vm_compute in Hm. injection Hm as <-.
  split_and!; [done..|by rewrite Hai| |].
  - rewrite Hframe; [reflexivity|discriminate..].
  - rewrite Hframe; [reflexivity|discriminate..].
Defined.
(** ** The lifecycle methods, case by case *)

(** [placeStartingPosition] on an engine whose sessions satisfy the
    invariant. *)
Lemma placeStartingPosition_cases rnd gameId row col e :
  (0 <= rnd)%Q → (rnd < 1)%Q → engine_inv e →
  match activeGames e !! gameId with
  | None =>
    placeStartingPosition rnd gameId row col e = (Throw InvalidGameState, e)
  | Some game =>
    if bool_decide (gamePhase game = starting) then
      if bool_decide (0 ≤ row < 7) then
        if bool_decide (0 ≤ col < 7) then
          ∃ ap,
            (if bool_decide ((row, col) = center)
             then ap ∈ legalCells
                        (set_cell initializeBoard center (Mark HUMAN)) center
             else ap = center)
            ∧ placeStartingPosition rnd gameId row col e
              = (Ok (placed (row, col) ap game),
                 withSession gameId (placed (row, col) ap game)
                             (gameStats e) (experienceReplay e) e)
        else
          placeStartingPosition rnd gameId row col e
          = (Throw PositionOccupied, e)
      else placeStartingPosition rnd gameId row col e = (Throw TypeError, e)
    else
      placeStartingPosition rnd gameId row col e = (Throw InvalidGameState, e)
  end.
Proof.
  intros H0 H1 Hinv. unfold placeStartingPosition, on_game. run_monad.
  destruct (activeGames e !! gameId) as [game|] eqn:Hgame; [|done].
  case_bool_decide as Hph; cbn; [|done].
  destruct (Hinv _ _ Hgame) as (Hwf & Hhist & Hstart).
  rewrite Hph in Hstart. destruct Hstart as [Hboard Hnil].
  rewrite Hboard in *.
  case_bool_decide as Hrow.
  2:{ unfold read_cell, row_at.
      destruct (0 <=? row) eqn:Hr; [|done].
      rewrite lookup_ge_None_2; [done|]. apply Z.leb_le in Hr.
      change (length initializeBoard) with 7%nat. lia. }
  case_bool_decide as Hcol.
  2:{ assert (Hread : read_cell initializeBoard row col = Ok None).
      { unfold read_cell, row_at. replace (0 <=? row) with true by lia.
        destruct (lookup_lt_is_Some_2 initializeBoard (Z.to_nat row))
          as [r Hr]; [change (length initializeBoard) with 7%nat; lia|].
        rewrite Hr. f_equal. destruct (0 <=? col) eqn:Hc; [|done].
        apply lookup_ge_None_2.
        destruct Hwf as [_ Hrows]. rewrite Forall_forall in Hrows.
        rewrite (Hrows r) by (by eapply list_elem_of_lookup_2).
        apply Z.leb_le in Hc. change (Z.to_nat BOARD_SIZE) with 7%nat. lia. }
      rewrite Hread. cbn.
      rewrite (bool_decide_false (None = Some EMPTY)) by done.
      done. }
  assert (Hrc : valid (row, col)).
  { apply isValidPosition_spec. unfold BOARD_SIZE. cbn. lia. }
  rewrite (read_cell_wf initializeBoard) by done. cbn.
  assert (Hempty : cell_at initializeBoard row col = Some EMPTY).
  { destruct (cell_at_wf initializeBoard row col Hwf Hrc) as [x Hx].
    rewrite Hx. f_equal. revert Hx. unfold cell_at, initializeBoard.
    replace ((0 <=? row) && (0 <=? col)) with true by lia. cbn.
    intros Hx. apply bind_Some in Hx as (r & Hr & Hx).
    apply lookup_replicate in Hr as [-> _].
    by apply lookup_replicate in Hx as [-> _]. }
  rewrite Hempty, (bool_decide_true (Some EMPTY = Some EMPTY)) by done. cbn.
  rewrite (write_cell_wf initializeBoard) by done. cbn.
  set (b1 := set_cell initializeBoard (row, col) (Mark HUMAN)).
  assert (Hwf1 : wf_board b1) by by apply wf_board_set_cell.
  rewrite (read_cell_wf b1) by done. cbn.
  destruct (decide ((row, col) = center)) as [Hcenter|Hcenter].
  - injection Hcenter as -> ->.
    rewrite (bool_decide_true ((3, 3) = center)) by done.
    rewrite (bool_decide_false (cell_at b1 _ _ = Some EMPTY)) by done.
    rewrite getValidMoves_wf by done. cbn.
    change (legalCells b1 center) with
      [(2, 3); (4, 3); (3, 2); (3, 4); (2, 2); (2, 4); (4, 2); (4, 4)].
    cbn [length bool_decide decide_rel].
    rewrite (bool_decide_true (0 < 8)%nat) by lia.
    destruct (random_index rnd 8 H0 H1) as [Hi0 Hi8]; [lia|].
    change (Z.of_nat 8) with 8.
    replace (0 <=? Qfloor (rnd * inject_Z 8)) with true by lia.
    destruct (lookup_lt_is_Some_2
                [(2, 3); (4, 3); (3, 2); (3, 4); (2, 2); (2, 4); (4, 2); (4, 4)]
                (Z.to_nat (Qfloor (rnd * inject_Z 8)))) as [randomMove Hrm];
      [cbn [length]; lia|].
    rewrite Hrm. cbn.
    assert (Hvr : valid randomMove).
    { apply list_elem_of_lookup_2 in Hrm. revert randomMove Hrm.
      apply Forall_forall. compute_done. }
    rewrite (write_cell_wf b1) by done. cbn.
    exists randomMove. split; [by eapply list_elem_of_lookup_2|].
    done.
  - rewrite (bool_decide_false ((row, col) = center)) by done.
    rewrite (bool_decide_true (cell_at b1 _ _ = Some EMPTY)).
    2:{ unfold b1. by rewrite cell_at_set_cell_ne. }
    rewrite (write_cell_wf b1) by (done || apply valid_center). cbn.
    exists center. split; [done|].
    done.
Qed.

(** [checkGameEnd] in full: the session and the statistics it leaves. *)
Lemma checkGameEnd_run w hp ap :
  wf_board (board (w_game w)) →
  humanPos (w_game w) = Some hp → aiPos (w_game w) = Some ap →
  gamePhase (w_game w) = playing →
  checkGameEnd w
  = (Ok tt, {| w_game := afterCheck (w_game w) hp ap;
               w_stats := statsAfter (afterCheck (w_game w) hp ap)
                                     (w_stats w) |}).
Proof.
  destruct w as [g st]. cbn. intros Hwf Hhp Hap Hph.
  unfold checkGameEnd, afterCheck, statsAfter, endGame, countGame. run_monad.
  rewrite Hhp, Hap. cbn. rewrite !getValidMoves_wf by done. cbn.
  repeat case_bool_decide; cbn; rewrite ?Hph; [| |done];
    by destruct (isSimulation g).
Qed.

(** [makeHumanMove] on an engine whose sessions satisfy the invariant. *)
Lemma makeHumanMove_cases gameId row col e :
  engine_inv e →
  match activeGames e !! gameId with
  | None => makeHumanMove gameId row col e = (Throw InvalidMove, e)
  | Some game =>
    if bool_decide (gamePhase game = playing ∧ currentPlayer game = HUMAN
                    ∧ (row, col) ∈ legalMovesOf game HUMAN)
    then
      ∃ ap er',
        aiPos game = Some ap
        ∧ let g1 := set_currentPlayer AI
                      (afterCheck (applyMove HUMAN (row, col) game)
                                  (row, col) ap) in
          recordMove gameId HUMAN (row, col) (board g1) (experienceReplay e)
          = Ok er'
          ∧ makeHumanMove gameId row col e
            = (Ok g1, withSession gameId g1 (statsAfter g1 (gameStats e))
                                  er' e)
    else makeHumanMove gameId row col e = (Throw InvalidMove, e)
  end.
Proof.
  intros Hinv. unfold makeHumanMove, on_game. run_monad.
  destruct (activeGames e !! gameId) as [game|] eqn:Hgame; [|done].
  destruct (decide (gamePhase game = playing)) as [Hph|Hph].
  2:{ rewrite (bool_decide_false (gamePhase game = playing)) by done. cbn.
      rewrite bool_decide_false by tauto. done. }
  rewrite (bool_decide_true (gamePhase game = playing)) by done. cbn.
  destruct (decide (currentPlayer game = HUMAN)) as [Hcp|Hcp].
  2:{ rewrite (bool_decide_false (currentPlayer game = HUMAN)) by done. cbn.
      rewrite bool_decide_false by tauto. done. }
  rewrite (bool_decide_true (currentPlayer game = HUMAN)) by done. cbn.
  pose proof (Hinv _ _ Hgame) as Hgame_inv.
  assert (Hns : gamePhase game ≠ starting) by (by rewrite Hph).
  destruct (game_inv_positions game Hgame_inv Hns)
    as (hp & ap & Hhp & Hap & Hvh & Hva).
  unfold legalMovesOf, positionOf. rewrite Hhp. cbn.
  rewrite getValidMoves_wf by apply Hgame_inv. cbn.
  destruct (existsb _ _) eqn:Hmove; cbn.
  2:{ rewrite bool_decide_false; [done|]. intros (_ & _ & Hin).
      apply not_true_iff_false in Hmove. apply Hmove.
      apply existsb_exists. exists (row, col).
      split; [by apply list_elem_of_In|]. cbn. lia. }
  assert (Hlegal : (row, col) ∈ legalCells (board game) hp).
  { apply existsb_exists in Hmove as ([r c] & Hin & Heq). cbn in Heq.
    assert (r = row ∧ c = col) as [-> ->] by lia. by apply list_elem_of_In. }
  rewrite bool_decide_true by done.
  apply elem_of_legalCells in Hlegal as (_ & Hvalid & _).
  rewrite (movePlayer_wf HUMAN (row, col) false); cbn;
    [|apply Hgame_inv|congruence|done].
  pose proof (game_inv_applyMove HUMAN (row, col) _ Hgame_inv Hns Hvalid)
    as Hinv'.
  rewrite (checkGameEnd_run _ (row, col) ap); [|apply Hinv'|done..]. cbn.
  set (g1 := afterCheck _ _ _).
  destruct (recordMove_wf gameId HUMAN (row, col) (board g1)
              (experienceReplay e)) as [er' Her'].
  { by apply game_inv_afterCheck. }
  exists ap, er'. split; [done|]. split; [done|]. rewrite Her'. cbn.
  unfold withSession, statsAfter. done.
Qed.

(** [makeAIMove], whenever the search has come to an end. *)
Lemma makeAIMove_cases `{Number T} cfg clock nn
    (learned : nat → Board → Learned T) fuel gameId e r e' :
  engine_inv e →
  makeAIMove cfg clock nn learned fuel gameId e = Some (r, e') →
  match activeGames e !! gameId with
  | None => r = Throw InvalidAIMove ∧ e' = e
  | Some game =>
    if bool_decide (gamePhase game = playing ∧ currentPlayer game = AI) then
      if bool_decide (legalMovesOf game AI = []) then
        let g1 := set_winner (Some HUMAN) (set_gamePhase ended game) in
        r = Ok g1
        ∧ e' = withSession gameId g1 (statsAfter g1 (gameStats e))
                           (experienceReplay e) e
      else
        ∃ hp bestMove er',
          humanPos game = Some hp ∧ bestMove ∈ legalMovesOf game AI
          ∧ let g1 := set_currentPlayer HUMAN
                        (afterCheck (applyMove AI bestMove game) hp bestMove) in
            recordMove gameId AI bestMove (board g1) (experienceReplay e)
            = Ok er'
            ∧ r = Ok g1
            ∧ e' = withSession gameId g1 (statsAfter g1 (gameStats e)) er' e
    else r = Throw InvalidAIMove ∧ e' = e
  end.
Proof.
  intros Hinv. unfold makeAIMove, on_game.
  destruct (activeGames e !! gameId) as [game|] eqn:Hgame;
    [|by intros [= <- <-]].
  destruct (decide (gamePhase game = playing)) as [Hph|Hph].
  2:{ rewrite (bool_decide_false (gamePhase game = playing)) by done. cbn.
      rewrite bool_decide_false by tauto. by intros [= <- <-]. }
  rewrite (bool_decide_true (gamePhase game = playing)) by done. cbn.
  destruct (decide (currentPlayer game = AI)) as [Hcp|Hcp].
  2:{ rewrite (bool_decide_false (currentPlayer game = AI)) by done. cbn.
      rewrite bool_decide_false by tauto. by intros [= <- <-]. }
  rewrite (bool_decide_true (currentPlayer game = AI)) by done. cbn.
  rewrite (bool_decide_true (_ ∧ _)) by done.
  pose proof (Hinv _ _ Hgame) as Hgame_inv.
  assert (Hns : gamePhase game ≠ starting) by (by rewrite Hph).
  destruct (game_inv_positions game Hgame_inv Hns)
    as (hp & ap & Hhp & Hap & Hvh & Hva).
  unfold legalMovesOf, positionOf. rewrite Hap. run_monad.
  rewrite getValidMoves_wf by apply Hgame_inv. cbn.
  destruct (decide (legalCells (board game) ap = [])) as [Hnone|Hnone].
  - rewrite (bool_decide_true (legalCells _ _ = [])) by done.
    rewrite (bool_decide_true (length _ = 0%nat)) by (by rewrite Hnone).
    unfold endGame, statsAfter, countGame, withSession. run_monad.
    destruct (isSimulation game) eqn:Hsim; cbn; rewrite ?Hsim;
      by intros [= <- <-].
  - rewrite (bool_decide_false (legalCells _ _ = [])) by done.
    rewrite (bool_decide_false (length _ = 0%nat))
      by (by rewrite length_zero_iff_nil).
    destruct (enhancedMCTS _ _ _ _ _ _ _ _) as [[[bestMove|]|err]|] eqn:Hbest;
      [| | |discriminate].
    + assert (Hin : bestMove ∈ legalCells (board game) ap).
      { revert Hbest. unfold enhancedMCTS.
        destruct (sample _ _ _ _ _ _ _ _) as [[s|]|]; [|discriminate..].
        by intros [= Hsel%selectBest_elem]. }
      apply elem_of_legalCells in Hin as Hin'. destruct Hin' as (_ & Hvb & _).
      rewrite (movePlayer_wf AI bestMove false); cbn;
        [|apply Hgame_inv|congruence|done].
      pose proof (game_inv_applyMove AI bestMove _ Hgame_inv Hns Hvb)
        as Hinv'.
      rewrite (checkGameEnd_run _ hp bestMove); [|apply Hinv'|done..]. cbn.
      set (g1 := afterCheck _ _ _).
      destruct (recordMove_wf gameId AI bestMove (board g1)
                  (experienceReplay e)) as [er' Her'].
      { by apply game_inv_afterCheck. }
      rewrite Her'. cbn. intros [= <- <-].
      exists hp, bestMove, er'. done.
    + exfalso. revert Hbest. unfold enhancedMCTS.
      destruct (sample _ _ _ _ _ _ _ _) as [[s|]|]; [|discriminate..].
      intros [= Hsel].
      destruct (selectBest_is_Some s (legalCells (board game) ap)) as [b Hb];
        [done|congruence].
    + exfalso. revert Hbest.
      apply enhancedMCTS_no_throw; [done..|apply legalCells_valid].
Qed.

(** With [maxSimulations] rounds of fuel and one more the search comes to
    an end. *)
Lemma makeAIMove_total `{Number T} cfg clock nn
    (learned : nat → Board → Learned T) fuel gameId e :
  engine_inv e →
  (Z.to_nat (maxSimulations cfg) < fuel)%nat →
  ∃ r e', makeAIMove cfg clock nn learned fuel gameId e = Some (r, e').
Proof.
  intros Hinv Hfuel. unfold makeAIMove.
  destruct (activeGames e !! gameId) as [game|] eqn:Hgame; [|by eexists _, _].
  case_bool_decide as Hph; cbn; [|by eexists _, _].
  case_bool_decide as Hcp; cbn; [|by eexists _, _].
  pose proof (Hinv _ _ Hgame) as Hgame_inv.
  assert (Hns : gamePhase game ≠ starting) by (by rewrite Hph).
  destruct (game_inv_positions game Hgame_inv Hns)
    as (hp & ap & Hhp & Hap & Hvh & Hva).
  rewrite Hap. run_monad.
  rewrite getValidMoves_wf by apply Hgame_inv. cbn.
  case_bool_decide as Hnone.
  { match goal with
    | |- ∃ r e', Some ?x = _ => destruct x as [r0 e0]; by exists r0, e0
    end. }
  unfold enhancedMCTS.
  destruct (sample_budget cfg clock nn learned game (gameStats e)
              (legalCells (board game) ap) Hgame_inv Hph) with (fuel := fuel)
    as (s & -> & _); [| |done|].
  - intros Hnil. by rewrite Hnil in Hnone.
  - apply legalCells_valid.
  - destruct (selectBest _ _);
      match goal with
      | |- ∃ r e', Some ?x = _ => destruct x as [r0 e0]; by exists r0, e0
      end.
Qed.

(** [undoLastMove] on an engine whose sessions satisfy the invariant. *)
Lemma undoLastMove_cases gameId e :
  engine_inv e →
  match activeGames e !! gameId with
  | None => undoLastMove gameId e = (Throw GameNotFound, e)
  | Some game =>
    if bool_decide (gamePhase game = ended)
    then undoLastMove gameId e = (Throw CannotUndoEnded, e)
    else if bool_decide (moveHistory game = [])
    then undoLastMove gameId e = (Throw NoMovesToUndo, e)
    else
      match lastHumanMoveIndex (moveHistory game)
                               (length (moveHistory game)) with
      | None => undoLastMove gameId e = (Throw NoHumanMovesToUndo, e)
      | Some idx =>
        ∃ m from,
          moveHistory game !! idx = Some m ∧ mr_player m = HUMAN
          ∧ mr_from m = Some from
          ∧ let g1 := if bool_decide (idx ≤ 1)%nat then resetGame game
                      else takenBack idx m from game in
            undoLastMove gameId e
            = (Ok g1, withSession gameId g1 (gameStats e)
                                  (experienceReplay e) e)
      end
  end.
Proof.
  intros Hinv. unfold undoLastMove, on_game. run_monad.
  destruct (activeGames e !! gameId) as [game|] eqn:Hgame; [|done].
  case_bool_decide as Hph; cbn; [done|].
  destruct (decide (moveHistory game = [])) as [Hlen|Hlen].
  { rewrite (bool_decide_true (moveHistory game = [])) by done.
    rewrite (bool_decide_true (length _ = 0%nat)) by (by rewrite Hlen).
    done. }
  rewrite (bool_decide_false (moveHistory game = [])) by done.
  rewrite (bool_decide_false (length _ = 0%nat))
    by (by rewrite length_zero_iff_nil).
  cbn. destruct (lastHumanMoveIndex _ _) as [idx|] eqn:Hidx; cbn; [|done].
  apply lastHumanMoveIndex_Some in Hidx as (Hlt & m & Hm & Hplayer).
  rewrite Hm. cbn.
  pose proof (Hinv _ _ Hgame) as Hgame_inv.
  destruct Hgame_inv as (Hwf & Hhist & Hpos).
  assert (Hrec : record_inv m).
  { rewrite Forall_forall in Hhist. apply Hhist.
    eapply list_elem_of_lookup_2, Hm. }
  destruct Hrec as (Hto & from & Hfrom & Hvfrom).
  exists m, from. split_and!; [done..|].
  rewrite undo_discards by done.
  rewrite length_take.
  case_bool_decide as Hempty; cbn.
  - rewrite bool_decide_true by lia.
    assert (idx - 1 = 0)%nat as -> by lia. done.
  - rewrite bool_decide_false by lia.
    rewrite (write_cell_wf (board game)) by done. cbn.
    rewrite Hfrom. cbn.
    rewrite write_cell_wf by (done || by apply wf_board_set_cell). cbn.
    done.
Qed.
(** ** The side to act can move *)

Lemma afterCheck_playing g hp ap :
  gamePhase (afterCheck g hp ap) = playing →
  legalCells (board g) hp ≠ [] ∧ legalCells (board g) ap ≠ []
  ∧ afterCheck g hp ap = g.
Proof.
  unfold afterCheck. rewrite <- !length_zero_iff_nil.
  by repeat case_bool_decide.
Qed.

Lemma isSimulation_afterCheck g hp ap :
  isSimulation (afterCheck g hp ap) = isSimulation g.
Proof. unfold afterCheck. by repeat case_bool_decide. Qed.

(** Wherever the human starts, a neighbouring cell is left empty once the
    software agent has been placed. *)
Lemma placed_human_can_move :
  forallb (λ hp : Pos,
    forallb (λ ap : Pos,
               negb (bool_decide
                       (legalCells
                          (set_cell (set_cell initializeBoard hp (Mark HUMAN))
                                    ap (Mark AI)) hp = [])))
            (if bool_decide (hp = center)
             then legalCells (set_cell initializeBoard center (Mark HUMAN))
                             center
             else [center]))
    allCells = true.
Proof. vm_compute. reflexivity. Qed.

Lemma play_inv_placed hp ap g :
  valid hp →
  (if bool_decide (hp = center)
   then ap ∈ legalCells (set_cell initializeBoard center (Mark HUMAN)) center
   else ap = center) →
  isSimulation g = false → moveHistory g = [] →
  play_inv (placed hp ap g).
Proof.
  intros Hhp Hap Hsim Hnil. unfold play_inv, placed. cbn.
  rewrite Hnil. split_and!; [done|constructor|done|done|]. intros _.
  unfold legalMovesOf, positionOf. cbn.
  pose proof placed_human_can_move as Hall.
  rewrite forallb_forall in Hall.
  specialize (Hall hp). rewrite forallb_forall in Hall.
  assert (Hin : In hp allCells) by by apply list_elem_of_In, elem_of_allCells.
  specialize (Hall Hin ap).
  assert (Hap' : In ap
    (if bool_decide (hp = center)
     then legalCells (set_cell initializeBoard center (Mark HUMAN)) center
     else [center])).
  { case_bool_decide; [by apply list_elem_of_In|]. left. done. }
  specialize (Hall Hap'). apply negb_true_iff, bool_decide_eq_false in Hall.
  done.
Qed.

Lemma head_snoc {A} (l : list A) (x y : A) :
  head (l ++ [x]) = Some y → head l = Some y ∨ l = [] ∧ y = x.
Proof. destruct l; cbn; [intros [= <-]|]; auto. Qed.

Lemma play_inv_after_move player newPos g hp ap :
  game_inv g → play_inv g →
  gamePhase g = playing → currentPlayer g = player →
  humanPos g = Some hp → aiPos g = Some ap →
  newPos ∈ legalMovesOf g player →
  let g' := applyMove player newPos g in
  ∀ hp' ap', humanPos g' = Some hp' → aiPos g' = Some ap' →
  play_inv (set_currentPlayer (opponent player) (afterCheck g' hp' ap')).
Proof.
  intros Hinv (Hsim & Hsteps & Hhead & Hfirst & Hmove) Hph Hcp Hhp Hap Hin
    g' hp' ap' Hhp' Hap'.
  unfold play_inv. cbn.
  rewrite isSimulation_afterCheck, moveHistory_afterCheck.
  assert (Hpos : ∃ pos, positionOf g player = Some pos
                        ∧ newPos ∈ legalCells (board g) pos).
  { unfold legalMovesOf in Hin.
    destruct (positionOf g player) as [pos|]; [by exists pos|].
    by apply elem_of_nil in Hin. }
  destruct Hpos as (pos & Hpos & Hlegal).
  apply elem_of_legalCells in Hlegal as (Hstep & _ & _).
  split_and!.
  - done.
  - cbn. apply Forall_app. split; [done|]. constructor; [|constructor].
    exists pos. cbn. done.
  - cbn. intros r [Hr|[Hnil ->]]%head_snoc; [by apply Hhead|]. cbn.
    rewrite <- Hcp. by apply Hfirst.
  - cbn. intros Hnil. by apply app_eq_nil in Hnil as [_ ?].
  - intros Hplaying. apply afterCheck_playing in Hplaying as (Hh & Ha & ->).
    unfold legalMovesOf, positionOf.
    destruct player; cbn; cbn in Hhp', Hap'; rewrite ?Hhp', ?Hap'; done.
Qed.

Lemma head_take {A} (n : nat) (l : list A) (x : A) :
  head (take n l) = Some x → head l = Some x.
Proof. destruct n, l; cbn; done. Qed.

Lemma chebyshev_ne p q : chebyshev p q = 1 → p ≠ q.
Proof. intros Hd ->. unfold chebyshev in Hd. lia. Qed.

Lemma play_inv_takenBack idx m from g :
  game_inv g → play_inv g →
  moveHistory g !! idx = Some m → mr_from m = Some from →
  play_inv (takenBack idx m from g).
Proof.
  intros (Hwf & Hrecs & _) (Hsim & Hsteps & Hhead & Hfirst & Hmove) Hm Hfrom.
  unfold play_inv, takenBack. cbn. split_and!; [done| | |done|].
  - by apply Forall_take.
  - intros r Hr%head_take. by apply Hhead.
  - intros _. unfold legalMovesOf, positionOf. cbn.
    apply list_elem_of_lookup_2 in Hm.
    rewrite Forall_forall in Hsteps, Hrecs.
    destruct (Hsteps m Hm) as (from' & Hfrom' & Hstep).
    assert (from' = from) as -> by congruence.
    destruct (Hrecs m Hm) as (Hto & _).
    intros Hnil.
    assert (Hin : mr_to m ∈
      legalCells (set_cell (set_cell (board g) (mr_to m) EMPTY) from
                    (Mark (mr_player m))) from).
    { apply elem_of_legalCells. split_and!; [done..|].
      rewrite cell_at_set_cell_ne.
      - apply cell_at_set_cell_eq. by apply cell_at_wf.
      - destruct (mr_to m). by apply chebyshev_ne. }
    rewrite Hnil in Hin. by apply elem_of_nil in Hin.
Qed.

Lemma engine_play_inv_insert e gameId g st er :
  engine_play_inv e → play_inv g →
  engine_play_inv (withSession gameId g st er e).
Proof.
  intros He Hg gameId' g'. cbn. rewrite lookup_insert.
  case_decide; [by intros [= <-] | apply He].
Qed.

(** Every session of a reachable engine satisfies [play_inv]. *)
Lemma reachable_play_inv e : reachable e → engine_play_inv e.
Proof.
  induction 1 as [st er|e gameId playerId _ IH|e rnd gameId row col Hr IH H0 H1
                 |e gameId row col Hr IH
                 |e T num cfg clock nn learned fuel gameId r e' Hr IH Hrun
                 |e gameId Hr IH|e _ IH|e gameId _ IH].
  - intros gameId g. cbn. by rewrite lookup_empty.
  - unfold after, createGame. run_monad.
    apply (engine_play_inv_insert e gameId _ (gameStats e)
             (experienceReplay e) IH).
    unfold play_inv, newGame. cbn. split_and!; done || constructor.
  - apply reachable_inv in Hr as Hinv. unfold after.
    pose proof (placeStartingPosition_cases rnd gameId row col e H0 H1 Hinv)
      as Hcases.
    destruct (activeGames e !! gameId) as [game|] eqn:Hgame;
      [|by rewrite Hcases].
    case_bool_decide as Hph; [|by rewrite Hcases].
    case_bool_decide as Hrow; [|by rewrite Hcases].
    case_bool_decide as Hcol; [|by rewrite Hcases].
    destruct Hcases as (ap & Hap & ->). cbn.
    apply engine_play_inv_insert; [done|].
    destruct (Hinv _ _ Hgame) as (_ & _ & Hstart). rewrite Hph in Hstart.
    apply play_inv_placed; [|done|by apply (IH _ _ Hgame)|apply Hstart].
    apply isValidPosition_spec. unfold BOARD_SIZE. cbn. lia.
  - apply reachable_inv in Hr as Hinv. unfold after.
    pose proof (makeHumanMove_cases gameId row col e Hinv) as Hcases.
    destruct (activeGames e !! gameId) as [game|] eqn:Hgame;
      [|by rewrite Hcases].
    case_bool_decide as Hok; [|by rewrite Hcases].
    destruct Hok as (Hph & Hcp & Hin).
    destruct Hcases as (ap & er' & Hap & _ & ->). cbn.
    apply engine_play_inv_insert; [done|].
    assert (Hns : gamePhase game ≠ starting) by (by rewrite Hph).
    destruct (game_inv_positions game (Hinv _ _ Hgame) Hns)
      as (hp & ap' & Hhp & Hap' & _).
    by apply (play_inv_after_move HUMAN (row, col) game hp ap
                (Hinv _ _ Hgame) (IH _ _ Hgame) Hph Hcp Hhp Hap Hin).
  - apply reachable_inv in Hr as Hinv.
    pose proof (makeAIMove_cases cfg clock nn learned fuel gameId e r e'
                  Hinv Hrun) as Hcases.
    destruct (activeGames e !! gameId) as [game|] eqn:Hgame;
      [|by destruct Hcases as [_ ->]].
    case_bool_decide as Hok; [|by destruct Hcases as [_ ->]].
    destruct Hok as [Hph Hcp].
    case_bool_decide as Hnone.
    + destruct Hcases as [_ ->]. apply engine_play_inv_insert; [done|].
      destruct (IH _ _ Hgame) as (Hsim & Hsteps & Hhead & Hfirst & Hmove).
      unfold play_inv. cbn. split_and!; done.
    + destruct Hcases as (hp & bestMove & er' & Hhp & Hin & _ & _ & ->).
      apply engine_play_inv_insert; [done|].
      assert (Hns : gamePhase game ≠ starting) by (by rewrite Hph).
      destruct (game_inv_positions game (Hinv _ _ Hgame) Hns)
        as (hp' & ap & Hhp' & Hap & _).
      by apply (play_inv_after_move AI bestMove game hp ap
                  (Hinv _ _ Hgame) (IH _ _ Hgame) Hph Hcp Hhp Hap Hin).
  - apply reachable_inv in Hr as Hinv. unfold after.
    pose proof (undoLastMove_cases gameId e Hinv) as Hcases.
    destruct (activeGames e !! gameId) as [game|] eqn:Hgame;
      [|by rewrite Hcases].
    case_bool_decide as Hph; [by rewrite Hcases|].
    case_bool_decide as Hnil; [by rewrite Hcases|].
    destruct (lastHumanMoveIndex _ _) as [idx|]; [|by rewrite Hcases].
    destruct Hcases as (m & from & Hm & Hplayer & Hfrom & ->). cbn.
    apply engine_play_inv_insert; [done|].
    case_bool_decide.
    + destruct (IH _ _ Hgame) as (Hsim & _).
      unfold play_inv, resetGame. cbn. split_and!; done || constructor.
    + by apply play_inv_takenBack; [apply (Hinv _ _ Hgame)|apply (IH _ _ Hgame)|..].
  - exact IH.
  - intros gameId' g. cbn. rewrite lookup_delete.
    case_decide; [done|apply IH].
Qed.
(** ** Sessions of reachable engines: what the calls do *)

Lemma board_afterCheck g hp ap : board (afterCheck g hp ap) = board g.
Proof. unfold afterCheck. by repeat case_bool_decide. Qed.

Lemma humanPos_afterCheck g hp ap : humanPos (afterCheck g hp ap) = humanPos g.
Proof. unfold afterCheck. by repeat case_bool_decide. Qed.

Lemma aiPos_afterCheck g hp ap : aiPos (afterCheck g hp ap) = aiPos g.
Proof. unfold afterCheck. by repeat case_bool_decide. Qed.

Lemma gamePhase_afterCheck g hp ap :
  gamePhase g = playing →
  gamePhase (afterCheck g hp ap) = playing
  ∨ gamePhase (afterCheck g hp ap) = ended
    ∧ ∃ w, winner (afterCheck g hp ap) = Some w.
Proof.
  intros Hph. unfold afterCheck. repeat case_bool_decide; cbn; eauto.
Qed.

Lemma lastHumanMoveIndex_is_Some h i j r :
  h !! j = Some r → mr_player r = HUMAN → (j < i)%nat →
  is_Some (lastHumanMoveIndex h i).
Proof.
  intros Hr Hplayer. induction i as [|i IH]; intros Hlt; [lia|]. cbn.
  destruct (decide (j = i)) as [->|Hne].
  - rewrite Hr, bool_decide_true by done. by eexists.
  - destruct (h !! i) as [r'|]; [|apply IH; lia].
    case_bool_decide; [by eexists|apply IH; lia].
Qed.

(** X1.  In every state of the engine that the lifecycle methods can
    produce, a session in the Playing phase is never stuck: the side whose
    turn it is stands on the board and [getValidMoves] returns at least one
    move for it. *)
Theorem side_to_act_can_move (e : Engine) (gameId : string) (g : Game)
    (Hreach : reachable e) (Hgame : getGame gameId e = Some g)
    (Hplaying : gamePhase g = playing) :
  ∃ pos moves,
    positionOf g (currentPlayer g) = Some pos
    ∧ getValidMoves (board g) pos = Ok moves
    ∧ moves ≠ [].
Proof.
  pose proof (reachable_inv e Hreach _ _ Hgame) as (Hwf & _).
  destruct (reachable_play_inv e Hreach _ _ Hgame) as (_ & _ & _ & _ & Hmove).
  specialize (Hmove Hplaying). unfold legalMovesOf in Hmove.
  destruct (positionOf g (currentPlayer g)) as [pos|]; [|done].
  exists pos, (legalCells (board g) pos).
  by rewrite getValidMoves_wf.
Qed.

(** X2.  On a reachable engine, a call of [makeAIMove] for a session in the
    Playing phase with the software agent to act, given fuel for
    [maxSimulations] rounds and one more, returns, and returns a moved
    session: the agent has gone to one of its legal cells, its old cell is
    Blocked, one record has been appended and the human is to act.  The
    branch that ends the game because the agent has no move, and every
    exception, are out of reach. *)
Theorem makeAIMove_moves (T : Type) (num : Number T) (cfg : Config)
    (clock : nat → Z) (nn : NeuralNetwork)
    (learned : nat → Board → Learned T) (fuel : nat)
    (e : Engine) (gameId : string) (game : Game)
    (Hreach : reachable e) (Hgame : getGame gameId e = Some game)
    (Hplaying : gamePhase game = playing) (Hturn : currentPlayer game = AI)
    (Hfuel : (Z.to_nat (maxSimulations cfg) < fuel)%nat) :
  ∃ g1 e1 ap bestMove,
    makeAIMove cfg clock nn learned fuel gameId e = Some (Ok g1, e1)
    ∧ getGame gameId e1 = Some g1
    ∧ aiPos game = Some ap
    ∧ bestMove ∈ legalCells (board game) ap
    ∧ aiPos g1 = Some bestMove
    ∧ humanPos g1 = humanPos game
    ∧ board g1 = set_cell (set_cell (board game) ap BLOCKED) bestMove (Mark AI)
    ∧ moveHistory g1
      = moveHistory game ++ [ {| mr_player := AI; mr_from := Some ap;
                                 mr_to := bestMove; mr_board := board g1 |} ]
    ∧ currentPlayer g1 = HUMAN.
Proof.
  pose proof (reachable_inv e Hreach) as Hinv.
  destruct (reachable_play_inv e Hreach _ _ Hgame)
    as (_ & _ & _ & _ & Hmove).
  specialize (Hmove Hplaying). rewrite Hturn in Hmove.
  destruct (makeAIMove_total cfg clock nn learned fuel gameId e Hinv Hfuel)
    as (r & e1 & Hrun).
  pose proof (makeAIMove_cases cfg clock nn learned fuel gameId e r e1
                Hinv Hrun) as Hcases.
  unfold getGame in Hgame. rewrite Hgame in Hcases.
  rewrite bool_decide_true in Hcases by done.
  rewrite bool_decide_false in Hcases by done.
  destruct Hcases as (hp & bestMove & er' & Hhp & Hin & _ & -> & ->).
  unfold legalMovesOf, positionOf in Hin.
  destruct (aiPos game) as [ap|] eqn:Hap; [|by apply elem_of_nil in Hin].
  eexists _, _, ap, bestMove. split; [exact Hrun|].
  unfold getGame, withSession. cbn. rewrite lookup_insert_eq.
  rewrite aiPos_afterCheck, humanPos_afterCheck, board_afterCheck,
    moveHistory_afterCheck.
  unfold applyMove, positionOf. cbn. rewrite Hap. done.
Qed.

(** X3.  On a reachable engine [undoLastMove] fails in exactly three ways,
    told apart by the state of the session: 'Game not found' when there is
    no session, 'Cannot undo moves in ended game' when it has ended, 'No
    moves to undo' when its history is empty.  In every other case it
    succeeds: the history of the session returned is a strictly shorter
    prefix of the old one, the human is to act, and an empty history comes
    with the Starting phase and the empty board.  'No human moves to undo'
    is never raised. *)
Theorem undoLastMove_outcomes (e : Engine) (gameId : string)
    (Hreach : reachable e) :
  match getGame gameId e with
  | None => undoLastMove gameId e = (Throw GameNotFound, e)
  | Some game =>
    if bool_decide (gamePhase game = ended)
    then undoLastMove gameId e = (Throw CannotUndoEnded, e)
    else if bool_decide (moveHistory game = [])
    then undoLastMove gameId e = (Throw NoMovesToUndo, e)
    else
      ∃ g1 e1 n,
        undoLastMove gameId e = (Ok g1, e1)
        ∧ getGame gameId e1 = Some g1
        ∧ (n < length (moveHistory game))%nat
        ∧ moveHistory g1 = take n (moveHistory game)
        ∧ currentPlayer g1 = HUMAN
        ∧ (if bool_decide (moveHistory g1 = [])
           then gamePhase g1 = starting ∧ board g1 = initializeBoard
                ∧ humanPos g1 = None ∧ aiPos g1 = None
           else gamePhase g1 = playing ∧ aiPos g1 = aiPos game)
  end.
Proof.
  pose proof (reachable_inv e Hreach) as Hinv.
  pose proof (undoLastMove_cases gameId e Hinv) as Hcases.
  unfold getGame.
  destruct (activeGames e !! gameId) as [game|] eqn:Hgame; [|done].
  case_bool_decide as Hph; [done|].
  case_bool_decide as Hnil; [done|].
  destruct (reachable_play_inv e Hreach _ _ Hgame) as (_ & _ & Hhead & _).
  destruct (moveHistory game) as [|r h] eqn:Hh; [done|].
  destruct (lastHumanMoveIndex_is_Some (r :: h) (length (r :: h)) 0 r)
    as [idx Hidx]; [done|by apply Hhead|cbn; lia|].
  rewrite Hidx in Hcases.
  destruct Hcases as (m & from & Hm & Hplayer & Hfrom & Hrun).
  apply lookup_lt_Some in Hm as Hlt. cbn [length] in Hlt.
  eexists _, _, (idx - 1)%nat. split; [exact Hrun|].
  cbn. rewrite lookup_insert_eq. split; [done|]. split; [lia|].
  destruct (decide (idx ≤ 1)%nat) as [Hidx1|Hidx1].
  - rewrite (bool_decide_true (idx ≤ 1)%nat) by done.
    assert (idx - 1 = 0)%nat as -> by lia. done.
  - rewrite (bool_decide_false (idx ≤ 1)%nat) by done. cbn. rewrite Hh.
    split_and!; [done..|].
    rewrite bool_decide_false.
    + split; [|done]. destruct (gamePhase game) eqn:Hg; [|done..].
      destruct (Hinv _ _ Hgame) as (_ & _ & Hstart). rewrite Hg in Hstart.
      destruct Hstart as [_ Hstart]. by rewrite Hh in Hstart.
    + destruct (idx - 1)%nat eqn:Hn; [lia|done].
Qed.

(** X4.  On a reachable engine [placeStartingPosition] succeeds exactly
    when the session exists, is in the Starting phase and the cell is one
    of the grid.  The human then stands on that cell and the software
    agent on the centre, or on a neighbour of the centre when the human
    has taken it; the board holds the two markers and is empty elsewhere,
    the phase is Playing and the human is to act.  Otherwise nothing
    changes and the exception is 'Invalid game state' for a missing session
    or another phase, a TypeError for a row outside the grid, and
    'Position already occupied' for a column outside the grid: no cell of a
    session in the Starting phase is occupied. *)
Theorem placeStartingPosition_outcomes (e : Engine) (rnd : Q)
    (gameId : string) (row col : Z)
    (Hreach : reachable e) (Hrnd : (0 <= rnd)%Q ∧ (rnd < 1)%Q) :
  match getGame gameId e with
  | None =>
    placeStartingPosition rnd gameId row col e = (Throw InvalidGameState, e)
  | Some game =>
    if negb (bool_decide (gamePhase game = starting)) then
      placeStartingPosition rnd gameId row col e = (Throw InvalidGameState, e)
    else if negb (bool_decide (0 ≤ row < 7)) then
      placeStartingPosition rnd gameId row col e = (Throw TypeError, e)
    else if negb (bool_decide (0 ≤ col < 7)) then
      placeStartingPosition rnd gameId row col e = (Throw PositionOccupied, e)
    else
      ∃ g1 e1 ap,
        placeStartingPosition rnd gameId row col e = (Ok g1, e1)
        ∧ getGame gameId e1 = Some g1
        ∧ humanPos g1 = Some (row, col) ∧ aiPos g1 = Some ap
        ∧ (if bool_decide ((row, col) = center)
           then chebyshev center ap = 1 else ap = center)
        ∧ valid ap
        ∧ board g1
          = set_cell (set_cell initializeBoard (row, col) (Mark HUMAN))
                     ap (Mark AI)
        ∧ gamePhase g1 = playing ∧ currentPlayer g1 = HUMAN
        ∧ moveHistory g1 = []
        ∧ gameStats e1 = gameStats e
  end.
Proof.
  destruct Hrnd as [H0 H1]. pose proof (reachable_inv e Hreach) as Hinv.
  pose proof (placeStartingPosition_cases rnd gameId row col e H0 H1 Hinv)
    as Hcases.
  unfold getGame.
  destruct (activeGames e !! gameId) as [game|] eqn:Hgame; [|done].
  case_bool_decide as Hph; [|done].
  case_bool_decide as Hrow; [|done].
  case_bool_decide as Hcol; [|done]. cbn.
  destruct Hcases as (ap & Hap & Hrun).
  eexists _, _, ap. split; [exact Hrun|].
  cbn. rewrite lookup_insert_eq.
  destruct (Hinv _ _ Hgame) as (_ & _ & Hstart). rewrite Hph in Hstart.
  destruct Hstart as [_ Hnil].
  split_and!; try done.
  - case_bool_decide; [|done].
    by apply elem_of_legalCells in Hap as (? & _).
  - case_bool_decide; [|by subst].
    by apply elem_of_legalCells in Hap as (_ & ? & _).
Qed.

(** X5.  On a reachable engine [makeHumanMove] succeeds exactly when the
    session exists, is in the Playing phase, has the human to act, and the
    cell is one of the human's legal moves; every failure is 'Invalid
    move' and changes nothing.  After a success the human stands on the
    cell, the cell it left is Blocked, the software agent has not moved,
    one record has been appended, and the software agent is to act. *)
Theorem makeHumanMove_outcomes (e : Engine) (gameId : string) (row col : Z)
    (Hreach : reachable e) :
  match getGame gameId e with
  | None => makeHumanMove gameId row col e = (Throw InvalidMove, e)
  | Some game =>
    if bool_decide (gamePhase game = playing ∧ currentPlayer game = HUMAN
                    ∧ (row, col) ∈ legalMovesOf game HUMAN)
    then
      ∃ g1 e1 hp,
        makeHumanMove gameId row col e = (Ok g1, e1)
        ∧ getGame gameId e1 = Some g1
        ∧ humanPos game = Some hp
        ∧ humanPos g1 = Some (row, col)
        ∧ aiPos g1 = aiPos game
        ∧ board g1
          = set_cell (set_cell (board game) hp BLOCKED) (row, col)
                     (Mark HUMAN)
        ∧ moveHistory g1
          = moveHistory game
              ++ [ {| mr_player := HUMAN; mr_from := Some hp;
                      mr_to := (row, col); mr_board := board g1 |} ]
        ∧ currentPlayer g1 = AI
        ∧ (gamePhase g1 = playing ∨ gamePhase g1 = ended)
    else makeHumanMove gameId row col e = (Throw InvalidMove, e)
  end.
Proof.
  pose proof (reachable_inv e Hreach) as Hinv.
  pose proof (makeHumanMove_cases gameId row col e Hinv) as Hcases.
  unfold getGame.
  destruct (activeGames e !! gameId) as [game|] eqn:Hgame; [|done].
  case_bool_decide as Hok; [|done].
  destruct Hok as (Hph & Hcp & Hin).
  destruct Hcases as (ap & er' & Hap & _ & Hrun).
  unfold legalMovesOf, positionOf in Hin.
  destruct (humanPos game) as [hp|] eqn:Hhp; [|by apply elem_of_nil in Hin].
  eexists _, _, hp. split; [exact Hrun|].
  cbn. rewrite lookup_insert_eq.
  rewrite aiPos_afterCheck, humanPos_afterCheck, board_afterCheck,
    moveHistory_afterCheck.
  unfold applyMove, positionOf. cbn. rewrite Hhp.
  split_and!; try done.
  destruct (gamePhase_afterCheck
              (applyMove HUMAN (row, col) game) (row, col) ap Hph)
    as [Hp|[Hp _]]; unfold applyMove, positionOf in Hp; rewrite Hhp in Hp;
    auto.
Qed.

(** *** One session at a time *)

Lemma keeps_bind other {A B} (m : M Engine A) (f : A → M Engine B) :
  keeps other m → (∀ a, keeps other (f a)) → keeps other (m ≫= f).
Proof.
  intros Hm Hf e. unfold mbind, M_bind. specialize (Hm e).
  destruct (m e) as [[a|err] e1]; cbn in *; [|done].
  by rewrite Hf.
Qed.

Lemma keeps_on_game other {A} gameId game (m : M World A) :
  other ≠ gameId → keeps other (on_game gameId game m).
Proof.
  intros Hne e. unfold on_game. destruct (m _) as [r w]. cbn.
  by rewrite lookup_insert_ne.
Qed.

Lemma keeps_notifyRecorder other gameId player move b :
  keeps other (notifyRecorder gameId player move b).
Proof.
  intros e. unfold notifyRecorder. run_monad.
  by destruct (recordMove _ _ _ _ _).
Qed.

Lemma keeps_validMovesOf other b pos :
  keeps other (validMovesOf (S := Engine) b pos).
Proof. intros e. unfold validMovesOf. by destruct pos. Qed.

Lemma keeps_throw other {A} err : keeps other (throw (A := A) err).
Proof. done. Qed.

Lemma keeps_ret other {A} (a : A) : keeps other (mret a).
Proof. done. Qed.

Lemma keeps_placeStartingPosition other rnd gameId row col :
  other ≠ gameId → keeps other (placeStartingPosition rnd gameId row col).
Proof.
  intros Hne. unfold placeStartingPosition.
  apply keeps_bind; [done|]. intros [game|]; [|done].
  destruct (negb _); [done|].
  apply keeps_bind; [done|]. intros c.
  destruct (negb _); [done|]. by apply keeps_on_game.
Qed.

Lemma keeps_makeHumanMove other gameId row col :
  other ≠ gameId → keeps other (makeHumanMove gameId row col).
Proof.
  intros Hne. unfold makeHumanMove.
  apply keeps_bind; [done|]. intros [game|]; [|done].
  destruct (_ || _); [done|].
  apply keeps_bind; [apply keeps_validMovesOf|]. intros validMoves.
  destruct (negb _); [done|].
  apply keeps_bind; [by apply keeps_on_game|]. intros g.
  apply keeps_bind; [apply keeps_notifyRecorder|done].
Qed.

Lemma keeps_undoLastMove other gameId :
  other ≠ gameId → keeps other (undoLastMove gameId).
Proof.
  intros Hne. unfold undoLastMove.
  apply keeps_bind; [done|]. intros [game|]; [|done].
  destruct (bool_decide _); [done|]. destruct (bool_decide _); [done|].
  destruct (lastHumanMoveIndex _ _); [|done].
  destruct (_ !! _); [|done]. by apply keeps_on_game.
Qed.

Lemma keeps_makeAIMove `{Number T} cfg clock nn
    (learned : nat → Board → Learned T) fuel other gameId e r e' :
  other ≠ gameId →
  makeAIMove cfg clock nn learned fuel gameId e = Some (r, e') →
  activeGames e' !! other = activeGames e !! other.
Proof.
  intros Hne. unfold makeAIMove.
  destruct (activeGames e !! gameId) as [game|]; [|by intros [= _ <-]].
  destruct (_ || _); [by intros [= _ <-]|].
  pose proof (keeps_validMovesOf other (board game) (aiPos game) e) as Hv.
  destruct (validMovesOf _ _ e) as [[validMoves|err] e1]; cbn in Hv;
    [|by intros [= _ <-]].
  destruct (bool_decide _).
  { intros [= Hrun]. rewrite <- Hv.
    pose proof (keeps_on_game other gameId game (endGame HUMAN;; gets w_game)
                  Hne e1) as Hk.
    by rewrite Hrun in Hk. }
  destruct (enhancedMCTS _ _ _ _ _ _ _ _) as [[[bestMove|]|err]|];
    [| |by intros [= _ <-]|done].
  - intros [= Hrun]. rewrite <- Hv.
    match type of Hrun with
    | ?m e1 = _ => assert (Hk : keeps other m)
    end.
    { apply keeps_bind; [by apply keeps_on_game|]. intros g.
      apply keeps_bind; [apply keeps_notifyRecorder|done]. }
    specialize (Hk e1). by rewrite Hrun in Hk.
  - intros [= Hrun]. rewrite <- Hv.
    match type of Hrun with
    | on_game _ _ ?m e1 = _ =>
      pose proof (keeps_on_game other gameId game m Hne e1) as Hk
    end.
    by rewrite Hrun in Hk.
Qed.

(** X6.  Sessions do not interfere: whatever a call of [createGame],
    [placeStartingPosition], [makeHumanMove], [makeAIMove] or
    [undoLastMove] for one session does, and whether it returns or throws,
    the session stored under any other identifier is afterwards what it
    was. *)
Theorem other_sessions_untouched (e : Engine) (gameId other : string)
    (Hother : other ≠ gameId) :
  (∀ playerId,
     getGame other (after (createGame gameId playerId) e) = getGame other e)
  ∧ (∀ rnd row col,
       getGame other (after (placeStartingPosition rnd gameId row col) e)
       = getGame other e)
  ∧ (∀ row col,
       getGame other (after (makeHumanMove gameId row col) e)
       = getGame other e)
  ∧ (∀ T (num : Number T) cfg clock nn (learned : nat → Board → Learned T)
       fuel r e',
       makeAIMove cfg clock nn learned fuel gameId e = Some (r, e') →
       getGame other e' = getGame other e)
  ∧ getGame other (after (undoLastMove gameId) e) = getGame other e.
Proof.
  unfold getGame, after. split_and!.
  - intros playerId. unfold createGame. run_monad.
    by rewrite lookup_insert_ne.
  - intros rnd row col. by apply keeps_placeStartingPosition.
  - intros row col. by apply keeps_makeHumanMove.
  - intros T num cfg clock nn learned fuel r e' Hrun.
    by eapply keeps_makeAIMove.
  - by apply keeps_undoLastMove.
Qed.

(** X7.  The statistics count ended games and nothing else.  On a
    reachable engine [placeStartingPosition] and [undoLastMove] leave them
    alone; a move that goes through leaves them alone unless it ends the
    session, and then one game is added, one win is added for the winner
    recorded in the session, and the average length becomes
    (average * games + length of the history) / (games + 1). *)
Theorem statistics_count_ended_games (e : Engine) (gameId : string)
    (Hreach : reachable e) :
  (∀ rnd row col, (0 <= rnd)%Q ∧ (rnd < 1)%Q →
     gameStats (after (placeStartingPosition rnd gameId row col) e)
     = gameStats e)
  ∧ gameStats (after (undoLastMove gameId) e) = gameStats e
  ∧ (∀ row col g1 e1,
       makeHumanMove gameId row col e = (Ok g1, e1) →
       if bool_decide (gamePhase g1 = ended)
       then ∃ w, winner g1 = Some w
                 ∧ gameStats e1
                   = countGame w (Z.of_nat (length (moveHistory g1)))
                               (gameStats e)
       else gameStats e1 = gameStats e)
  ∧ (∀ T (num : Number T) cfg clock nn (learned : nat → Board → Learned T)
       fuel g1 e1,
       makeAIMove cfg clock nn learned fuel gameId e = Some (Ok g1, e1) →
       if bool_decide (gamePhase g1 = ended)
       then ∃ w, winner g1 = Some w
                 ∧ gameStats e1
                   = countGame w (Z.of_nat (length (moveHistory g1)))
                               (gameStats e)
       else gameStats e1 = gameStats e).
Proof.
  pose proof (reachable_inv e Hreach) as Hinv.
  assert (Hstats : ∀ g player newPos hp ap,
    gamePhase g = playing → isSimulation g = false →
    let g1 := set_currentPlayer player (afterCheck (applyMove (opponent player) newPos g) hp ap) in
    if bool_decide (gamePhase g1 = ended)
    then ∃ w, winner g1 = Some w
              ∧ statsAfter g1 (gameStats e)
                = countGame w (Z.of_nat (length (moveHistory g1)))
                            (gameStats e)
    else statsAfter g1 (gameStats e) = gameStats e).
  { intros g player newPos hp ap Hph Hsim. cbn.
    unfold statsAfter, afterCheck. cbn.
    repeat case_bool_decide; cbn in *; rewrite ?Hph, ?Hsim in *;
      try done; by eexists. }
  split_and!.
  - intros rnd row col [H0 H1]. unfold after.
    pose proof (placeStartingPosition_cases rnd gameId row col e H0 H1 Hinv)
      as Hcases.
    destruct (activeGames e !! gameId) as [game|]; [|by rewrite Hcases].
    repeat case_bool_decide; try by rewrite Hcases.
    all: by destruct Hcases as (ap & _ & ->).
  - unfold after. pose proof (undoLastMove_cases gameId e Hinv) as Hcases.
    destruct (activeGames e !! gameId) as [game|]; [|by rewrite Hcases].
    case_bool_decide; [by rewrite Hcases|].
    case_bool_decide; [by rewrite Hcases|].
    destruct (lastHumanMoveIndex _ _); [|by rewrite Hcases].
    by destruct Hcases as (m & from & _ & _ & _ & ->).
  - intros row col g1 e1 Hrun.
    pose proof (makeHumanMove_cases gameId row col e Hinv) as Hcases.
    destruct (activeGames e !! gameId) as [game|] eqn:Hgame;
      [|by rewrite Hcases in Hrun].
    case_bool_decide as Hok; [|by rewrite Hcases in Hrun].
    destruct Hok as (Hph & _).
    destruct Hcases as (ap & er' & _ & _ & Hrun').
    rewrite Hrun' in Hrun. injection Hrun as <- <-. cbn.
    destruct (reachable_play_inv e Hreach _ _ Hgame) as (Hsim & _).
    apply (Hstats game AI (row, col) (row, col) ap Hph Hsim).
  - intros T num cfg clock nn learned fuel g1 e1 Hrun.
    pose proof (makeAIMove_cases cfg clock nn learned fuel gameId e _ _
                  Hinv Hrun) as Hcases.
    destruct (activeGames e !! gameId) as [game|] eqn:Hgame;
      [|by destruct Hcases].
    case_bool_decide as Hok; [|by destruct Hcases].
    destruct Hok as (Hph & Hcp).
    destruct (reachable_play_inv e Hreach _ _ Hgame)
      as (Hsim & _ & _ & _ & Hmove).
    rewrite bool_decide_false in Hcases by (rewrite <- Hcp; by apply Hmove).
    destruct Hcases as (hp & bestMove & er' & _ & _ & _ & [= ->] & ->). cbn.
    apply (Hstats game HUMAN bestMove hp bestMove Hph Hsim).
Qed.
(** ** The learned model *)

Lemma flatten_wf (b : Board) (cells : list Pos) (l : list Z) :
  wf_board b → Forall valid cells →
  foldl (λ (acc : Result (list Z)) (p : Pos),
           l ← acc; c ← read_cell b p.1 p.2; mret (l ++ [cellValue c]))
        (Ok l) cells
  = Ok (l ++ ((λ p : Pos, cellValue (cell_at b p.1 p.2)) <$> cells)).
Proof.
  intros Hwf Hcells. revert l.
  induction Hcells as [|p cells Hp _ IH]; intros l; cbn.
  - by rewrite app_nil_r.
  - rewrite read_cell_wf by done. cbn. rewrite IH.
    by rewrite <- app_assoc.
Qed.

Lemma allCells_Forall_valid : Forall valid allCells.
Proof. apply Forall_forall. intros p. apply allCells_valid. Qed.

Lemma boardToTensor_wf `{Number T} (b : Board) :
  wf_board b →
  boardToTensor (T := T) b
  = Ok ((λ p : Pos, numDiv (numOf (cellValue (cell_at b p.1 p.2))) (numOf 3))
          <$> allCells).
Proof.
  intros Hwf. unfold boardToTensor, flatten.
  rewrite (flatten_wf b allCells [] Hwf allCells_Forall_valid). cbn.
  by rewrite <- list_fmap_compose.
Qed.


(** A scan of the grid stops with a TypeError at the first missing row. *)
Lemma flatten_Throw (b : Board) (cells : list Pos) err :
  foldl (λ (acc : Result (list Z)) (p : Pos),
           l ← acc; c ← read_cell b p.1 p.2; mret (l ++ [cellValue c]))
        (Throw err) cells
  = Throw err.
Proof. induction cells as [|p cells IH]; [done|]. cbn. exact IH. Qed.

Lemma read_cell_missing_row (b : Board) r c :
  (length b ≤ Z.to_nat r)%nat → 0 ≤ r → read_cell b r c = Throw TypeError.
Proof.
  intros Hlen Hr. unfold read_cell, row_at.
  replace (0 <=? r) with true by lia. by rewrite lookup_ge_None_2.
Qed.

Lemma read_cell_Some_row (b : Board) r c :
  (Z.to_nat r < length b)%nat → 0 ≤ r → ∃ x, read_cell b r c = Ok x.
Proof.
  intros Hlen Hr. unfold read_cell, row_at.
  replace (0 <=? r) with true by lia.
  destruct (lookup_lt_is_Some_2 b (Z.to_nat r) Hlen) as [row ->]. by eexists.
Qed.

Lemma flatten_short (b : Board) :
  (length b < 7)%nat → flatten b = Throw TypeError.
Proof.
  intros Hlen. unfold flatten.
  assert (Hgen : ∀ (rows : list Z) (l : list Z),
    Forall (λ r, 0 ≤ r) rows → (∃ r, r ∈ rows ∧ (length b ≤ Z.to_nat r)%nat) →
    foldl (λ (acc : Result (list Z)) (p : Pos),
             l ← acc; c ← read_cell b p.1 p.2; mret (l ++ [cellValue c]))
          (Ok l) (r ← rows; c ← seqZ 0 7; [(r, c)])
    = Throw TypeError).
  { intros rows. induction rows as [|r rows IH]; intros l Hpos (r0 & Hin & Hr0).
    { by apply elem_of_nil in Hin. }
    apply Forall_cons in Hpos as [Hr Hpos].
    change (r ← r :: rows; c ← seqZ 0 7; [(r, c)])
      with ((c ← seqZ 0 7; [(r, c)]) ++ (r ← rows; c ← seqZ 0 7; [(r, c)])).
    rewrite foldl_app.
    destruct (decide (length b ≤ Z.to_nat r)%nat) as [Hshort|Hlong].
    - replace (foldl _ (Ok l) (c ← seqZ 0 7; [(r, c)]))
        with (@Throw (list Z) TypeError); [apply flatten_Throw|].
      change (seqZ 0 7) with (0 :: seqZ 1 6). cbn.
      rewrite (read_cell_missing_row b r 0) by done. cbn.
      symmetry. apply (flatten_Throw b _ TypeError).
    - assert (Hrow : ∃ l', foldl (λ (acc : Result (list Z)) (p : Pos),
                 l ← acc; c ← read_cell b p.1 p.2; mret (l ++ [cellValue c]))
               (Ok l) (c ← seqZ 0 7; [(r, c)]) = Ok l').
      { generalize (seqZ 0 7). intros cs. revert l.
        induction cs as [|c cs IHc]; intros l; [by eexists|]. cbn.
        destruct (read_cell_Some_row b r c) as [x ->]; [lia|done|]. cbn.
        apply IHc. }
      destruct Hrow as [l' ->]. apply IH; [done|].
      exists r0. split; [|done].
      apply elem_of_cons in Hin as [->|Hin]; [lia|done]. }
  apply (Hgen (seqZ 0 7) []).
  - apply Forall_forall. intros r Hr%elem_of_seqZ. lia.
  - exists 6. split; [apply elem_of_seqZ; lia|]. cbn. lia.
Qed.


Section Thirds.
Context `{Number T}.
(** The four values of a cell are told apart by the arithmetic. *)
Hypothesis thirds_inj : ∀ v w : Z,
  0 ≤ v ≤ 3 → 0 ≤ w ≤ 3 →
  numDiv (numOf v) (numOf 3) = numDiv (numOf w) (numOf 3) → v = w.



End Thirds.



Lemma in_unit_half `{UnitQuotients T} : in_unit (numDiv (numOf 1) (numOf 2) : T).
Proof. apply (in_unit_quotient 1 1); lia. Qed.

Lemma network_evaluatePosition_Ok `{Number T} (nn : NeuralNetwork) (rnd : T)
    (predict : list T → Result T) (b : Board) :
  ∃ v, Network.evaluatePosition nn rnd predict b = Ok v
       ∧ (isLoaded nn = false → v = rnd)
       ∧ (isLoaded nn = true →
          (∃ input, boardToTensor b = Ok input ∧ predict input = Ok v)
          ∨ v = numDiv (numOf 1) (numOf 2)
            ∧ ∀ input, boardToTensor b = Ok input →
                       ∃ err, predict input = Throw err).
Proof.
  unfold Network.evaluatePosition, isLoaded.
  destruct (isModelLoaded nn), (hasModel nn); cbn;
    try (exists rnd; split_and!; done).
  destruct (boardToTensor b) as [input|err] eqn:Hinput; cbn.
  - destruct (predict input) as [p|err] eqn:Hp; cbn.
    + exists p. split_and!; [done..|]. intros _. left. by exists input.
    + eexists. split_and!; [done..|]. intros _. right. split; [done|].
      intros ? [= <-]. by eexists.
  - eexists. split_and!; [done..|]. intros _. right. by split.
Qed.


(** X9.  [NeuralNetwork.evaluatePosition] never throws, so its promise
    never rejects.  Without a loaded model it returns the random number;
    with one it returns the model's prediction, and one half whenever
    building the input or the prediction throws -- in particular for every
    board with fewer than seven rows, whatever the model is.  The number
    returned is in [0,1] when the random number and the predictions are. *)
Theorem network_evaluatePosition_total (T : Type) (num : Number T)
    (laws : UnitQuotients T) (nn : NeuralNetwork) (rnd : T)
    (predict : list T → Result T) (b : Board)
    (Hrnd : in_unit rnd)
    (Hpredict : ∀ input p, predict input = Ok p → in_unit p) :
  ∃ v, Network.evaluatePosition nn rnd predict b = Ok v
       ∧ in_unit v
       ∧ (isLoaded nn = false → v = rnd)
       ∧ (isLoaded nn = true →
          (∃ input, boardToTensor b = Ok input ∧ predict input = Ok v)
          ∨ v = numDiv (numOf 1) (numOf 2)
            ∧ ∀ input, boardToTensor b = Ok input →
                       ∃ err, predict input = Throw err)
       ∧ (isLoaded nn = true → (length b < 7)%nat →
          v = numDiv (numOf 1) (numOf 2)).
Proof.
  destruct (network_evaluatePosition_Ok nn rnd predict b)
    as (v & Hrun & Hoff & Hon).
  exists v. split_and!; [done| |done..|].
  - destruct (isLoaded nn) eqn:Hloaded.
    + destruct (Hon eq_refl) as [(input & _ & Hp)|[-> _]];
        [by eapply Hpredict|apply in_unit_half].
    + by rewrite Hoff.
  - intros Hloaded Hshort.
    destruct (Hon Hloaded) as [(input & Hinput & _)|[-> _]]; [|done].
    unfold boardToTensor in Hinput. by rewrite flatten_short in Hinput.
Qed.

(** X10.  The position evaluator of the engine, fed by the network: on a
    7x7 board it returns a number of [0,1] provided the model's predictions
    are in [0,1]; the request to the network is never a rejection; the
    number is the heuristic evaluation when the network is not loaded or
    the timer fires first; and the random number that the network falls
    back on when it has no model plays no part in it. *)
Theorem evaluatePosition_with_network (T : Type) (num : Number T)
    (laws : UnitQuotients T) (nn : NeuralNetwork) (rnd : T)
    (predict : list T → Result T) (timerFirst : bool) (b : Board)
    (Hwf : wf_board b)
    (Hpredict : ∀ input p, predict input = Ok p → in_unit p) :
  ∃ r, evaluatePosition nn (request nn rnd predict timerFirst b) b = Ok r
       ∧ in_unit r
       ∧ request nn rnd predict timerFirst b ≠ Rejected
       ∧ (isLoaded nn = false ∨ timerFirst = true →
          heuristicEvaluation b = Ok r)
       ∧ ∀ rnd', evaluatePosition nn (request nn rnd' predict timerFirst b) b
                 = Ok r.
Proof.
  destruct (heuristicEvaluation_wf (T := T) b Hwf) as (h & Hh & Hrange).
  unfold evaluatePosition, request.
  destruct (isLoaded nn) eqn:Hloaded; cbn.
  2:{ exists h. split_and!; [done..| |done|done].
      destruct timerFirst; [done|].
      by destruct (network_evaluatePosition_Ok nn rnd predict b) as (v & -> & _). }
  destruct timerFirst; cbn.
  { exists h. by split_and!. }
  destruct (network_evaluatePosition_Ok nn rnd predict b)
    as (v & Hrun & _ & Hon).
  rewrite Hrun. cbn. exists v. split_and!; [done| |done| |].
  - destruct (Hon Hloaded) as [(input & _ & Hp)|[-> _]];
      [by eapply Hpredict|apply in_unit_half].
  - intros [?|?]; discriminate.
  - intros rnd'. revert Hrun. unfold Network.evaluatePosition.
    unfold isLoaded in Hloaded.
    destruct (isModelLoaded nn), (hasModel nn); try discriminate Hloaded.
    cbn. by intros ->.
Qed.

(** ** Claim C7 *)

(** C7, counterexample to the clause on a learned strategy that raises an
    error, in binary64.  The human stands in the corner (0,0) with three
    moves, the software agent at the centre with eight; the model is loaded
    and its prediction throws.  [NeuralNetwork.evaluatePosition] catches the
    error and returns 0.5, so the race is won by a promise that resolves,
    and the evaluator returns 0.5; the heuristic evaluation of the same
    board is 8/11. *)
Lemma failed_prediction_is_not_heuristic :
  wf_board (board (sessionOf placedEngine "g"))
  ∧ isLoaded loadedModel = true
  ∧ evaluatePosition (T := PrimFloat.float) loadedModel
      (request loadedModel (numOf 0) (λ _, Throw NetworkError) false
               (board (sessionOf placedEngine "g")))
      (board (sessionOf placedEngine "g"))
    = Ok (numDiv (numOf 1) (numOf 2))
  ∧ heuristicEvaluation (T := PrimFloat.float)
      (board (sessionOf placedEngine "g"))
    = Ok (numDiv (numOf 8) (numOf 11))
  ∧ numGt (numDiv (numOf 8) (numOf 11) : PrimFloat.float)
          (numDiv (numOf 1) (numOf 2)) = true.
Proof.
  split_and!; [|by vm_compute..].
  vm_compute. split; [reflexivity|repeat constructor].
Qed.

(** C7 (as amended).  On every 7x7 board the evaluator call, fed by the
    network as the engine feeds it, returns a number and never an
    exception.  When the learned model is not loaded, or loses the race
    against the 50 ms timer, the number is the heuristic evaluation of that
    same board, which lies in [0,1].  Otherwise it is the model's
    prediction for the board, or, when the prediction raises an error, the
    0.5 that the network's own handler returns -- not the heuristic
    evaluation.  So the number lies in [0,1] whenever the model's
    prediction for the board does.  This is so with the numbers of
    JavaScript, binary64, and with exact rationals ([binary64_unit],
    [rational_unit]). *)
Theorem evaluatePosition_fallbacks (T : Type) (num : Number T)
    (units : UnitQuotients T) (nn : NeuralNetwork) (rnd : T)
    (predict : list T → Result T) (timerFirst : bool) (b : Board)
    (Hwf : wf_board b) :
  ∃ r h input,
    evaluatePosition nn (request nn rnd predict timerFirst b) b = Ok r
    ∧ heuristicEvaluation b = Ok h
    ∧ in_unit h
    ∧ boardToTensor b = Ok input
    ∧ r = (if negb (isLoaded nn) || timerFirst then h
           else match predict input with
                | Ok p => p
                | Throw _ => numDiv (numOf 1) (numOf 2)
                end)
    ∧ in_unit (numDiv (numOf 1) (numOf 2) : T)
    ∧ ((∀ p, predict input = Ok p → in_unit p) → in_unit r).
Proof.
  destruct (heuristicEvaluation_wf (T := T) b Hwf) as (h & Hh & Hrange).
  pose proof (boardToTensor_wf (T := T) b Hwf) as Hinput.
  set (input := (λ p : Pos, numDiv (numOf (cellValue (cell_at b p.1 p.2)))
                                   (numOf 3)) <$> allCells) in Hinput.
  assert (Hrun : evaluatePosition nn (request nn rnd predict timerFirst b) b
                 = Ok (if negb (isLoaded nn) || timerFirst then h
                       else match predict input with
                            | Ok p => p
                            | Throw _ => numDiv (numOf 1) (numOf 2)
                            end)).
  { unfold evaluatePosition, request, Network.evaluatePosition, isLoaded.
    rewrite Hh, Hinput.
    destruct (isModelLoaded nn), (hasModel nn), timerFirst; cbn; try done.
    by destruct (predict input). }
  eexists _, h, input. split; [exact Hrun|].
  split_and!; [done..|apply in_unit_half|].
  intros Hpredict.
  destruct (negb (isLoaded nn) || timerFirst); [done|].
  destruct (predict input) as [p|err] eqn:Hp; [by apply Hpredict|].
  apply in_unit_half.
Qed.
(** ** The experience recorder *)

(** X11.  [recordMove] keeps the newest experiences.  With a positive
    capacity and a buffer within it, a call that returns has appended the
    experience of this move (session, player, cell, board and phase) as
    the last element, has dropped the oldest element exactly when the
    buffer was full, and leaves the buffer within the capacity. *)
Theorem recordMove_keeps_newest (gameId : string) (player : Player)
    (move : Pos) (b : Board) (er er' : ExperienceReplay)
    (Hrun : recordMove gameId player move b er = Ok er')
    (Hcap : 0 < maxBufferSize er)
    (Hfit : Z.of_nat (length (experienceBuffer er)) ≤ maxBufferSize er) :
  ∃ x,
    x_gameId x = gameId ∧ x_player x = player ∧ x_move x = move
    ∧ x_board x = b ∧ determineGamePhase b = Ok (x_phase x)
    ∧ last (experienceBuffer er') = Some x
    ∧ maxBufferSize er' = maxBufferSize er
    ∧ Z.of_nat (length (experienceBuffer er')) ≤ maxBufferSize er'
    ∧ experienceBuffer er'
      = (if Z.of_nat (length (experienceBuffer er)) <? maxBufferSize er
         then experienceBuffer er else tail (experienceBuffer er)) ++ [x].
Proof.
  revert Hrun. unfold recordMove.
  destruct (determineGamePhase b) as [phase|] eqn:Hphase; cbn; [|done].
  intros [= <-]. cbn.
  eexists {| x_gameId := gameId; x_player := player; x_move := move;
             x_board := b; x_phase := phase |}.
  cbn. rewrite length_app. cbn [length].
  destruct (experienceBuffer er) as [|y l] eqn:Hbuf; cbn [length] in *.
  - rewrite (proj2 (Z.ltb_ge _ _)) by lia.
    rewrite (proj2 (Z.ltb_lt _ _)) by lia.
    cbn. split_and!; (done || lia).
  - destruct (Z.ltb_spec (maxBufferSize er) (Z.of_nat (S (length l) + 1)))
      as [Hfull|Hroom].
    + rewrite (proj2 (Z.ltb_ge _ (maxBufferSize er))) by lia. cbn.
      rewrite last_snoc, length_app. cbn. split_and!; (done || lia).
    + rewrite (proj2 (Z.ltb_lt _ (maxBufferSize er))) by lia.
      rewrite last_snoc, length_app. cbn. split_and!; (done || lia).
Qed.

Lemma countCells_range P b : 0 ≤ countCells P b ≤ 49.
Proof.
  unfold countCells. split; [lia|].
  pose proof (List.filter_length_le
    (λ p : Pos, match cell_at b p.1 p.2 with Some x => P x | None => false end)
    allCells) as Hlen.
  change (length allCells) with 49%nat in Hlen. lia.
Qed.

Lemma phase_thresholds (n : Z) :
  0 ≤ n ≤ 49 →
  Qle_bool 20 (inject_Z n / inject_Z 49 * 100) = negb (n <=? 9)
  ∧ Qle_bool 60 (inject_Z n / inject_Z 49 * 100) = negb (n <=? 29)
  ∧ PrimFloat.ltb
      (PrimFloat.mul (PrimFloat.div (float_of_Z n) (float_of_Z 49))
                     (float_of_Z 100)) (float_of_Z 20) = (n <=? 9)
  ∧ PrimFloat.ltb
      (PrimFloat.mul (PrimFloat.div (float_of_Z n) (float_of_Z 49))
                     (float_of_Z 100)) (float_of_Z 60) = (n <=? 29).
Proof.
  intros Hn.
  assert (Hall : forallb (λ n,
    Bool.eqb (Qle_bool 20 (inject_Z n / inject_Z 49 * 100)) (negb (n <=? 9))
    && Bool.eqb (Qle_bool 60 (inject_Z n / inject_Z 49 * 100))
                (negb (n <=? 29))
    && Bool.eqb (PrimFloat.ltb
                   (PrimFloat.mul (PrimFloat.div (float_of_Z n) (float_of_Z 49))
                                  (float_of_Z 100)) (float_of_Z 20))
                (n <=? 9)
    && Bool.eqb (PrimFloat.ltb
                   (PrimFloat.mul (PrimFloat.div (float_of_Z n) (float_of_Z 49))
                                  (float_of_Z 100)) (float_of_Z 60))
                (n <=? 29))
    (seqZ 0 50) = true) by by vm_compute.
  rewrite forallb_forall in Hall.
  assert (Hin : In n (seqZ 0 50)) by (apply list_elem_of_In, elem_of_seqZ; lia).
  specialize (Hall n Hin). cbn beta in Hall.
  apply andb_prop in Hall as [Hall H4]. apply andb_prop in Hall as [Hall H3].
  apply andb_prop in Hall as [H1 H2].
  apply Bool.eqb_prop in H1, H2, H3, H4. done.
Qed.

(** X12.  The thresholds of [determineGamePhase] in cells: on a 7x7 board
    the phase is 'opening' with at most 9 blocked cells, 'midgame' with 10
    to 29 and 'endgame' from 30 on.  The percentage is compared the same
    way in binary64, as JavaScript computes it, and in exact arithmetic. *)
Theorem determineGamePhase_thresholds (b : Board) (Hwf : wf_board b) :
  let blocked := countCells (λ x, bool_decide (x = BLOCKED)) b in
  0 ≤ blocked ≤ 49
  ∧ determineGamePhase b
    = Ok (if blocked <=? 9 then "opening"
          else if blocked <=? 29 then "midgame" else "endgame")
  ∧ PrimFloat.ltb
      (PrimFloat.mul (PrimFloat.div (float_of_Z blocked) (float_of_Z 49))
                     (float_of_Z 100)) (float_of_Z 20) = (blocked <=? 9)
  ∧ PrimFloat.ltb
      (PrimFloat.mul (PrimFloat.div (float_of_Z blocked) (float_of_Z 49))
                     (float_of_Z 100)) (float_of_Z 60) = (blocked <=? 29).
Proof.
  intros blocked.
  pose proof (countCells_range (λ x, bool_decide (x = BLOCKED)) b) as Hrange.
  fold blocked in Hrange.
  destruct (phase_thresholds blocked Hrange) as (H20 & H60 & Hf20 & Hf60).
  split_and!; [lia..| |done|done].
  unfold determineGamePhase. rewrite scanBoard_wf by done. cbn.
  unfold gamePhaseOf. fold blocked. rewrite H20, H60.
  destruct (blocked <=? 9) eqn:H9; cbn; [done|].
  by destruct (blocked <=? 29).
Qed.

(** *** The most frequent patterns *)

Lemma insertByCount_perm x l : insertByCount x l ≡ₚ x :: l.
Proof.
  induction l as [|y l IH]; cbn; [done|].
  destruct (y.2 <=? x.2); [done|]. by rewrite IH, Permutation_swap.
Qed.

Lemma sortByCount_perm l : sortByCount l ≡ₚ l.
Proof.
  induction l as [|x l IH]; cbn; [done|].
  by rewrite insertByCount_perm, IH.
Qed.

Lemma insertByCount_sorted x l :
  StronglySorted (λ a b : string * Z, b.2 ≤ a.2) l →
  StronglySorted (λ a b : string * Z, b.2 ≤ a.2) (insertByCount x l).
Proof.
  induction 1 as [|y l Hl IH Hy]; cbn; [by repeat constructor|].
  destruct (y.2 <=? x.2) eqn:Hle.
  - constructor; [by constructor|]. constructor; [lia|].
    eapply Forall_impl; [exact Hy|]. cbn. intros; lia.
  - constructor; [done|]. rewrite insertByCount_perm.
    constructor; [lia|done].
Qed.

Lemma sortByCount_sorted l :
  StronglySorted (λ a b : string * Z, b.2 ≤ a.2) (sortByCount l).
Proof.
  induction l as [|x l IH]; cbn; [constructor|by apply insertByCount_sorted].
Qed.

Lemma insertByCount_stable n x l :
  List.filter (λ e : string * Z, e.2 =? n) (insertByCount x l)
  = List.filter (λ e : string * Z, e.2 =? n) (x :: l).
Proof.
  induction l as [|y l IH]; [done|]. cbn -[Z.eqb].
  destruct (y.2 <=? x.2) eqn:Hle; [done|]. cbn -[Z.eqb]. rewrite IH.
  cbn -[Z.eqb].
  destruct (x.2 =? n) eqn:Hx, (y.2 =? n) eqn:Hy; try done. lia.
Qed.

Lemma sortByCount_stable n l :
  List.filter (λ e : string * Z, e.2 =? n) (sortByCount l)
  = List.filter (λ e : string * Z, e.2 =? n) l.
Proof.
  induction l as [|x l IH]; [done|].
  change (sortByCount (x :: l)) with (insertByCount x (sortByCount l)).
  rewrite insertByCount_stable. cbn -[Z.eqb]. by rewrite IH.
Qed.

(** X13.  [getTopPatterns] (with a limit that is not negative) returns the
    [limit] most frequent patterns, or all of them if there are fewer, by
    descending count: the entries left out are as many as remain and none
    of them has a greater count than an entry returned; and among the
    entries of one count, those returned are the first ones in the map's
    order, in that order. *)
Theorem getTopPatterns_most_frequent (entries : list (string * Z))
    (limit : Z) (Hlimit : 0 ≤ limit) :
  let top := getTopPatterns entries limit in
  length top = (Z.to_nat limit `min` length entries)%nat
  ∧ StronglySorted (λ a b : string * Z, b.2 ≤ a.2) top
  ∧ (∃ rest, entries ≡ₚ top ++ rest
             ∧ Forall (λ y, Forall (λ x : string * Z, y.2 ≤ x.2) top) rest)
  ∧ ∀ n, List.filter (λ e : string * Z, e.2 =? n) top
         `prefix_of` List.filter (λ e : string * Z, e.2 =? n) entries.
Proof.
  intros top. unfold top, getTopPatterns, slice0.
  replace (0 <=? limit) with true by lia.
  pose proof (sortByCount_sorted entries) as Hsorted.
  pose proof (sortByCount_perm entries) as Hperm.
  rewrite <- (take_drop (Z.to_nat limit) (sortByCount entries)) in Hsorted, Hperm.
  split_and!.
  - by rewrite length_take, (Permutation_length (sortByCount_perm entries)).
  - by apply StronglySorted_app_1_l in Hsorted.
  - exists (drop (Z.to_nat limit) (sortByCount entries)).
    split; [done|]. apply Forall_forall. intros y Hy.
    apply Forall_forall. intros x Hx.
    by apply (StronglySorted_app_1_elem_of _ _ _ _ _ Hsorted).
  - intros n. rewrite <- (sortByCount_stable n entries).
    rewrite <- (take_drop (Z.to_nat limit) (sortByCount entries)) at 2.
    rewrite List.filter_app. by apply prefix_app_r.
Qed.

(** *** Sums of counts *)

Lemma sumValues_insert init k v (m : gmap string Z) :
  m !! k = None → sumValues init (<[k := v]> m) = sumValues init m + v.
Proof.
  intros Hk. unfold sumValues. rewrite map_fold_insert_L; [done| |done].
  intros; lia.
Qed.

Lemma sumValues_init init (m : gmap string Z) :
  sumValues init m = init + sumValues 0 m.
Proof.
  induction m as [|k v m Hk _ IH] using map_first_key_ind.
  - unfold sumValues. rewrite !map_fold_empty. lia.
  - rewrite !sumValues_insert by done. lia.
Qed.

Lemma sumValues_nonneg (m : gmap string Z) :
  map_Forall (λ _ n, 0 ≤ n) m → 0 ≤ sumValues 0 m.
Proof.
  induction m as [|k v m Hk _ IH] using map_first_key_ind; intros Hm.
  - unfold sumValues. by rewrite map_fold_empty.
  - rewrite sumValues_insert by done.
    apply map_Forall_insert in Hm as [Hv Hm]; [|done].
    specialize (IH Hm). lia.
Qed.

Lemma sumValues_lookup (m : gmap string Z) k n :
  map_Forall (λ _ n, 0 ≤ n) m → m !! k = Some n → n ≤ sumValues 0 m.
Proof.
  intros Hm Hk. rewrite <- (insert_delete_id m k n Hk).
  rewrite sumValues_insert by apply lookup_delete_eq.
  assert (0 ≤ sumValues 0 (delete k m)); [|lia].
  apply sumValues_nonneg. intros j x Hj.
  apply lookup_delete_Some in Hj as [_ Hj]. by apply (Hm j).
Qed.

Lemma sumValues_bump k (m : gmap string Z) :
  sumValues 0 (bump k m) = sumValues 0 m + 1.
Proof.
  unfold bump. destruct (m !! k) as [n|] eqn:Hk; cbn.
  - rewrite <- (insert_delete_id m k n Hk) at 2.
    rewrite <- insert_delete_eq.
    rewrite !sumValues_insert by apply lookup_delete_eq. lia.
  - by rewrite sumValues_insert.
Qed.

(** *** Training data *)

Lemma calculateHumanMoveProbability_wf (x : Experience) (hp : HumanPatterns) :
  wf_board (x_board x) →
  map_Forall (λ _ n, 0 ≤ n) (movePreferences hp) →
  ∃ p, calculateHumanMoveProbability x hp = Ok p ∧ (0 < p)%Q ∧ (p <= 1)%Q.
Proof.
  intros Hwf Hm. unfold calculateHumanMoveProbability, determineGamePhase.
  rewrite scanBoard_wf by done. cbn.
  set (key := encodeMovePattern _ _).
  set (frequency := match movePreferences hp !! key with
                    | Some n => if n =? 0 then 1 else n
                    | None => 1
                    end).
  set (total := sumValues 1 (movePreferences hp)).
  assert (Hfreq : 0 < frequency ≤ total).
  { unfold frequency, total. rewrite sumValues_init.
    pose proof (sumValues_nonneg _ Hm) as Hsum.
    destruct (movePreferences hp !! key) as [n|] eqn:Hk; [|lia].
    pose proof (Hm _ _ Hk) as Hn. cbn in Hn.
    pose proof (sumValues_lookup _ _ _ Hm Hk).
    destruct (n =? 0) eqn:H0; lia. }
  eexists. split; [done|].
  assert (Ht : (0 < inject_Z total)%Q).
  { replace 0%Q with (inject_Z 0) by reflexivity. rewrite <- Zlt_Qlt. lia. }
  split.
  - apply Qlt_shift_div_l; [done|]. rewrite Qmult_0_l.
    replace 0%Q with (inject_Z 0) by reflexivity. rewrite <- Zlt_Qlt. lia.
  - apply Qle_shift_div_r; [done|]. rewrite Qmult_1_l.
    rewrite <- Zle_Qle. lia.
Qed.

(** X14.  [generateTrainingData] on a buffer of experiences with 7x7
    boards and tables of counts that are not negative returns, giving one
    example for each experience of the human's, in the order of the
    buffer, and none for an experience of the software agent's; each
    example carries the board and the phase of its experience, and a
    probability greater than 0 and at most 1. *)
Theorem generateTrainingData_examples (er : ExperienceReplay)
    (Hboards : Forall (λ x, wf_board (x_board x)) (experienceBuffer er))
    (Hcounts : map_Forall (λ _ n, 0 ≤ n) (movePreferences (humanPatterns er))) :
  ∃ data,
    generateTrainingData er = Ok data
    ∧ (λ t, (t_board t, t_context t)) <$> data
      = (λ x, (x_board x, x_phase x))
          <$> List.filter (λ x, bool_decide (x_player x = HUMAN))
                          (experienceBuffer er)
    ∧ Forall (λ t, (0 < humanMoveProbability t)%Q
                   ∧ (humanMoveProbability t <= 1)%Q) data.
Proof.
  unfold generateTrainingData.
  assert (Hgen : ∀ buffer acc,
    Forall (λ x, wf_board (x_board x)) buffer →
    Forall (λ t, (0 < humanMoveProbability t)%Q
                 ∧ (humanMoveProbability t <= 1)%Q) acc →
    ∃ data,
      foldl (λ (acc : Result (list TrainingExample)) (x : Experience),
               trainingData ← acc;
               match x_player x with
               | HUMAN =>
                 p ← calculateHumanMoveProbability x (humanPatterns er);
                 mret (trainingData
                         ++ [ {| t_board := x_board x;
                                 humanMoveProbability := p;
                                 t_context := x_phase x |} ])
               | AI => mret trainingData
               end)
            (Ok acc) buffer = Ok data
      ∧ (λ t, (t_board t, t_context t)) <$> data
        = ((λ t, (t_board t, t_context t)) <$> acc)
          ++ ((λ x, (x_board x, x_phase x))
                <$> List.filter (λ x, bool_decide (x_player x = HUMAN)) buffer)
      ∧ Forall (λ t, (0 < humanMoveProbability t)%Q
                     ∧ (humanMoveProbability t <= 1)%Q) data).
  { intros buffer. induction buffer as [|x buffer IH]; intros acc Hb Hacc.
    - exists acc. cbn. by rewrite app_nil_r.
    - apply Forall_cons in Hb as [Hx Hb]. cbn.
      destruct (x_player x) eqn:Hplayer; cbn.
      + destruct (calculateHumanMoveProbability_wf x (humanPatterns er)
                    Hx Hcounts) as (p & -> & Hp0 & Hp1). cbn.
        destruct (IH (acc ++ [ {| t_board := x_board x;
                                  humanMoveProbability := p;
                                  t_context := x_phase x |} ]) Hb)
          as (data & Hrun & Hdata & Hrange).
        { apply Forall_app. split; [done|]. by repeat constructor. }
        exists data. split; [done|]. split; [|done].
        rewrite Hdata, fmap_app. cbn. by rewrite <- app_assoc.
      + destruct (IH acc Hb Hacc) as (data & Hrun & Hdata & Hrange).
        by exists data. }
  destruct (Hgen (experienceBuffer er) [] Hboards) as (data & ? & ? & ?);
    [constructor|].
  by exists data.
Qed.

(** *** Finished games *)

Lemma sumValues_window_loop (f : nat → string) (l : list nat)
    (hp : HumanPatterns) :
  let hp' := foldl (λ hp i, set_movePreferences
                              (bump (f i) (movePreferences hp)) hp) hp l in
  sumValues 0 (movePreferences hp')
  = sumValues 0 (movePreferences hp) + Z.of_nat (length l)
  ∧ startingPositions hp' = startingPositions hp
  ∧ trapAttempts hp' = trapAttempts hp
  ∧ escapePatterns hp' = escapePatterns hp.
Proof.
  revert hp. induction l as [|i l IH]; intros hp; cbn.
  - split_and!; [lia|done..].
  - destruct (IH (set_movePreferences (bump (f i) (movePreferences hp)) hp))
      as (Hsum & ? & ? & ?).
    cbn in *. rewrite sumValues_bump in Hsum. split_and!; [lia|done..].
Qed.

(** X15.  What a finished game adds to the pattern tables.  For a game
    the human has won, [analyzeGamePatterns] adds one count for each
    window of three consecutive human moves: two fewer than the human's
    moves.  For a game the software agent has won it adds one count for
    every human move but the last, each booked as a mistake whatever the
    move was.  Only the table of move preferences changes. *)
Theorem analyzeGamePatterns_counts (moves : list MoveRecord)
    (winner' : option Player) (hp : HumanPatterns) :
  let n := length (humanMovesOf moves) in
  let hp' := analyzeGamePatterns moves winner' hp in
  sumValues 0 (movePreferences hp')
  = sumValues 0 (movePreferences hp)
    + Z.of_nat (match winner' with
                | Some HUMAN => n - 2
                | Some AI => n - 1
                | None => 0
                end)
  ∧ startingPositions hp' = startingPositions hp
  ∧ trapAttempts hp' = trapAttempts hp
  ∧ escapePatterns hp' = escapePatterns hp.
Proof.
  intros n hp'. unfold hp', analyzeGamePatterns.
  destruct winner' as [[|]|].
  - unfold analyzeWinningHumanStrategy. fold n.
    destruct (sumValues_window_loop
      (λ i, "winning_sequence_"
            +:+ joinArrow ((λ m, cellKey (mr_to m))
                             <$> take 3 (drop i (humanMovesOf moves))))
      (seq 0 (n - 2)) hp) as (Hsum & ? & ? & ?).
    rewrite length_seq in Hsum. done.
  - unfold analyzeLosingHumanStrategy. fold n.
    assert (Hloop : ∀ l hp0,
      Forall (λ i, (S i < n)%nat) l →
      foldl (λ hp1 (i : nat),
               match humanMovesOf moves !! i, humanMovesOf moves !! S i with
               | Some move, Some nextMove =>
                 if ledToTrap move nextMove then
                   set_movePreferences
                     (bump ("mistake_" +:+ cellKey (mr_to move))
                           (movePreferences hp1)) hp1
                 else hp1
               | _, _ => hp1
               end) hp0 l
      = foldl (λ hp1 i,
                 set_movePreferences
                   (bump (match humanMovesOf moves !! i with
                          | Some move => "mistake_" +:+ cellKey (mr_to move)
                          | None => ""
                          end) (movePreferences hp1)) hp1) hp0 l).
    { intros l. induction l as [|i l IH]; intros hp0 Hl; [done|].
      apply Forall_cons in Hl as [Hi Hl]. cbn.
      destruct (lookup_lt_is_Some_2 (humanMovesOf moves) i) as [m ->];
        [fold n; lia|].
      destruct (lookup_lt_is_Some_2 (humanMovesOf moves) (S i)) as [m' ->];
        [fold n; lia|].
      cbn. by apply IH. }
    rewrite Hloop.
    2:{ apply Forall_forall. intros i Hi%elem_of_seq. lia. }
    destruct (sumValues_window_loop
      (λ i, match humanMovesOf moves !! i with
            | Some move => "mistake_" +:+ cellKey (mr_to move)
            | None => ""
            end)
      (seq 0 (n - 1)) hp) as (Hsum & ? & ? & ?).
    rewrite length_seq in Hsum. done.
  - split_and!; [lia|done..].
Qed.
(** ** Markers and positions *)

Lemma cell_at_set_cell b p v r c :
  wf_board b → valid p →
  cell_at (set_cell b p v) r c
  = if bool_decide (p = (r, c)) then Some v else cell_at b r c.
Proof.
  intros Hwf Hp. case_bool_decide as Heq.
  - subst p. apply (cell_at_set_cell_eq b (r, c)). by apply cell_at_wf.
  - by apply cell_at_set_cell_ne.
Qed.

Lemma trail_apart_take n h : trail_apart h → trail_apart (take n h).
Proof.
  intros Hh i j mi mj Hij Hi Hj.
  apply lookup_take_Some in Hi as [Hi _], Hj as [Hj _].
  exact (Hh i j mi mj Hij Hi Hj).
Qed.

Lemma trail_apart_snoc h m :
  trail_apart h →
  (mr_player m = HUMAN →
   Forall (λ mi, mr_player mi = HUMAN →
                 mr_to m ≠ mr_to mi ∧ Some (mr_to m) ≠ mr_from mi
                 ∧ mr_from m ≠ mr_from mi) h) →
  trail_apart (h ++ [m]).
Proof.
  intros Hh Hm i j mi mj Hij Hi Hj Hpi Hpj.
  apply lookup_lt_Some in Hj as Hjlt. rewrite length_app in Hjlt. cbn in Hjlt.
  rewrite lookup_app_l in Hi by lia.
  destruct (decide (j < length h)%nat) as [Hlt|Hge].
  - rewrite lookup_app_l in Hj by done.
    exact (Hh i j mi mj Hij Hi Hj Hpi Hpj).
  - rewrite lookup_app_r in Hj by lia.
    replace (j - length h)%nat with 0%nat in Hj by lia.
    injection Hj as <-. specialize (Hm Hpj). rewrite Forall_forall in Hm.
    apply Hm; [|done]. by eapply list_elem_of_lookup_2.
Qed.

Lemma cell_at_set_cell_pos b p v (q : Pos) :
  wf_board b → valid p →
  cell_at (set_cell b p v) q.1 q.2
  = if bool_decide (p = q) then Some v else cell_at b q.1 q.2.
Proof.
  intros Hwf Hp. rewrite cell_at_set_cell by done. by destruct q.
Qed.

(** A committed move keeps the markers on the positions. *)
Lemma marks_inv_after_move player newPos g hp ap :
  game_inv g → marks_inv g → gamePhase g = playing →
  humanPos g = Some hp → aiPos g = Some ap →
  newPos ∈ legalMovesOf g player →
  ∀ cp hp' ap',
    marks_inv (set_currentPlayer cp
                 (afterCheck (applyMove player newPos g) hp' ap')).
Proof.
  intros (Hwf & Hrecs & _) Hmarks Hph Hhp Hap Hin cp hp' ap' _.
  destruct Hmarks as ((hp0 & ap0 & Hhp0 & Hap0 & Hhcell & Hacell)
                      & Htrail & Hapart); [by rewrite Hph|].
  assert (hp0 = hp) as -> by congruence.
  assert (ap0 = ap) as -> by congruence.
  assert (Hvh : valid hp) by (by eapply cell_at_Some_valid).
  assert (Hva : valid ap) by (by eapply cell_at_Some_valid).
  set (pos := match player with HUMAN => hp | AI => ap end).
  assert (Hpos : positionOf g player = Some pos) by (by destruct player).
  unfold legalMovesOf in Hin. rewrite Hpos in Hin.
  apply elem_of_legalCells in Hin as (Hstep & Hvn & Hempty).
  assert (Hvp : valid pos) by (by destruct player).
  assert (Hwf1 : wf_board (set_cell (board g) pos BLOCKED))
    by by apply wf_board_set_cell.
  assert (Hcell : ∀ q : Pos,
    cell_at (set_cell (set_cell (board g) pos BLOCKED) newPos (Mark player))
            q.1 q.2
    = if bool_decide (newPos = q) then Some (Mark player)
      else if bool_decide (pos = q) then Some BLOCKED
      else cell_at (board g) q.1 q.2).
  { intros q. rewrite cell_at_set_cell_pos by done.
    case_bool_decide; [done|]. by rewrite cell_at_set_cell_pos. }
  assert (Hfresh : ∀ (q : Pos) x,
    cell_at (board g) q.1 q.2 = Some x → x ≠ EMPTY → newPos ≠ q).
  { intros q x Hq Hx <-. congruence. }
  assert (Hhne : newPos ≠ hp) by (by eapply Hfresh).
  assert (Hane : newPos ≠ ap) by (by eapply Hfresh).
  assert (Hha : hp ≠ ap) by (intros <-; congruence).
  cbn. rewrite humanPos_afterCheck, aiPos_afterCheck, board_afterCheck,
    moveHistory_afterCheck.
  unfold applyMove. rewrite Hpos. cbn. split_and!.
  - destruct player; cbn in *.
    + exists newPos, ap. rewrite Hap. split_and!; [done..| |].
      * by rewrite Hcell, bool_decide_true.
      * by rewrite Hcell, bool_decide_false, bool_decide_false.
    + exists hp, newPos. rewrite Hhp. split_and!; [done..| |].
      * by rewrite Hcell, bool_decide_false, bool_decide_false.
      * by rewrite Hcell, bool_decide_true.
  - apply Forall_app. split.
    + eapply Forall_impl; [exact Htrail|]. cbn.
      intros m Hm Hplayer.
      destruct (Hm Hplayer) as ((from & Hfrom & Hfc) & Hto).
      split.
      * exists from. split; [done|]. rewrite Hcell.
        rewrite bool_decide_false by (by eapply Hfresh).
        by case_bool_decide.
      * rewrite !Hcell.
        rewrite bool_decide_false by (destruct Hto; by eapply Hfresh).
        case_bool_decide; [by right|done].
    + constructor; [|constructor]. intros Hplayer. cbn in *. subst player.
      cbn in *. split.
      * exists hp. split; [done|].
        by rewrite Hcell, bool_decide_false, bool_decide_true.
      * left. by rewrite Hcell, bool_decide_true.
  - apply trail_apart_snoc; [done|]. cbn. intros ->. cbn in *.
    eapply Forall_impl; [exact Htrail|]. cbn.
    intros m Hm Hplayer.
    destruct (Hm Hplayer) as ((from & Hfrom & Hfc) & Hto).
    split_and!.
    + destruct Hto; by eapply Hfresh.
    + rewrite Hfrom. intros [= ->]. by eapply Hfresh.
    + rewrite Hfrom. intros [= ->]. congruence.
Qed.

Lemma marks_inv_placed hp ap g :
  valid hp →
  (if bool_decide (hp = center)
   then ap ∈ legalCells (set_cell initializeBoard center (Mark HUMAN)) center
   else ap = center) →
  moveHistory g = [] →
  marks_inv (placed hp ap g).
Proof.
  intros Hhp Hap Hnil _. unfold placed. cbn. rewrite Hnil.
  assert (Hva : valid ap ∧ ap ≠ hp).
  { case_bool_decide as Hc.
    - apply elem_of_legalCells in Hap as (Hstep & ? & _). split; [done|].
      subst hp. intros ->. unfold chebyshev in Hstep. lia.
    - subst ap. split; [apply valid_center|done]. }
  destruct Hva as [Hva Hne].
  assert (Hwf1 : wf_board (set_cell initializeBoard hp (Mark HUMAN)))
    by apply wf_board_set_cell, wf_board_initializeBoard.
  split_and!; [|constructor|].
  - exists hp, ap. split_and!; [done..| |].
    + rewrite cell_at_set_cell_pos, bool_decide_false by done.
      rewrite cell_at_set_cell_pos
        by (done || apply wf_board_initializeBoard).
      by rewrite bool_decide_true.
    + rewrite cell_at_set_cell_pos by done. by rewrite bool_decide_true.
  - intros i j mi mj _ Hi. by rewrite lookup_nil in Hi.
Qed.

Lemma marks_inv_takenBack idx m from g :
  game_inv g → marks_inv g → gamePhase g ≠ starting →
  moveHistory g !! idx = Some m → mr_player m = HUMAN →
  mr_from m = Some from →
  marks_inv (takenBack idx m from g).
Proof.
  intros (Hwf & Hrecs & _) Hmarks Hns Hm Hplayer Hfrom _.
  destruct (Hmarks Hns) as ((hp & ap & Hhp & Hap & Hhcell & Hacell)
                            & Htrail & Hapart).
  rewrite Forall_forall in Htrail, Hrecs.
  pose proof (list_elem_of_lookup_2 _ _ _ Hm) as Hin.
  destruct (Hrecs m Hin) as (Hvto & from' & Hfrom' & Hvfrom).
  assert (from' = from) as -> by congruence.
  destruct (Htrail m Hin Hplayer) as ((from' & Hfrom'' & Hfc) & Hto).
  assert (from' = from) as -> by congruence.
  assert (Hwf1 : wf_board (set_cell (board g) (mr_to m) EMPTY))
    by by apply wf_board_set_cell.
  assert (Hcell : ∀ q : Pos,
    cell_at (set_cell (set_cell (board g) (mr_to m) EMPTY) from
                      (Mark (mr_player m))) q.1 q.2
    = if bool_decide (from = q) then Some (Mark HUMAN)
      else if bool_decide (mr_to m = q) then Some EMPTY
      else cell_at (board g) q.1 q.2).
  { intros q. rewrite cell_at_set_cell_pos by done. rewrite Hplayer.
    case_bool_decide; [done|]. by rewrite cell_at_set_cell_pos. }
  unfold takenBack. cbn. split_and!.
  - exists from, ap. split_and!; [done..| |].
    + by rewrite Hcell, bool_decide_true.
    + rewrite Hcell, bool_decide_false, bool_decide_false; [done| |].
      * intros Heq. rewrite Heq in Hto. destruct Hto; congruence.
      * intros ->. congruence.
  - apply Forall_forall. intros y Hy Hyp.
    apply list_elem_of_lookup_1 in Hy as [i Hi].
    apply lookup_take_Some in Hi as [Hi Hlt].
    destruct (Hapart i idx y m) as (Hto1 & Hto2 & Hfrom1); [lia|done..|].
    destruct (Htrail y (list_elem_of_lookup_2 _ _ _ Hi) Hyp)
      as ((fy & Hfy & Hfyc) & Hyto).
    rewrite Hfy, Hfrom in *.
    split.
    + exists fy. split; [done|]. rewrite Hcell.
      rewrite bool_decide_false by congruence.
      rewrite bool_decide_false by congruence. done.
    + rewrite !Hcell. case_bool_decide; [by left|].
      by rewrite bool_decide_false.
  - by apply trail_apart_take.
Qed.

Lemma engine_marks_inv_insert e gameId g st er :
  engine_marks_inv e → marks_inv g →
  engine_marks_inv (withSession gameId g st er e).
Proof.
  intros He Hg gameId' g'. cbn. rewrite lookup_insert.
  case_decide; [by intros [= <-] | apply He].
Qed.

(** Every session of a reachable engine satisfies [marks_inv]. *)
Lemma reachable_marks_inv e : reachable e → engine_marks_inv e.
Proof.
  induction 1 as [st er|e gameId playerId _ IH|e rnd gameId row col Hr IH H0 H1
                 |e gameId row col Hr IH
                 |e T num cfg clock nn learned fuel gameId r e' Hr IH Hrun
                 |e gameId Hr IH|e _ IH|e gameId _ IH].
  - intros gameId g. cbn. by rewrite lookup_empty.
  - unfold after, createGame. run_monad.
    apply (engine_marks_inv_insert e gameId _ (gameStats e)
             (experienceReplay e) IH).
    by intros [].
  - apply reachable_inv in Hr as Hinv. unfold after.
    pose proof (placeStartingPosition_cases rnd gameId row col e H0 H1 Hinv)
      as Hcases.
    destruct (activeGames e !! gameId) as [game|] eqn:Hgame;
      [|by rewrite Hcases].
    case_bool_decide as Hph; [|by rewrite Hcases].
    case_bool_decide as Hrow; [|by rewrite Hcases].
    case_bool_decide as Hcol; [|by rewrite Hcases].
    destruct Hcases as (ap & Hap & ->). cbn.
    apply engine_marks_inv_insert; [done|].
    destruct (Hinv _ _ Hgame) as (_ & _ & Hstart). rewrite Hph in Hstart.
    apply marks_inv_placed; [|done|apply Hstart].
    apply isValidPosition_spec. unfold BOARD_SIZE. cbn. lia.
  - apply reachable_inv in Hr as Hinv. unfold after.
    pose proof (makeHumanMove_cases gameId row col e Hinv) as Hcases.
    destruct (activeGames e !! gameId) as [game|] eqn:Hgame;
      [|by rewrite Hcases].
    case_bool_decide as Hok; [|by rewrite Hcases].
    destruct Hok as (Hph & Hcp & Hin).
    destruct Hcases as (ap & er' & Hap & _ & ->). cbn.
    apply engine_marks_inv_insert; [done|].
    assert (Hns : gamePhase game ≠ starting) by (by rewrite Hph).
    destruct (game_inv_positions game (Hinv _ _ Hgame) Hns)
      as (hp & ap' & Hhp & Hap' & _).
    by apply (marks_inv_after_move HUMAN (row, col) game hp ap
                (Hinv _ _ Hgame) (IH _ _ Hgame) Hph Hhp Hap Hin).
  - apply reachable_inv in Hr as Hinv.
    pose proof (makeAIMove_cases cfg clock nn learned fuel gameId e r e'
                  Hinv Hrun) as Hcases.
    destruct (activeGames e !! gameId) as [game|] eqn:Hgame;
      [|by destruct Hcases as [_ ->]].
    case_bool_decide as Hok; [|by destruct Hcases as [_ ->]].
    destruct Hok as [Hph Hcp].
    case_bool_decide as Hnone.
    + destruct Hcases as [_ ->]. apply engine_marks_inv_insert; [done|].
      intros _. cbn. apply (IH _ _ Hgame). by rewrite Hph.
    + destruct Hcases as (hp & bestMove & er' & Hhp & Hin & _ & _ & ->).
      apply engine_marks_inv_insert; [done|].
      assert (Hns : gamePhase game ≠ starting) by (by rewrite Hph).
      destruct (game_inv_positions game (Hinv _ _ Hgame) Hns)
        as (hp' & ap & Hhp' & Hap & _).
      by apply (marks_inv_after_move AI bestMove game hp ap
                  (Hinv _ _ Hgame) (IH _ _ Hgame) Hph Hhp Hap Hin).
  - apply reachable_inv in Hr as Hinv. unfold after.
    pose proof (undoLastMove_cases gameId e Hinv) as Hcases.
    destruct (activeGames e !! gameId) as [game|] eqn:Hgame;
      [|by rewrite Hcases].
    case_bool_decide as Hph; [by rewrite Hcases|].
    case_bool_decide as Hnil; [by rewrite Hcases|].
    destruct (lastHumanMoveIndex _ _) as [idx|]; [|by rewrite Hcases].
    destruct Hcases as (m & from & Hm & Hplayer & Hfrom & ->). cbn.
    apply engine_marks_inv_insert; [done|].
    case_bool_decide.
    + by intros [].
    + apply marks_inv_takenBack;
        [apply (Hinv _ _ Hgame)|apply (IH _ _ Hgame)| |done..].
      intros Hst. destruct (Hinv _ _ Hgame) as (_ & _ & Hstart).
      rewrite Hst in Hstart. by destruct Hstart.
  - exact IH.
  - intros gameId' g. cbn. rewrite lookup_delete.
    case_decide; [done|apply IH].
Qed.

(** X16.  On a reachable engine, positions and board agree in every
    session that has left the Starting phase, ended sessions included:
    both positions are set, the cell read at the human's position holds the
    human's marker, the cell read at the software agent's position holds
    the software agent's marker, and the two positions differ. *)
Theorem markers_stand_on_positions (e : Engine) (gameId : string) (g : Game)
    (Hreach : reachable e) (Hgame : getGame gameId e = Some g)
    (Hphase : gamePhase g ≠ starting) :
  ∃ hp ap,
    humanPos g = Some hp ∧ aiPos g = Some ap
    ∧ read_cell (board g) hp.1 hp.2 = Ok (Some (Mark HUMAN))
    ∧ read_cell (board g) ap.1 ap.2 = Ok (Some (Mark AI))
    ∧ bool_decide (hp = ap) = false.
Proof.
  pose proof (reachable_inv e Hreach _ _ Hgame) as (Hwf & _).
  destruct (reachable_marks_inv e Hreach _ _ Hgame Hphase)
    as ((hp & ap & Hhp & Hap & Hhcell & Hacell) & _).
  exists hp, ap. split_and!; [done..| | |].
  - rewrite read_cell_wf; [by rewrite Hhcell|done|].
    by eapply cell_at_Some_valid.
  - rewrite read_cell_wf; [by rewrite Hacell|done|].
    by eapply cell_at_Some_valid.
  - apply bool_decide_eq_false. intros ->. congruence.
Qed.

(** *** Counting cells *)

Lemma allCells_NoDup : NoDup allCells.
Proof. apply (bool_decide_unpack _). by vm_compute. Qed.

Lemma filter_length_update {A} (f f' : A → bool) (l : list A) (p : A) :
  NoDup l → p ∈ l → (∀ q, q ≠ p → f' q = f q) →
  (length (List.filter f' l) + (if f p then 1 else 0)
   = length (List.filter f l) + (if f' p then 1 else 0))%nat.
Proof.
  intros Hnd Hp Hsame. induction Hnd as [|x l Hx Hnd IH].
  { by apply elem_of_nil in Hp. }
  apply elem_of_cons in Hp as [->|Hp].
  - assert (Hrest : List.filter f' l = List.filter f l).
    { apply List.filter_ext_in. intros q Hq%list_elem_of_In.
      apply Hsame. by intros ->. }
    cbn. rewrite Hrest. destruct (f x), (f' x); cbn; lia.
  - specialize (IH Hp). cbn. rewrite (Hsame x) by (by intros ->).
    destruct (f x); cbn; lia.
Qed.

Lemma countCells_set_cell P b p v old :
  wf_board b → valid p → cell_at b p.1 p.2 = Some old →
  countCells P (set_cell b p v)
  = countCells P b - (if P old then 1 else 0) + (if P v then 1 else 0).
Proof.
  intros Hwf Hp Hold. unfold countCells.
  pose proof (filter_length_update
    (λ q : Pos, match cell_at b q.1 q.2 with
                | Some x => P x | None => false end)
    (λ q : Pos, match cell_at (set_cell b p v) q.1 q.2 with
                | Some x => P x | None => false end)
    allCells p allCells_NoDup) as Hlen.
  cbn beta in Hlen. rewrite Hold in Hlen.
  rewrite cell_at_set_cell_pos, bool_decide_true in Hlen by done.
  assert ((length (List.filter
             (λ q : Pos, match cell_at (set_cell b p v) q.1 q.2 with
                         | Some x => P x | None => false end) allCells)
           + (if P old then 1 else 0)
           = length (List.filter
               (λ q : Pos, match cell_at b q.1 q.2 with
                           | Some x => P x | None => false end) allCells)
             + (if P v then 1 else 0))%nat) as Heq.
  { apply Hlen; [by apply elem_of_allCells|].
    intros q Hq. by rewrite cell_at_set_cell_pos, bool_decide_false. }
  destruct (P old), (P v); lia.
Qed.

Lemma countCells_move b pos newPos player player' :
  wf_board b → valid pos → valid newPos →
  cell_at b pos.1 pos.2 = Some (Mark player') →
  cell_at b newPos.1 newPos.2 = Some EMPTY →
  let b1 := set_cell (set_cell b pos BLOCKED) newPos (Mark player) in
  countCells (λ x, bool_decide (x = EMPTY)) b1
  = countCells (λ x, bool_decide (x = EMPTY)) b - 1
  ∧ countCells (λ x, bool_decide (x = BLOCKED)) b1
    = countCells (λ x, bool_decide (x = BLOCKED)) b + 1.
Proof.
  intros Hwf Hpos Hnew Hmark Hempty b1. unfold b1.
  assert (Hne : pos ≠ newPos) by (intros ->; congruence).
  assert (Hempty1 : cell_at (set_cell b pos BLOCKED) newPos.1 newPos.2
                    = Some EMPTY).
  { by rewrite cell_at_set_cell_pos, bool_decide_false. }
  assert (Hwf1 : wf_board (set_cell b pos BLOCKED))
    by by apply wf_board_set_cell.
  rewrite !(countCells_set_cell _ _ newPos _ EMPTY) by done.
  rewrite !(countCells_set_cell _ b pos _ (Mark player')) by done.
  repeat case_bool_decide; try done; lia.
Qed.

(** X17.  On a reachable engine every move that goes through uses up one
    cell: after a successful [makeHumanMove] or [makeAIMove] the board has
    exactly one empty cell fewer and exactly one blocked cell more than
    before. *)
Theorem committed_move_blocks_one_cell (e : Engine) (gameId : string)
    (game g1 : Game)
    (Hreach : reachable e) (Hgame : getGame gameId e = Some game) :
  (∀ row col e1,
     makeHumanMove gameId row col e = (Ok g1, e1) →
     countCells (λ x, bool_decide (x = EMPTY)) (board g1)
     = countCells (λ x, bool_decide (x = EMPTY)) (board game) - 1
     ∧ countCells (λ x, bool_decide (x = BLOCKED)) (board g1)
       = countCells (λ x, bool_decide (x = BLOCKED)) (board game) + 1)
  ∧ (∀ T (num : Number T) cfg clock nn (learned : nat → Board → Learned T)
       fuel e1,
       makeAIMove cfg clock nn learned fuel gameId e = Some (Ok g1, e1) →
       countCells (λ x, bool_decide (x = EMPTY)) (board g1)
       = countCells (λ x, bool_decide (x = EMPTY)) (board game) - 1
       ∧ countCells (λ x, bool_decide (x = BLOCKED)) (board g1)
         = countCells (λ x, bool_decide (x = BLOCKED)) (board game) + 1).
Proof.
  pose proof (reachable_inv e Hreach) as Hinv.
  unfold getGame in Hgame.
  pose proof (Hinv _ _ Hgame) as (Hwf & _).
  split.
  - intros row col e1 Hrun.
    pose proof (makeHumanMove_cases gameId row col e Hinv) as Hcases.
    rewrite Hgame in Hcases.
    case_bool_decide as Hok; [|by rewrite Hcases in Hrun].
    destruct Hok as (Hph & _ & Hin).
    destruct Hcases as (ap & er' & _ & _ & Hrun').
    rewrite Hrun' in Hrun. injection Hrun as <- _. cbn.
    rewrite board_afterCheck.
    destruct (reachable_marks_inv e Hreach _ _ Hgame)
      as ((hp & ap' & Hhp & _ & Hhcell & _) & _); [by rewrite Hph|].
    unfold legalMovesOf, applyMove, positionOf in *. rewrite Hhp in *. cbn.
    apply elem_of_legalCells in Hin as (_ & Hvn & Hempty).
    apply (countCells_move _ hp (row, col) HUMAN HUMAN); try done.
    by eapply cell_at_Some_valid.
  - intros T num cfg clock nn learned fuel e1 Hrun.
    pose proof (makeAIMove_cases cfg clock nn learned fuel gameId e _ _
                  Hinv Hrun) as Hcases.
    rewrite Hgame in Hcases.
    case_bool_decide as Hok; [|by destruct Hcases].
    destruct Hok as (Hph & Hcp).
    destruct (reachable_play_inv e Hreach _ _ Hgame)
      as (_ & _ & _ & _ & Hmove).
    rewrite bool_decide_false in Hcases by (rewrite <- Hcp; by apply Hmove).
    destruct Hcases as (hp & bestMove & er' & _ & Hin & _ & [= ->] & _). cbn.
    rewrite board_afterCheck.
    destruct (reachable_marks_inv e Hreach _ _ Hgame)
      as ((hp' & ap & _ & Hap & _ & Hacell) & _); [by rewrite Hph|].
    unfold legalMovesOf, applyMove, positionOf in *. rewrite Hap in *. cbn.
    apply elem_of_legalCells in Hin as (_ & Hvn & Hempty).
    apply (countCells_move _ ap bestMove AI AI); try done.
    by eapply cell_at_Some_valid.
Qed.
(** ** The HTTP handlers *)

(** X18.  [POST /:gameId/start] on a reachable engine, for a body whose
    row and col are integers or no numbers at all.  It answers 200 exactly
    when both are integers of 0..6 and the session exists in the Starting
    phase, and the human then stands on that cell.  Every other answer is
    a 400 that leaves the engine as it was, with one of three reasons: the
    handler's two messages, or the engine's 'Invalid game state'.  The
    engine's TypeError and 'Position already occupied' never reach the
    client. *)
Theorem startRoute_outcomes (e : Engine) (rnd : Q) (gameId : string)
    (row col : Arg)
    (Hreach : reachable e) (Hrnd : (0 <= rnd)%Q ∧ (rnd < 1)%Q) :
  match (startRoute rnd gameId row col e).1 with
  | Json g1 =>
    ∃ r c game,
      row = Num r ∧ col = Num c ∧ valid (r, c)
      ∧ getGame gameId e = Some game ∧ gamePhase game = starting
      ∧ getGame gameId (startRoute rnd gameId row col e).2 = Some g1
      ∧ humanPos g1 = Some (r, c) ∧ gamePhase g1 = playing
  | Status code reason =>
    (startRoute rnd gameId row col e).2 = e ∧ code = 400
    ∧ (reason = Said "Row and col must be numbers"
       ∧ (row = NotNumber ∨ col = NotNumber)
       ∨ reason = Said "Position must be within board bounds (0-6)"
         ∧ (∃ r c, row = Num r ∧ col = Num c
                   ∧ isValidPosition r c = false)
       ∨ reason = Raised InvalidGameState
         ∧ (∀ game, getGame gameId e = Some game →
                    gamePhase game ≠ starting))
  end.
Proof.
  destruct Hrnd as [H0 H1]. pose proof (reachable_inv e Hreach) as Hinv.
  unfold startRoute.
  destruct row as [r|]; [|cbn; split_and!; auto].
  destruct col as [c|]; [|cbn; split_and!; auto].
  destruct (_ || _) eqn:Hout; cbn.
  { split_and!; [done..|]. right. left. split; [done|].
    exists r, c. split_and!; [done..|]. unfold isValidPosition, BOARD_SIZE.
    lia. }
  pose proof (placeStartingPosition_cases rnd gameId r c e H0 H1 Hinv)
    as Hcases.
  unfold getGame.
  destruct (activeGames e !! gameId) as [game|] eqn:Hgame.
  2:{ rewrite Hcases. cbn. split_and!; [done..|]. right. right. done. }
  case_bool_decide as Hph.
  2:{ rewrite Hcases. cbn. split_and!; [done..|]. right. right.
      split; [done|]. by intros ? [= <-]. }
  rewrite bool_decide_true in Hcases by lia.
  rewrite bool_decide_true in Hcases by lia.
  destruct Hcases as (ap & _ & ->). cbn.
  exists r, c, game. rewrite lookup_insert_eq. split_and!; try done.
  unfold valid, isValidPosition, BOARD_SIZE. cbn. lia.
Qed.

(** X19.  [POST /:gameId/ai-move] on a reachable engine, the search given
    fuel for [maxSimulations] rounds and one more.  Without the session it
    answers 404; when it is not the software agent's turn, 400 'Not AI
    turn'; when it is but the session is not in the Playing phase (a game
    the human's move has ended), 400 with the engine's 'Invalid AI move';
    the engine is as it was in all three.  Otherwise it answers 200, and
    the [aiMove] it reports is the software agent's own move: from the
    cell where the agent stood to the cell where it now stands, one of its
    legal moves. *)
Theorem aiMoveRoute_outcomes (T : Type) (num : Number T) (cfg : Config)
    (clock : nat → Z) (nn : NeuralNetwork)
    (learned : nat → Board → Learned T) (fuel : nat)
    (e : Engine) (gameId : string)
    (Hreach : reachable e)
    (Hfuel : (Z.to_nat (maxSimulations cfg) < fuel)%nat) :
  match getGame gameId e with
  | None =>
    aiMoveRoute cfg clock nn learned fuel gameId e
    = Some (Status 404 (Said "Game not found"), e)
  | Some game =>
    if negb (bool_decide (currentPlayer game = AI)) then
      aiMoveRoute cfg clock nn learned fuel gameId e
      = Some (Status 400 (Said "Not AI turn"), e)
    else if negb (bool_decide (gamePhase game = playing)) then
      aiMoveRoute cfg clock nn learned fuel gameId e
      = Some (Status 400 (Raised InvalidAIMove), e)
    else
      ∃ g1 e1 ap bestMove,
        aiMoveRoute cfg clock nn learned fuel gameId e
        = Some (Json (g1, (Some ap, bestMove)), e1)
        ∧ getGame gameId e1 = Some g1
        ∧ aiPos game = Some ap ∧ aiPos g1 = Some bestMove
        ∧ bestMove ∈ legalCells (board game) ap
  end.
Proof.
  pose proof (reachable_inv e Hreach) as Hinv.
  unfold aiMoveRoute.
  destruct (getGame gameId e) as [game|] eqn:Hgame; [|done].
  unfold getGame in Hgame.
  destruct (decide (currentPlayer game = AI)) as [Hcp|Hcp].
  2:{ by rewrite !(bool_decide_false (currentPlayer game = AI)). }
  rewrite !(bool_decide_true (currentPlayer game = AI)) by done. cbn.
  destruct (makeAIMove_total cfg clock nn learned fuel gameId e Hinv Hfuel)
    as (r & e1 & Hrun).
  pose proof (makeAIMove_cases cfg clock nn learned fuel gameId e r e1
                Hinv Hrun) as Hcases.
  rewrite Hgame in Hcases. rewrite Hrun.
  destruct (decide (gamePhase game = playing)) as [Hph|Hph].
  2:{ rewrite (bool_decide_false (gamePhase game = playing)) by done.
      rewrite bool_decide_false in Hcases by tauto.
      by destruct Hcases as [-> ->]. }
  rewrite (bool_decide_true (gamePhase game = playing)) by done.
  rewrite bool_decide_true in Hcases by done.
  destruct (reachable_play_inv e Hreach _ _ Hgame)
    as (_ & _ & _ & _ & Hmove).
  rewrite bool_decide_false in Hcases by (rewrite <- Hcp; by apply Hmove).
  destruct Hcases as (hp & bestMove & er' & Hhp & Hin & _ & -> & ->).
  unfold legalMovesOf, positionOf in Hin.
  destruct (aiPos game) as [ap|] eqn:Hap; [|by apply elem_of_nil in Hin].
  cbn. rewrite moveHistory_afterCheck. unfold applyMove, positionOf.
  rewrite Hap. cbn. rewrite last_snoc. cbn.
  eexists _, _, ap, bestMove. split; [done|].
  unfold getGame, withSession. cbn.
  rewrite lookup_insert_eq, aiPos_afterCheck. done.
Qed.

(** X20.  [POST /:gameId/undo] on a reachable engine: the handler's own
    three checks -- no session (404), ended session and empty history
    (400) -- cover every failure; past them [undoLastMove] always returns,
    so the handler never answers with an error of the engine, and it
    answers 200 exactly when the session exists, has not ended and has a
    history. *)
Theorem undoRoute_outcomes (e : Engine) (gameId : string)
    (Hreach : reachable e) :
  match (undoRoute gameId e).1 with
  | Json g1 =>
    ∃ game,
      getGame gameId e = Some game ∧ gamePhase game ≠ ended
      ∧ moveHistory game ≠ []
      ∧ undoLastMove gameId e = (Ok g1, (undoRoute gameId e).2)
  | Status code reason =>
    (undoRoute gameId e).2 = e
    ∧ (code = 404 ∧ reason = Said "Game not found"
       ∧ getGame gameId e = None
       ∨ code = 400 ∧ reason = Said "Cannot undo moves in ended game"
         ∧ (∃ game, getGame gameId e = Some game ∧ gamePhase game = ended)
       ∨ code = 400 ∧ reason = Said "No moves to undo"
         ∧ (∃ game, getGame gameId e = Some game ∧ moveHistory game = []))
  end.
Proof.
  pose proof (reachable_inv e Hreach) as Hinv.
  pose proof (undoLastMove_cases gameId e Hinv) as Hcases.
  unfold undoRoute, getGame.
  destruct (activeGames e !! gameId) as [game|] eqn:Hgame; cbn; [|auto].
  destruct (decide (gamePhase game = ended)) as [Hph|Hph].
  { rewrite !(bool_decide_true (gamePhase game = ended)) by done. cbn.
    split; [done|]. right. left. eauto. }
  rewrite !(bool_decide_false (gamePhase game = ended)) in * by done.
  destruct (decide (moveHistory game = [])) as [Hnil|Hnil].
  { rewrite (bool_decide_true (length _ = 0%nat)) by (by rewrite Hnil). cbn.
    split; [done|]. right. right. eauto. }
  rewrite (bool_decide_false (length _ = 0%nat))
    by (by rewrite length_zero_iff_nil).
  rewrite (bool_decide_false (moveHistory game = [])) in Hcases by done.
  destruct (reachable_play_inv e Hreach _ _ Hgame) as (_ & _ & Hhead & _).
  destruct (moveHistory game) as [|r h] eqn:Hh; [done|].
  destruct (lastHumanMoveIndex_is_Some (r :: h) (length (r :: h)) 0 r)
    as [idx Hidx]; [done|by apply Hhead|cbn; lia|].
  rewrite Hidx in Hcases.
  destruct Hcases as (m & from & _ & _ & _ & Hrun). cbn zeta in Hrun.
  rewrite Hrun. cbn. exists game. by rewrite Hh.
Qed.

(** X21.  [GET /:gameId/valid-moves] and [POST /:gameId/move] agree.  On a
    reachable engine, for a session in the Playing phase with the human to
    act, the first answers 200 with a list of moves that is not empty, and
    the second answers 200 for integers [row] and [col] exactly when
    [(row, col)] is in that list. *)
Theorem validMovesRoute_offers_what_moveRoute_accepts (e : Engine)
    (gameId : string) (game : Game)
    (Hreach : reachable e) (Hgame : getGame gameId e = Some game)
    (Hplaying : gamePhase game = playing)
    (Hturn : currentPlayer game = HUMAN) :
  ∃ moves,
    validMovesRoute gameId e = Json (moves, HUMAN, playing)
    ∧ moves ≠ []
    ∧ ∀ row col,
        (row, col) ∈ moves ↔
        ∃ g1 message e1,
          moveRoute gameId (Num row) (Num col) e = (Json (g1, message), e1).
Proof.
  pose proof (reachable_inv e Hreach) as Hinv.
  pose proof (Hinv _ _ Hgame) as Hgame_inv.
  destruct (reachable_play_inv e Hreach _ _ Hgame)
    as (_ & _ & _ & _ & Hmove).
  specialize (Hmove Hplaying). rewrite Hturn in Hmove.
  unfold legalMovesOf, positionOf in Hmove.
  destruct (humanPos game) as [hp|] eqn:Hhp; [|done].
  exists (legalCells (board game) hp).
  unfold validMovesRoute. rewrite Hgame, Hturn, Hhp, Hplaying.
  rewrite bool_decide_true by done. run_monad.
  rewrite getValidMoves_wf by apply Hgame_inv. cbn.
  split; [done|]. split; [done|]. intros row col.
  pose proof (makeHumanMove_cases gameId row col e Hinv) as Hcases.
  unfold getGame in Hgame. rewrite Hgame in Hcases.
  unfold moveRoute.
  case_bool_decide as Hok.
  - destruct Hcases as (ap & er' & _ & _ & ->). cbn zeta.
    destruct Hok as (_ & _ & Hin). unfold legalMovesOf, positionOf in Hin.
    rewrite Hhp in Hin. split; [intros _|done].
    case_bool_decide; by eexists _, _, _.
  - rewrite Hcases. split; [|by intros (? & ? & ? & [=])].
    intros Hin. destruct Hok. split_and!; [done..|].
    unfold legalMovesOf, positionOf. by rewrite Hhp.
Qed.

(** X22.  [POST /suggest-move] on a reachable engine, for a session in the
    Playing phase and a search with fuel for [maxSimulations] rounds and
    one more: it answers 200 with a suggestion that is never [null] and
    is one of the valid moves it lists, which are the moves that
    [GET /:gameId/valid-moves] lists for the side to act. *)
Theorem suggestMoveRoute_suggests_valid_move (T : Type) (num : Number T)
    (cfg : Config) (clock : nat → Z) (nn : NeuralNetwork)
    (learned : nat → Board → Learned T) (fuel : nat)
    (e : Engine) (gameId : string) (game : Game)
    (Hreach : reachable e) (Hid : gameId ≠ "")
    (Hgame : getGame gameId e = Some game)
    (Hplaying : gamePhase game = playing)
    (Hfuel : (Z.to_nat (maxSimulations cfg) < fuel)%nat) :
  ∃ bestMove moves,
    suggestMoveRoute cfg clock nn learned fuel (Some gameId) e
    = Some (Json (Some bestMove, moves, currentPlayer game))
    ∧ validMovesRoute gameId e = Json (moves, currentPlayer game, playing)
    ∧ bestMove ∈ moves.
Proof.
  pose proof (reachable_inv e Hreach) as Hinv.
  pose proof (Hinv _ _ Hgame) as Hgame_inv.
  destruct (reachable_play_inv e Hreach _ _ Hgame)
    as (_ & _ & _ & _ & Hmove).
  specialize (Hmove Hplaying). unfold legalMovesOf, positionOf in Hmove.
  unfold suggestMoveRoute, validMovesRoute. rewrite Hgame.
  rewrite (bool_decide_false (gameId = "")) by done.
  rewrite !(bool_decide_true (gamePhase game = playing)) by done. cbn.
  set (currentPos := match currentPlayer game with
                     | HUMAN => humanPos game | AI => aiPos game end) in *.
  destruct currentPos as [pos|]; [|done]. run_monad.
  rewrite getValidMoves_wf by apply Hgame_inv. cbn.
  rewrite bool_decide_false by (by rewrite length_zero_iff_nil).
  unfold enhancedMCTS.
  destruct (sample_budget cfg clock nn learned game (gameStats e)
              (legalCells (board game) pos) Hgame_inv Hplaying Hmove
              (legalCells_valid _ _) fuel Hfuel) as (s & -> & _).
  destruct (selectBest_is_Some s (legalCells (board game) pos) Hmove)
    as [best Hbest].
  rewrite Hbest. exists best, (legalCells (board game) pos).
  rewrite Hplaying. split_and!; [done..|].
  by apply selectBest_elem in Hbest.
Qed.
(** ** The evaluation handler *)

Lemma flatten_seven_rows (b : Board) :
  length b = 7%nat → ∃ l, flatten b = Ok l ∧ length l = 49%nat.
Proof.
  intros Hlen. unfold flatten.
  assert (Hgen : ∀ (cells : list Pos) (l : list Z),
    Forall valid cells →
    ∃ l', foldl (λ (acc : Result (list Z)) (p : Pos),
                   l ← acc; c ← read_cell b p.1 p.2;
                   mret (l ++ [cellValue c]))
                (Ok l) cells = Ok l'
          ∧ length l' = (length l + length cells)%nat).
  { intros cells. induction cells as [|p cells IH]; intros l Hcells.
    - exists l. cbn. split; [done|lia].
    - apply Forall_cons in Hcells as [Hp Hcells]. cbn.
      apply isValidPosition_spec in Hp as [Hr _]. unfold BOARD_SIZE in Hr.
      destruct (read_cell_Some_row b p.1 p.2) as [x ->]; [lia..|]. cbn.
      destruct (IH (l ++ [cellValue x]) Hcells) as (l' & Hrun & Hl').
      exists l'. split; [exact Hrun|].
      rewrite length_app in Hl'. cbn in *. lia. }
  destruct (Hgen allCells [] allCells_Forall_valid) as (l & Hl & Hlen').
  by exists l.
Qed.

(** X23.  [POST /evaluate] never answers 500.  For a board of seven rows,
    whatever their lengths, it answers 200, the model being consulted on
    an input of 49 numbers when it is loaded; given a random number and
    predictions in [0,1], the three numbers of the answer -- the software
    agent's probability of winning, the human's, and the confidence -- are
    in [0,1] and the two probabilities add up to 1.  Without a loaded
    model the software agent's probability is the random number. *)
Theorem evaluateRoute_probabilities (nn : NeuralNetwork) (rnd : Q)
    (predict : list Q → Result Q) (b : Board)
    (Hrows : length b = 7%nat)
    (Hrnd : (0 <= rnd <= 1)%Q)
    (Hpredict : ∀ input p, predict input = Ok p → (0 <= p <= 1)%Q) :
  ∃ ai human confidence,
    evaluateRoute nn rnd predict (Some b) = Json (ai, human, confidence)
    ∧ (0 <= ai <= 1)%Q ∧ (0 <= human <= 1)%Q ∧ (0 <= confidence <= 1)%Q
    ∧ (ai + human == 1)%Q
    ∧ (isLoaded nn = false → ai = rnd)
    ∧ (isLoaded nn = true →
       ∃ input, boardToTensor b = Ok input ∧ length input = 49%nat
                ∧ (predict input = Ok ai
                   ∨ ai = (1 # 2)%Q ∧ ∃ err, predict input = Throw err)).
Proof.
  unfold evaluateRoute. rewrite bool_decide_true by done. cbn.
  destruct (network_evaluatePosition_Ok nn rnd predict b)
    as (v & -> & Hoff & Hon).
  destruct (flatten_seven_rows b Hrows) as (l & Hl & Hlen).
  assert (Hinput : boardToTensor (T := Q) b
                   = Ok ((λ x, numDiv (numOf x) (numOf 3)) <$> l)).
  { unfold boardToTensor. by rewrite Hl. }
  assert (Hv : (0 <= v <= 1)%Q).
  { destruct (isLoaded nn) eqn:Hloaded.
    - destruct (Hon eq_refl) as [(input & _ & Hp)|[-> _]];
        [by eapply Hpredict|]. split; by vm_compute.
    - by rewrite Hoff. }
  exists v, (1 - v)%Q, (Qabs (v - (1 # 2)) * 2)%Q.
  split_and!; try done; try lra.
  - apply Qabs_case; intros; lra.
  - apply Qabs_case; intros; lra.
  - intros Hloaded. eexists. split; [exact Hinput|].
    split; [by rewrite length_fmap|].
    destruct (Hon Hloaded) as [(input & Hin & Hp)|[-> Herr]].
    + left. rewrite Hinput in Hin. by injection Hin as <-.
    + right. split; [done|]. by apply Herr.
Qed.

(** ** A human move taken back at once *)

(** X24.  On a reachable engine, in a session whose history holds at least
    two records, a human move that goes through can be taken back at once
    exactly when it has not ended the game: after a move that ended it
    [undoLastMove] throws 'Cannot undo moves in ended game' and changes
    nothing; otherwise it returns, and the board, both positions, the phase
    and the side to act are those before the move, the statistics are
    untouched, and the history is the one before the move less its last
    record. *)
Theorem human_move_then_undo_restores (e : Engine) (gameId : string)
    (row col : Z) (game g1 : Game) (e1 : Engine)
    (Hreach : reachable e) (Hgame : getGame gameId e = Some game)
    (Hlen : (2 ≤ length (moveHistory game))%nat)
    (Hmove : makeHumanMove gameId row col e = (Ok g1, e1)) :
  if bool_decide (gamePhase g1 = ended)
  then undoLastMove gameId e1 = (Throw CannotUndoEnded, e1)
  else
    ∃ g2 e2,
      undoLastMove gameId e1 = (Ok g2, e2)
      ∧ getGame gameId e2 = Some g2
      ∧ board g2 = board game
      ∧ humanPos g2 = humanPos game ∧ aiPos g2 = aiPos game
      ∧ gamePhase g2 = gamePhase game
      ∧ currentPlayer g2 = currentPlayer game
      ∧ moveHistory g2 = pop (moveHistory game)
      ∧ gameStats e2 = gameStats e.
Proof.
  unfold getGame in *.
  pose proof (reachable_inv e Hreach _ _ Hgame) as (Hwf & _ & _).
  pose proof Hmove as
    (game' & hp & ap & Hgame' & Hph & Hcp & Hhp & Hap & Hlegal & Hg1eq & Hg1)
    %makeHumanMove_Ok.
  assert (game' = game) as -> by congruence.
  assert (Hstats : gameStats e1 = gameStats e ∨ gamePhase g1 = ended).
  { pose proof (makeHumanMove_cases gameId row col e (reachable_inv e Hreach))
      as Hcases.
    rewrite Hgame in Hcases.
    case_bool_decide; [|rewrite Hmove in Hcases; discriminate].
    destruct Hcases as (ap' & er' & _ & _ & Hrun).
    rewrite Hmove in Hrun. injection Hrun as Hg He1.
    rewrite He1. cbn. rewrite <- Hg. unfold statsAfter.
    destruct (gamePhase g1); auto. }
  assert (Hreach1 : reachable e1).
  { replace e1 with (after (makeHumanMove gameId row col) e)
      by (unfold after; by rewrite Hmove).
    by apply reach_makeHumanMove. }
  destruct (reachable_marks_inv e Hreach _ _ Hgame) as ((hp' & ap' & Hhp' & _ & Hcell & _) & _);
    [congruence|].
  assert (hp' = hp) as -> by congruence.
  assert (Hvhp : valid hp) by by eapply cell_at_Some_valid.
  pose proof (undoLastMove_cases gameId e1 (reachable_inv e1 Hreach1))
    as Hcases.
  rewrite Hg1 in Hcases.
  case_bool_decide as Hended; [done|].
  assert (Hhist : moveHistory g1
            = moveHistory game
              ++ [ {| mr_player := HUMAN; mr_from := Some hp;
                      mr_to := (row, col);
                      mr_board := board (applyMove HUMAN (row, col) game) |} ]).
  { rewrite Hg1eq. cbn. rewrite moveHistory_afterCheck. cbn.
    unfold positionOf. by rewrite Hhp. }
  rewrite (bool_decide_false (moveHistory g1 = [])) in Hcases
    by (rewrite Hhist; by destruct (moveHistory game)).
  rewrite Hhist, lastHumanMoveIndex_last in Hcases by done.
  destruct Hcases as (m & from & _ & _ & _ & Hundo).
  destruct (undoLastMove gameId e1) as [r2 e2] eqn:Hrun.
  injection Hundo as Hr2 He2.
  destruct r2 as [g2|err]; [|discriminate Hr2].
  pose proof (move_undo_round_trip gameId row col e game hp g1 e1 g2 e2
                Hgame Hwf Hhp Hvhp Hcell Hlen Hmove Hrun)
    as (Hb & Hh & Ha & Hp & Hc & Hm).
  exists g2, e2. split_and!; try done.
  - rewrite He2. unfold withSession. cbn. rewrite lookup_insert_eq.
    congruence.
  - rewrite He2. cbn. by destruct Hstats.
Qed.

(** ** A selection that the deadline does not interrupt *)

(** A candidate whose win rate is not greater than the best one so far
    leaves the selection as it is. *)
Lemma foldl_keepBetter_none `{Number T} (s : Search T) (rest : list Pos)
    (best : option Pos * T) :
  (∀ m, m ∈ rest → numGt (winRate s m) best.2 = false) →
  foldl (keepBetter s) best rest = best.
Proof.
  induction rest as [|m rest IH]; intros Hall; [done|]. cbn.
  unfold keepBetter at 2. rewrite Hall by by left.
  apply IH. intros m' Hm'. apply Hall. by right.
Qed.

(** Candidates that all have the same win rate: the first one is selected,
    in any arithmetic in which that win rate is not greater than itself. *)
Lemma selectBest_all_equal `{Number T} (s : Search T) (validMoves : list Pos)
    (w : T) :
  numGt w w = false →
  (∀ m, m ∈ validMoves → winRate s m = w) →
  selectBest validMoves s = head validMoves.
Proof.
  intros Hirr Hall. unfold selectBest.
  destruct validMoves as [|first rest]; [done|]. cbn.
  unfold keepBetter at 2. rewrite (Hall first) by by left. cbn [snd].
  destruct (numGt w (numOf 0)) eqn:Hgt.
  - rewrite foldl_keepBetter_none; [done|].
    intros m Hm. cbn. rewrite (Hall m) by by right. done.
  - rewrite foldl_keepBetter_none; [done|].
    intros m Hm. cbn. rewrite (Hall m) by by right. done.
Qed.

(** X25.  One selection among candidates listed once each (as
    [getValidMoves] lists them), on a session in the Playing phase, when no
    reading of the clock reaches the deadline and the evaluator returns the
    same score [c] for every candidate in every round, in any arithmetic in
    which [c]'s mean is not greater than itself (binary64 and the rationals
    are such): every candidate has been evaluated the same number of times
    when the loop is left, and the first candidate of the list is
    returned. *)
Theorem undisturbed_constant_selects_first (T : Type) (num : Number T)
    (cfg : Config) (clock : nat → Z) (nn : NeuralNetwork)
    (learned : nat → Board → Learned T) (game : Game) (stats : GameStats)
    (validMoves : list Pos) (first : Pos) (c : T) (fuel : nat)
    (Hirr : ∀ a : T, numGt a a = false)
    (Hinv : game_inv game) (Hplaying : gamePhase game = playing)
    (Hvalid : Forall valid validMoves) (Hnodup : NoDup validMoves)
    (Hfirst : head validMoves = Some first)
    (Hclock : ∀ k, clock k - clock 0%nat < timeLimit cfg)
    (Hc : ∀ k b, wf_board b → evaluatePosition nn (learned k b) b = Ok c)
    (Hfuel : (Z.to_nat (maxSimulations cfg) < fuel)%nat) :
  ∃ s n,
    sample cfg clock nn learned fuel game stats validMoves = Some (Ok s)
    ∧ Forall (λ m, default 0 (visits s !! m) = n) validMoves
    ∧ enhancedMCTS cfg clock nn learned fuel game stats validMoves
      = Some (Ok (Some first)).
Proof.
  assert (Hcandidates : validMoves ≠ []) by (by destruct validMoves).
  assert (Hin : first ∈ validMoves).
  { destruct validMoves; [done|]. injection Hfirst as ->. by left. }
  destruct (sample_budget cfg clock nn learned game stats validMoves
              Hinv Hplaying Hcandidates Hvalid fuel Hfuel) as (s & Hs & _).
  pose proof (sample_constant cfg clock nn learned game stats validMoves
                Hinv c fuel s Hc Hs) as Hconst.
  assert (Hsame : ∀ m, m ∈ validMoves →
            default 0 (visits s !! m) = default 0 (visits s !! first)).
  { revert Hs. unfold sample.
    apply (rounds_ind cfg clock nn learned game stats (clock 0%nat)
             (λ s', ∀ m, m ∈ validMoves →
                      default 0 (visits s' !! m)
                      = default 0 (visits s' !! first))); [done| |].
    - intros s0 s2 Hs0 _ Hround m Hm.
      rewrite !(round_visits cfg clock nn learned game stats Hinv Hclock
                  validMoves s0 s2) by done.
      rewrite !bool_decide_true by done. by rewrite Hs0.
    - intros m _.
      by rewrite !(proj2 (initSearch_tables (T := T) validMoves _)). }
  exists s, (default 0 (visits s !! first)). split; [exact Hs|]. split.
  { apply Forall_forall. intros m Hm. by apply Hsame. }
  unfold enhancedMCTS. rewrite Hs. do 2 f_equal.
  rewrite <- Hfirst.
  apply (selectBest_all_equal s validMoves (winRate s first)); [apply Hirr|].
  intros m Hm. rewrite !(winRate_constant c s) by done.
  by rewrite (Hsame m Hm).
Qed.

(** ** The recorder under the engine's calls *)

Lemma map_Forall_bump (key : string) (m : gmap string Z) :
  map_Forall (λ _ n, 0 ≤ n) m → map_Forall (λ _ n, 0 ≤ n) (bump key m).
Proof.
  intros Hm. unfold bump. apply map_Forall_insert_2; [|done].
  destruct (m !! key) as [n|] eqn:Hkey; cbn; [|lia].
  pose proof (Hm key n Hkey). cbn in *. lia.
Qed.

Lemma foldl_preserves {A B} (P : A → Prop) (f : A → B → A) (l : list B) a :
  (∀ a x, P a → P (f a x)) → P a → P (foldl f a l).
Proof.
  intros Hf. revert a. induction l as [|x l IH]; intros a Ha; [done|].
  cbn. by apply IH, Hf.
Qed.

Lemma analyzeGamePatterns_nonneg moves winner' hp :
  map_Forall (λ _ n, 0 ≤ n) (movePreferences hp) →
  map_Forall (λ _ n, 0 ≤ n)
             (movePreferences (analyzeGamePatterns moves winner' hp)).
Proof.
  intros Hhp. unfold analyzeGamePatterns.
  destruct winner' as [[|]|]; [| |done].
  - unfold analyzeWinningHumanStrategy.
    apply (foldl_preserves
             (λ hp, map_Forall (λ _ n, 0 ≤ n) (movePreferences hp)));
      [|done].
    intros a i Ha. cbn. by apply map_Forall_bump.
  - unfold analyzeLosingHumanStrategy.
    apply (foldl_preserves
             (λ hp, map_Forall (λ _ n, 0 ≤ n) (movePreferences hp)));
      [|done].
    intros a i Ha.
    destruct (humanMovesOf moves !! i); [|done].
    destruct (humanMovesOf moves !! S i); [|done].
    cbn. by apply map_Forall_bump.
Qed.

Lemma recordMove_ok gameId player move b er er' :
  wf_board b → recorder_ok er →
  recordMove gameId player move b er = Ok er' → recorder_ok er'.
Proof.
  intros Hwf [Hbuf Hcounts]. unfold recordMove, determineGamePhase.
  rewrite scanBoard_wf by done. cbn. intros [= <-].
  split; cbn.
  - assert (Hpushed : Forall (λ x, wf_board (x_board x))
              (experienceBuffer er
               ++ [ {| x_gameId := gameId; x_player := player;
                       x_move := move; x_board := b;
                       x_phase := gamePhaseOf b |} ])).
    { apply Forall_app. split; [done|]. by apply Forall_singleton. }
    destruct (_ <? _); [|done].
    destruct (experienceBuffer er ++ _) as [|x l]; [done|].
    cbn. by inversion Hpushed.
  - destruct player; [|done]. cbn. by apply map_Forall_bump.
Qed.

Lemma generateTrainingData_returns er :
  recorder_ok er → ∃ data, generateTrainingData er = Ok data.
Proof.
  intros [Hbuf Hcounts]. unfold generateTrainingData.
  change (Ok []) with (Ok (@nil TrainingExample)).
  set (acc := @nil TrainingExample) at 2. clearbody acc. revert acc.
  induction Hbuf as [|x buffer Hx _ IH]; intros acc; [by eexists|].
  cbn. destruct (x_player x); [|apply IH].
  destruct (calculateHumanMoveProbability_wf x (humanPatterns er) Hx Hcounts)
    as (p & -> & _).
  cbn. apply IH.
Qed.

(** X26.  The recorder stays fit for [generateTrainingData] while the
    engine runs.  On a reachable engine whose recorder holds 7x7 boards
    only and no negative count of a move preference (as the fresh recorder
    does): [generateTrainingData] returns; [placeStartingPosition] and
    [undoLastMove] leave the recorder as it is, so a move taken back stays
    in the buffer and in the counts; after [makeHumanMove] and [makeAIMove]
    the recorder again holds 7x7 boards only and no negative count; and
    [analyzeGamePatterns], run for whatever game has ended, leaves no
    negative count. *)
Theorem recorder_stays_usable (e : Engine)
    (Hreach : reachable e) (Hok : recorder_ok (experienceReplay e)) :
  (∃ data, generateTrainingData (experienceReplay e) = Ok data)
  ∧ (∀ rnd gameId row col,
       (0 <= rnd)%Q → (rnd < 1)%Q →
       experienceReplay (after (placeStartingPosition rnd gameId row col) e)
       = experienceReplay e)
  ∧ (∀ gameId,
       experienceReplay (after (undoLastMove gameId) e) = experienceReplay e)
  ∧ (∀ gameId row col,
       recorder_ok (experienceReplay (after (makeHumanMove gameId row col) e)))
  ∧ (∀ (T : Type) (num : Number T) cfg clock nn
       (learned : nat → Board → Learned T) fuel gameId r e',
       makeAIMove cfg clock nn learned fuel gameId e = Some (r, e') →
       recorder_ok (experienceReplay e'))
  ∧ (∀ moves winner',
       map_Forall (λ _ n, 0 ≤ n)
         (movePreferences
            (analyzeGamePatterns moves winner'
                                 (humanPatterns (experienceReplay e))))).
Proof.
  pose proof (reachable_inv e Hreach) as Hinv.
  split; [by apply generateTrainingData_returns|].
  split.
  { intros rnd gameId row col H0 H1.
    pose proof (placeStartingPosition_cases rnd gameId row col e H0 H1 Hinv)
      as Hcases.
    unfold after.
    destruct (activeGames e !! gameId) as [game|]; [|by rewrite Hcases].
    repeat case_bool_decide; try by rewrite Hcases.
    all: destruct Hcases as (ap & _ & Hrun); by rewrite Hrun. }
  split.
  { intros gameId.
    pose proof (undoLastMove_cases gameId e Hinv) as Hcases.
    unfold after.
    destruct (activeGames e !! gameId) as [game|]; [|by rewrite Hcases].
    repeat case_bool_decide; try by rewrite Hcases.
    all: destruct (lastHumanMoveIndex _ _); [|by rewrite Hcases].
    all: destruct Hcases as (m & from & _ & _ & _ & Hrun); cbn in Hrun.
    all: by rewrite Hrun. }
  split.
  { intros gameId row col.
    pose proof (reachable_inv _ (reach_makeHumanMove e gameId row col Hreach))
      as Hinv'.
    pose proof (makeHumanMove_cases gameId row col e Hinv) as Hcases.
    unfold after in *.
    destruct (activeGames e !! gameId) as [game|]; [|by rewrite Hcases].
    case_bool_decide; [|by rewrite Hcases].
    destruct Hcases as (ap & er' & _ & Hrec & Hrun). cbn in Hrec, Hrun.
    rewrite Hrun in *. cbn.
    eapply recordMove_ok; [|exact Hok|exact Hrec].
    refine (proj1 (Hinv' gameId (set_currentPlayer AI _) _)).
    cbn. apply lookup_insert_eq. }
  split; [|intros moves winner'; by apply analyzeGamePatterns_nonneg, Hok].
  intros T num cfg clock nn learned fuel gameId r e' Hrun.
  pose proof (reachable_inv _ (reach_makeAIMove e T num cfg clock nn learned
                                 fuel gameId r e' Hreach Hrun)) as Hinv'.
  pose proof (makeAIMove_cases cfg clock nn learned fuel gameId e r e'
                Hinv Hrun) as Hcases.
  destruct (activeGames e !! gameId) as [game|];
    [|by destruct Hcases as [_ ->]].
  case_bool_decide; [|by destruct Hcases as [_ ->]].
  case_bool_decide; [by destruct Hcases as [_ ->]|].
  destruct Hcases as (hp & bestMove & er' & _ & _ & Hrec & _ & ->).
  cbn in Hrec. cbn.
  eapply recordMove_ok; [|exact Hok|exact Hrec].
  refine (proj1 (Hinv' gameId (set_currentPlayer HUMAN _) _)).
  cbn. apply lookup_insert_eq.
Qed.

(** ** Simulated moves *)

Lemma sim_safe_bind {A B} (m : M World A) (f : A → M World B) :
  sim_safe m → (∀ a, sim_safe (f a)) → sim_safe (m ≫= f).
Proof.
  intros Hm Hf w Hsim. unfold mbind, M_bind.
  destruct (Hm w Hsim) as [Hst Hmark].
  destruct (m w) as [[a|err] w1]; cbn in *; [|done].
  destruct (Hf a w1 Hmark) as [Hst' Hmark']. split; [congruence|done].
Qed.

Lemma sim_safe_pure {A} (r : Result A) : sim_safe (lift r).
Proof. done. Qed.

Lemma sim_safe_gets {A} (f : World → A) : sim_safe (gets f).
Proof. done. Qed.

Lemma sim_safe_update_game (f : Game → Game) :
  (∀ g, isSimulation (f g) = isSimulation g) → sim_safe (update_game f).
Proof. intros Hf w Hsim. cbn. by rewrite Hf. Qed.

Lemma sim_safe_write p v : sim_safe (write p v).
Proof.
  unfold write. apply sim_safe_bind; [apply sim_safe_gets|]. intros g.
  apply sim_safe_bind; [apply sim_safe_pure|]. intros b.
  by apply sim_safe_update_game.
Qed.

Lemma sim_safe_validMovesOf b pos : sim_safe (validMovesOf (S := World) b pos).
Proof. unfold validMovesOf. by destruct pos. Qed.

(** [endGame] skips the statistics of a session marked as a simulation. *)
Lemma sim_safe_endGame winner' : sim_safe (endGame winner').
Proof.
  intros w Hsim. unfold endGame. run_monad. by rewrite Hsim.
Qed.

Lemma sim_safe_checkGameEnd : sim_safe checkGameEnd.
Proof.
  unfold checkGameEnd.
  apply sim_safe_bind; [apply sim_safe_gets|]. intros g.
  apply sim_safe_bind; [apply sim_safe_validMovesOf|]. intros humanMoves.
  apply sim_safe_bind; [apply sim_safe_validMovesOf|]. intros aiMoves.
  repeat case_bool_decide; (apply sim_safe_endGame || done).
Qed.

Lemma sim_safe_checkGameEndSimulation : sim_safe checkGameEndSimulation.
Proof.
  unfold checkGameEndSimulation.
  apply sim_safe_bind; [apply sim_safe_gets|]. intros g.
  apply sim_safe_bind; [apply sim_safe_validMovesOf|]. intros humanMoves.
  apply sim_safe_bind; [apply sim_safe_validMovesOf|]. intros aiMoves.
  repeat case_bool_decide; try done.
  all: apply sim_safe_bind; [by apply sim_safe_update_game|]; intros _.
  all: by apply sim_safe_update_game.
Qed.

Lemma sim_safe_movePlayer player newPos isSim :
  sim_safe (movePlayer player newPos isSim).
Proof.
  unfold movePlayer.
  apply sim_safe_bind; [apply sim_safe_gets|]. intros g.
  apply sim_safe_bind.
  { destruct (match player with HUMAN => _ | AI => _ end);
      [apply sim_safe_write|done]. }
  intros _. apply sim_safe_bind; [apply sim_safe_write|]. intros _.
  apply sim_safe_bind.
  { apply sim_safe_update_game. by destruct player. }
  intros _. apply sim_safe_bind; [by apply sim_safe_update_game|]. intros _.
  destruct isSim;
    [apply sim_safe_checkGameEndSimulation|apply sim_safe_checkGameEnd].
Qed.

(** X27.  A candidate tried on a clone never reaches the statistics:
    [movePlayer] on [cloneGame(game)] leaves the statistics as they were --
    under the simulation's end check and under the real one alike,
    [endGame] skipping a session marked as a simulation -- whether the
    move goes through, ends the cloned game or throws, and the clone keeps
    its mark.  The same move on the session itself, when it goes through
    and ends the game under the real end check, does change them: one more
    game is counted. *)
Theorem simulated_move_never_counted (game : Game) (stats : GameStats)
    (player : Player) (newPos : Pos) (isSim : bool) :
  w_stats (movePlayer player newPos isSim
             {| w_game := cloneGame game; w_stats := stats |}).2 = stats
  ∧ isSimulation
      (w_game (movePlayer player newPos isSim
                 {| w_game := cloneGame game; w_stats := stats |}).2) = true
  ∧ match movePlayer player newPos false
            {| w_game := game; w_stats := stats |} with
    | (Ok _, w) =>
      if isSimulation game then w_stats w = stats
      else if bool_decide (gamePhase (w_game w) = ended
                           ∧ gamePhase game ≠ ended)
      then totalGames (w_stats w) = totalGames stats + 1
      else True
    | (Throw _, w) => w_stats w = stats
    end.
Proof.
  destruct (sim_safe_movePlayer player newPos isSim
              {| w_game := cloneGame game; w_stats := stats |} eq_refl)
    as [Hstats Hmark].
  split; [done|]. split; [done|].
  destruct (movePlayer player newPos false _) as [[[]|err] w] eqn:Hrun.
  - destruct (isSimulation game) eqn:Hsim.
    + pose proof (sim_safe_movePlayer player newPos false
                    {| w_game := game; w_stats := stats |} Hsim) as [Hst _].
      by rewrite Hrun in Hst.
    + case_bool_decide as Hended; [|done]. destruct Hended as [Hended Hnot].
      apply movePlayer_Ok in Hrun. revert Hrun.
      unfold checkGameEnd, endGame. run_monad.
      repeat (case_match; run_monad; try done).
      all: intros; simplify_eq; cbn in *; try congruence.
  - revert Hrun. unfold movePlayer, checkGameEnd, endGame. run_monad.
    repeat (case_match; run_monad; try done).
    all: intros; simplify_eq; cbn in *; try congruence.
Qed.
(** ** The further statements at concrete sessions *)

Lemma humanMovedEngine_reachable : reachable humanMovedEngine.
Proof. apply reach_makeHumanMove, placedEngine_reachable. Qed.

Lemma getGame_placedEngine :
  getGame "g" placedEngine = Some (sessionOf placedEngine "g").
Proof. vm_compute. reflexivity. Qed.

Lemma getGame_humanMovedEngine :
  getGame "g" humanMovedEngine = Some (sessionOf humanMovedEngine "g").
Proof. vm_compute. reflexivity. Qed.

(** X1 after the placement: the human, in the corner, can move. *)
Lemma side_to_act_can_move_witness :
  ∃ pos moves,
    positionOf (sessionOf placedEngine "g")
               (currentPlayer (sessionOf placedEngine "g")) = Some pos
    ∧ getValidMoves (board (sessionOf placedEngine "g")) pos = Ok moves
    ∧ moves ≠ [].
Proof.
  apply (side_to_act_can_move placedEngine "g" (sessionOf placedEngine "g")
           placedEngine_reachable getGame_placedEngine).
  reflexivity.
Defined.

(** X2 after the human's first move, in binary64 with the default limits. *)
Lemma makeAIMove_moves_witness :
  ∃ g1 e1,
    makeAIMove (T := PrimFloat.float) defaultConfig expiredClock notLoaded
               noAnswer 201 "g" humanMovedEngine = Some (Ok g1, e1)
    ∧ currentPlayer g1 = HUMAN.
Proof.
  destruct (makeAIMove_moves PrimFloat.float binary64 defaultConfig
              expiredClock notLoaded noAnswer 201 humanMovedEngine "g"
              (sessionOf humanMovedEngine "g")
              humanMovedEngine_reachable getGame_humanMovedEngine)
    as (g1 & e1 & ap & bestMove & Hrun & _ & _ & _ & _ & _ & _ & _ & Hcp);
    [reflexivity|reflexivity|vm_compute; lia|].
  exists g1, e1. split; [exact Hrun|exact Hcp].
Defined.

(** X3 after the human's first move: the undo goes through. *)
Lemma undoLastMove_outcomes_witness :
  ∃ g1 e1 n,
    undoLastMove "g" humanMovedEngine = (Ok g1, e1)
    ∧ moveHistory g1 = take n (moveHistory (sessionOf humanMovedEngine "g")).
Proof.
  pose proof (undoLastMove_outcomes humanMovedEngine "g"
                humanMovedEngine_reachable) as Hout.
  rewrite getGame_humanMovedEngine in Hout.
  rewrite (bool_decide_false (_ = ended)) in Hout by discriminate.
  rewrite (bool_decide_false (_ = [])) in Hout by discriminate.
  destruct Hout as (g1 & e1 & n & Hrun & _ & _ & Hhist & _).
  exists g1, e1, n. split; [exact Hrun|exact Hhist].
Defined.

(** X4 at a fresh session and the corner (0,0). *)
Lemma placeStartingPosition_outcomes_witness :
  ∃ g1 e1,
    placeStartingPosition 0 "g" 0 0 (after (createGame "g" "p") newEngine)
    = (Ok g1, e1)
    ∧ aiPos g1 = Some center.
Proof.
  pose proof (placeStartingPosition_outcomes
                (after (createGame "g" "p") newEngine) 0 "g" 0 0
                (reach_createGame _ "g" "p"
                   (reach_init (gameStats newEngine)
                               (experienceReplay newEngine)))
                ltac:(split; by vm_compute)) as Hout.
  change (getGame "g" (after (createGame "g" "p") newEngine))
    with (Some (newGame "g" "p")) in Hout.
  cbn in Hout.
  destruct Hout as (g1 & e1 & ap & Hrun & _ & _ & Hap & -> & _).
  exists g1, e1. split; [exact Hrun|exact Hap].
Defined.

(** X5 at the human's first move. *)
Lemma makeHumanMove_outcomes_witness :
  ∃ g1 e1,
    makeHumanMove "g" 1 1 placedEngine = (Ok g1, e1)
    ∧ humanPos g1 = Some (1, 1) ∧ currentPlayer g1 = AI.
Proof.
  pose proof (makeHumanMove_outcomes placedEngine "g" 1 1
                placedEngine_reachable) as Hout.
  rewrite getGame_placedEngine in Hout.
  rewrite bool_decide_true in Hout
    by (apply (bool_decide_unpack _); vm_compute; exact I).
  destruct Hout as (g1 & e1 & hp & Hrun & _ & _ & Hhp & _ & _ & _ & Hcp & _).
  exists g1, e1. split; [exact Hrun|]. split; [exact Hhp|exact Hcp].
Defined.

(** X6 with two sessions: a move in ["g"] leaves ["h"] alone. *)
Lemma other_sessions_untouched_witness :
  getGame "h" (after (makeHumanMove "g" 1 1)
                     (after (createGame "h" "q") placedEngine))
  = getGame "h" (after (createGame "h" "q") placedEngine).
Proof.
  apply (other_sessions_untouched
           (after (createGame "h" "q") placedEngine) "g" "h").
  discriminate.
Defined.

(** X7 at the human's first move, which does not end the game. *)
Lemma statistics_count_ended_games_witness :
  gameStats humanMovedEngine = gameStats placedEngine.
Proof.
  destruct (makeHumanMove "g" 1 1 placedEngine) as [[g1|err] e1] eqn:Hrun;
    [|vm_compute in Hrun; discriminate Hrun].
  pose proof (proj1 (proj2 (proj2 (statistics_count_ended_games placedEngine
                "g" placedEngine_reachable))) 1 1 g1 e1 Hrun) as Hstats.
  assert (Hph : gamePhase g1 = playing)
    by (vm_compute in Hrun; by injection Hrun as <- _).
  rewrite bool_decide_false in Hstats by (by rewrite Hph).
  unfold humanMovedEngine, after. by rewrite Hrun.
Defined.

Lemma wf_board_sessionOf_placedEngine :
  wf_board (board (sessionOf placedEngine "g")).
Proof. vm_compute. split; [reflexivity|repeat constructor]. Qed.


(** X9 in binary64: a loaded model that predicts seven tenths. *)
Lemma network_evaluatePosition_total_witness :
  ∃ v : PrimFloat.float,
    Network.evaluatePosition loadedModel (numOf 0) (λ _, Ok sevenTenths)
                             initializeBoard = Ok v
    ∧ in_unit v.
Proof.
  destruct (network_evaluatePosition_total PrimFloat.float binary64
              binary64_unit loadedModel (numOf 0) (λ _, Ok sevenTenths)
              initializeBoard)
    as (v & Hrun & Hunit & _).
  - reflexivity.
  - intros input p Hp. injection Hp as <-. reflexivity.
  - exists v. split; [exact Hrun|exact Hunit].
Defined.

(** X10 in binary64, the timer firing first. *)
Lemma evaluatePosition_with_network_witness :
  ∃ r : PrimFloat.float,
    evaluatePosition loadedModel
      (request loadedModel (numOf 0) (λ _, Ok sevenTenths) true
               initializeBoard) initializeBoard = Ok r
    ∧ heuristicEvaluation initializeBoard = Ok r.
Proof.
  destruct (evaluatePosition_with_network PrimFloat.float binary64
              binary64_unit loadedModel (numOf 0) (λ _, Ok sevenTenths) true
              initializeBoard wf_board_initializeBoard)
    as (r & Hrun & _ & _ & Hheur & _).
  - intros input p Hp. injection Hp as <-. reflexivity.
  - exists r. split; [exact Hrun|]. apply Hheur. right. reflexivity.
Defined.

(** X11 at the first move recorded by a new recorder. *)
Lemma recordMove_keeps_newest_witness :
  match recordMove "g" HUMAN (1, 1) initializeBoard newExperienceReplay with
  | Ok er' => ∃ x, last (experienceBuffer er') = Some x ∧ x_move x = (1, 1)
  | Throw _ => False
  end.
Proof.
  destruct (recordMove "g" HUMAN (1, 1) initializeBoard newExperienceReplay)
    as [er'|err] eqn:Hrun; [|vm_compute in Hrun; discriminate Hrun].
  destruct (recordMove_keeps_newest "g" HUMAN (1, 1) initializeBoard
              newExperienceReplay er' Hrun)
    as (x & _ & _ & Hmove & _ & _ & Hlast & _); [reflexivity|by vm_compute|].
  exists x. split; [exact Hlast|exact Hmove].
Defined.

(** X12 at the empty board: the opening. *)
Lemma determineGamePhase_thresholds_witness :
  determineGamePhase initializeBoard = Ok "opening".
Proof.
  exact (proj1 (proj2 (determineGamePhase_thresholds initializeBoard
                         wf_board_initializeBoard))).
Defined.

(** X13 on three entries, two of them with the same count. *)
Lemma getTopPatterns_most_frequent_witness :
  length (getTopPatterns [("a", 1); ("b", 3); ("c", 3)] 2) = 2%nat
  ∧ StronglySorted (λ a b : string * Z, b.2 ≤ a.2)
                   (getTopPatterns [("a", 1); ("b", 3); ("c", 3)] 2).
Proof.
  destruct (getTopPatterns_most_frequent [("a", 1); ("b", 3); ("c", 3)] 2)
    as (Hlen & Hsorted & _); [lia|].
  split; [exact Hlen|exact Hsorted].
Defined.

(** X14 on the recorder after one recorded move of the human. *)
Lemma generateTrainingData_examples_witness :
  ∃ data,
    generateTrainingData
      {| experienceBuffer :=
           [ {| x_gameId := "g"; x_player := HUMAN; x_move := (1, 1);
                x_board := initializeBoard; x_phase := "opening" |} ];
         maxBufferSize := 10000;
         humanPatterns := humanPatterns newExperienceReplay |} = Ok data
    ∧ length data = 1%nat.
Proof.
  destruct (generateTrainingData_examples
    {| experienceBuffer :=
         [ {| x_gameId := "g"; x_player := HUMAN; x_move := (1, 1);
              x_board := initializeBoard; x_phase := "opening" |} ];
       maxBufferSize := 10000;
       humanPatterns := humanPatterns newExperienceReplay |})
    as (data & Hrun & Hboards & _).
  - repeat constructor; by vm_compute.
  - apply map_Forall_empty.
  - exists data. split; [exact Hrun|].
    apply (f_equal length) in Hboards. rewrite length_fmap in Hboards.
    exact Hboards.
Defined.

(** X16 after the placement. *)
Lemma markers_stand_on_positions_witness :
  ∃ hp ap,
    humanPos (sessionOf placedEngine "g") = Some hp
    ∧ aiPos (sessionOf placedEngine "g") = Some ap
    ∧ read_cell (board (sessionOf placedEngine "g")) hp.1 hp.2
      = Ok (Some (Mark HUMAN))
    ∧ read_cell (board (sessionOf placedEngine "g")) ap.1 ap.2
      = Ok (Some (Mark AI))
    ∧ bool_decide (hp = ap) = false.
Proof.
  apply (markers_stand_on_positions placedEngine "g"
           (sessionOf placedEngine "g") placedEngine_reachable
           getGame_placedEngine).
  discriminate.
Defined.

(** X17 at the human's first move. *)
Lemma committed_move_blocks_one_cell_witness :
  match makeHumanMove "g" 1 1 placedEngine with
  | (Ok g1, _) =>
    countCells (λ x, bool_decide (x = EMPTY)) (board g1)
    = countCells (λ x, bool_decide (x = EMPTY))
                 (board (sessionOf placedEngine "g")) - 1
  | (Throw _, _) => False
  end.
Proof.
  destruct (makeHumanMove "g" 1 1 placedEngine) as [[g1|err] e1] eqn:Hrun;
    [|vm_compute in Hrun; discriminate Hrun].
  exact (proj1 (proj1 (committed_move_blocks_one_cell placedEngine "g"
                         (sessionOf placedEngine "g") g1
                         placedEngine_reachable getGame_placedEngine)
                  1 1 e1 Hrun)).
Defined.

(** X18 at a fresh session and the corner (0,0). *)
Lemma startRoute_outcomes_witness :
  match (startRoute 0 "g" (Num 0) (Num 0)
                    (after (createGame "g" "p") newEngine)).1 with
  | Json g1 => ∃ r c, Num 0 = Num r ∧ humanPos g1 = Some (r, c)
  | Status _ _ => False
  end.
Proof.
  pose proof (startRoute_outcomes
                (after (createGame "g" "p") newEngine) 0 "g" (Num 0) (Num 0)
                (reach_createGame _ "g" "p"
                   (reach_init (gameStats newEngine)
                               (experienceReplay newEngine)))
                ltac:(split; by vm_compute)) as Hout.
  destruct (startRoute 0 "g" (Num 0) (Num 0)
              (after (createGame "g" "p") newEngine)).1
    as [g1|code reason] eqn:Hresp;
    [|vm_compute in Hresp; discriminate Hresp].
  destruct Hout as (r & c & game & Hr & _ & _ & _ & _ & _ & Hhp & _).
  exists r, c. split; [exact Hr|exact Hhp].
Defined.

(** X19 after the human's first move, in binary64. *)
Lemma aiMoveRoute_outcomes_witness :
  ∃ g1 e1 ap bestMove,
    aiMoveRoute (T := PrimFloat.float) defaultConfig expiredClock notLoaded
                noAnswer 201 "g" humanMovedEngine
    = Some (Json (g1, (Some ap, bestMove)), e1)
    ∧ aiPos g1 = Some bestMove.
Proof.
  pose proof (aiMoveRoute_outcomes PrimFloat.float binary64 defaultConfig
                expiredClock notLoaded noAnswer 201 humanMovedEngine "g"
                humanMovedEngine_reachable ltac:(vm_compute; lia)) as Hout.
  rewrite getGame_humanMovedEngine in Hout.
  rewrite (bool_decide_true (currentPlayer _ = AI)) in Hout by reflexivity.
  rewrite (bool_decide_true (gamePhase _ = playing)) in Hout by reflexivity.
  destruct Hout as (g1 & e1 & ap & bestMove & Hrun & _ & _ & Hto & _).
  exists g1, e1, ap, bestMove. split; [exact Hrun|exact Hto].
Defined.

(** X20 after the human's first move: the handler answers 200. *)
Lemma undoRoute_outcomes_witness :
  match (undoRoute "g" humanMovedEngine).1 with
  | Json g1 =>
    ∃ game,
      getGame "g" humanMovedEngine = Some game
      ∧ undoLastMove "g" humanMovedEngine
        = (Ok g1, (undoRoute "g" humanMovedEngine).2)
  | Status _ _ => False
  end.
Proof.
  pose proof (undoRoute_outcomes humanMovedEngine "g"
                humanMovedEngine_reachable) as Hout.
  destruct (undoRoute "g" humanMovedEngine).1 as [g1|code reason] eqn:Hresp;
    [|vm_compute in Hresp; discriminate Hresp].
  destruct Hout as (game & Hgame & _ & _ & Hrun).
  exists game. split; [exact Hgame|exact Hrun].
Defined.

(** X21 after the placement. *)
Lemma validMovesRoute_offers_what_moveRoute_accepts_witness :
  ∃ moves,
    validMovesRoute "g" placedEngine = Json (moves, HUMAN, playing)
    ∧ ((1, 1) ∈ moves ↔
       ∃ g1 message e1,
         moveRoute "g" (Num 1) (Num 1) placedEngine
         = (Json (g1, message), e1)).
Proof.
  destruct (validMovesRoute_offers_what_moveRoute_accepts placedEngine "g"
              (sessionOf placedEngine "g") placedEngine_reachable
              getGame_placedEngine)
    as (moves & Hroute & _ & Hiff); [reflexivity|reflexivity|].
  exists moves. split; [exact Hroute|exact (Hiff 1 1)].
Defined.

(** X22 after the placement, in binary64. *)
Lemma suggestMoveRoute_suggests_valid_move_witness :
  ∃ bestMove moves,
    suggestMoveRoute (T := PrimFloat.float) defaultConfig expiredClock
                     notLoaded noAnswer 201 (Some "g") placedEngine
    = Some (Json (Some bestMove, moves,
                  currentPlayer (sessionOf placedEngine "g")))
    ∧ bestMove ∈ moves.
Proof.
  destruct (suggestMoveRoute_suggests_valid_move PrimFloat.float binary64
              defaultConfig expiredClock notLoaded noAnswer 201 placedEngine
              "g" (sessionOf placedEngine "g") placedEngine_reachable)
    as (bestMove & moves & Hroute & _ & Hin);
    [discriminate|exact getGame_placedEngine|reflexivity|vm_compute; lia|].
  exists bestMove, moves. split; [exact Hroute|exact Hin].
Defined.

(** X23 at the empty board, a loaded model predicting seven tenths. *)
Lemma evaluateRoute_probabilities_witness :
  ∃ ai human confidence,
    evaluateRoute loadedModel 0 (λ _, Ok (7 # 10)%Q) (Some initializeBoard)
    = Json (ai, human, confidence)
    ∧ (ai + human == 1)%Q.
Proof.
  destruct (evaluateRoute_probabilities loadedModel 0 (λ _, Ok (7 # 10)%Q)
              initializeBoard)
    as (ai & human & confidence & Hroute & _ & _ & _ & Hsum & _).
  - reflexivity.
  - split; by vm_compute.
  - intros input p Hp. injection Hp as <-. split; by vm_compute.
  - exists ai, human, confidence. split; [exact Hroute|exact Hsum].
Defined.

Lemma afterQuickAIMove_reachable gameId e :
  reachable e → reachable (afterQuickAIMove gameId e).
Proof.
  intros Hreach. unfold afterQuickAIMove.
  destruct (makeAIMove _ _ _ _ _ _ _) as [[r e']|] eqn:Hrun; [|done].
  by eapply reach_makeAIMove.
Qed.

Lemma bothMovedEngine_reachable : reachable bothMovedEngine.
Proof. apply afterQuickAIMove_reachable, humanMovedEngine_reachable. Qed.

Lemma getGame_bothMovedEngine :
  getGame "g" bothMovedEngine = Some (sessionOf bothMovedEngine "g").
Proof. vm_compute. reflexivity. Qed.

Lemma bothMovedEngine_next_move :
  match makeHumanMove "g" 1 2 bothMovedEngine with
  | (Ok g1, _) => gamePhase g1 = playing
  | (Throw _, _) => False
  end.
Proof. vm_compute. reflexivity. Qed.

(** X24 after one move of each side: the human moves from (1,1) to (1,2)
    and takes the move back. *)
Lemma human_move_then_undo_restores_witness :
  match makeHumanMove "g" 1 2 bothMovedEngine with
  | (Ok g1, e1) =>
    ∃ g2 e2,
      undoLastMove "g" e1 = (Ok g2, e2)
      ∧ board g2 = board (sessionOf bothMovedEngine "g")
      ∧ moveHistory g2 = pop (moveHistory (sessionOf bothMovedEngine "g"))
  | (Throw _, _) => False
  end.
Proof.
  pose proof bothMovedEngine_next_move as Hph.
  destruct (makeHumanMove "g" 1 2 bothMovedEngine) as [[g1|err] e1] eqn:Hrun;
    [|destruct Hph].
  pose proof (human_move_then_undo_restores bothMovedEngine "g" 1 2
                (sessionOf bothMovedEngine "g") g1 e1
                bothMovedEngine_reachable getGame_bothMovedEngine
                ltac:(vm_compute; lia) Hrun) as Hout.
  rewrite (bool_decide_false (gamePhase g1 = ended)) in Hout
    by (rewrite Hph; discriminate).
  destruct Hout as (g2 & e2 & Hundo & _ & Hboard & _ & _ & _ & _ & Hhist & _).
  exists g2, e2. split; [exact Hundo|]. split; [exact Hboard|exact Hhist].
Defined.

(** X25 in binary64 at the session with seven candidates, a model that
    always answers seven tenths and a clock that stands still: the first
    candidate is returned. *)
Lemma undisturbed_constant_selects_first_witness :
  enhancedMCTS (T := PrimFloat.float) defaultConfig (λ _, 0) loadedModel
               (always sevenTenths) 201
               sevenMovesGame (gameStats sevenMovesEngine) sevenMoves
  = Some (Ok (Some (2, 3))).
Proof.
  destruct sevenMovesGame_inv as (Hinv & Hplaying & _ & Hvalid).
  destruct (undisturbed_constant_selects_first PrimFloat.float binary64
              defaultConfig (λ _, 0) loadedModel (always sevenTenths)
              sevenMovesGame (gameStats sevenMovesEngine) sevenMoves (2, 3)
              sevenTenths 201 Binary64.binary64_gt_irrefl Hinv Hplaying Hvalid)
    as (s & n & _ & _ & Hrun).
  - apply (bool_decide_unpack _). vm_compute. exact I.
  - vm_compute. reflexivity.
  - intros k. vm_compute. reflexivity.
  - intros k b _. reflexivity.
  - vm_compute. lia.
  - exact Hrun.
Defined.

(** X26 at the human's first move, with the fresh recorder. *)
Lemma recorder_stays_usable_witness :
  recorder_ok (experienceReplay (after (makeHumanMove "g" 1 1) placedEngine)).
Proof.
  refine (proj1 (proj2 (proj2 (proj2
            (recorder_stays_usable placedEngine placedEngine_reachable _))))
            "g" 1 1).
  split; [apply Forall_nil_2|apply map_Forall_empty].
Defined.

(** C7 in binary64 after the placement, the human in the corner and the
    software agent at the centre, with a loaded model that loses the race
    against the timer: the heuristic evaluation 8/11, a number of [0,1],
    is returned. *)
Lemma evaluatePosition_fallbacks_witness :
  ∃ r : PrimFloat.float,
    evaluatePosition loadedModel
      (request loadedModel (numOf 0) (λ _, Ok sevenTenths) true
               (board (sessionOf placedEngine "g")))
      (board (sessionOf placedEngine "g"))
    = Ok r
    ∧ heuristicEvaluation (board (sessionOf placedEngine "g")) = Ok r
    ∧ r = numDiv (numOf 8) (numOf 11)
    ∧ in_unit r.
Proof.
  destruct (evaluatePosition_fallbacks PrimFloat.float binary64 binary64_unit
              loadedModel (numOf 0) (λ _, Ok sevenTenths) true
              (board (sessionOf placedEngine "g"))
              wf_board_sessionOf_placedEngine)
    as (r & h & input & Hrun & Hh & _ & _ & Hr & _ & Hunit).
  cbn in Hr. subst h. exists r. split; [exact Hrun|]. split; [exact Hh|].
  split.
  - assert (Hcomputed : heuristicEvaluation (T := PrimFloat.float)
                          (board (sessionOf placedEngine "g"))
                        = Ok (numDiv (numOf 8) (numOf 11))) by by vm_compute.
    rewrite Hcomputed in Hh. by injection Hh.
  - apply Hunit. intros p [= <-]. by vm_compute.
Defined.
